(** * FraudSense: the call session manager and the alert policy

    A shallow embedding of two source files of the repository:

    - [backend/services/fraudDetection.js], the [FraudDetectionService]:
      its alert severity and alert message policy, the text and audio
      analyses with storing and alerting, and the debouncing of text
      analyses;
    - the [VideoCall] React component (the call session manager): its state
      cells ([useState]) and mutable references ([useRef]), its signaling
      handlers, mode toggles, audio capture and teardown.

    JavaScript values are modelled by [Js.JsValue]; numbers are IEEE-754
    doubles, as in the language, so that [===] on numbers is the primitive
    float comparison. *)

From Stdlib Require Import String Ascii List Bool ZArith Lia PeanoNat.
From Stdlib Require Import PrimFloat DecimalString.
From Stdlib Require DecimalN DecimalPos.
Import ListNotations.
Open Scope string_scope.

(** ** JavaScript values *)

Module Js.

Inductive JsValue : Type :=
| JUndefined
| JNull
| JBool (b : bool)
| JNumber (x : float)
| JString (s : string).

(** [a === b]: no coercion; numbers compare as IEEE doubles, so [NaN] differs
    from itself and [+0 === -0]. *)
Definition strictEq (a b : JsValue) : bool :=
  match a, b with
  | JUndefined, JUndefined => true
  | JNull, JNull => true
  | JBool x, JBool y => Bool.eqb x y
  | JNumber x, JNumber y => PrimFloat.eqb x y
  | JString s, JString t => String.eqb s t
  | _, _ => false
  end.

(** Truthiness, as used by [if (v)], [a && b] and [a || b]. *)
Definition truthy (v : JsValue) : bool :=
  match v with
  | JUndefined | JNull => false
  | JBool b => b
  | JNumber x => negb (PrimFloat.eqb x 0%float) && PrimFloat.eqb x x
  | JString s => negb (String.eqb s "")
  end.

End Js.

(** ** The alert policy of [FraudDetectionService] *)

Module FraudDetection.
Import Js.

(** [calculateAlertSeverity(fraudScore, type)]. *)
Definition calculateAlertSeverity (fraudScore type : JsValue) : string :=
  if strictEq type (JString "text") then
    if strictEq fraudScore (JNumber 2) then "high" else "low"
  else if strictEq type (JString "audio") then
    if strictEq fraudScore (JNumber 1) then "high" else "low"
  else "low".

(** [generateAlertMessage(fraudScore, type)]. *)
Definition generateAlertMessage (fraudScore type : JsValue) : string :=
  if strictEq type (JString "text") then
    if strictEq fraudScore (JNumber 2)
    then "Potential scam detected in conversation" else "Normal conversation"
  else if strictEq type (JString "audio") then
    if strictEq fraudScore (JNumber 1)
    then "Suspicious audio patterns detected" else "Normal audio"
  else "Unknown fraud pattern".

(** The two messages that report a finding. *)
Definition reportsFinding (msg : string) : bool :=
  String.eqb msg "Potential scam detected in conversation"
  || String.eqb msg "Suspicious audio patterns detected".

(** The score-equality condition of the policy. *)
Definition flagged (fraudScore type : JsValue) : Prop :=
  (type = JString "text" /\ strictEq fraudScore (JNumber 2) = true) \/
  (type = JString "audio" /\ strictEq fraudScore (JNumber 1) = true).

End FraudDetection.

(** ** The fraud detection service: analyses, alerts and debouncing

    The rest of [FraudDetectionService]. Its collaborators -- the model
    client [vllmClient], the [audioProcessor], the [FraudAnalysis] store,
    the clock and the callbacks of its callers -- are external; what they
    answer is given by a record of functions of what the service has asked
    so far, and the theorems hold for every such record. An [async] method
    is a computation that ends resolved or rejected; what is thrown or
    rejected with may be an error with its message, a value without one,
    or [null] or [undefined], on which reading [.message] throws. Console
    output is not part of the model, but the arguments of [console.error]
    are evaluated. *)

Module FraudService.
Import Js FraudDetection.

(** *** Data *)

(** The text of a message: a JavaScript string, that is the sequence of
    its UTF-16 code units. *)
Definition CodeUnit : Type := N.
Definition Text : Type := list CodeUnit.

(** The text of an ASCII literal. *)
Definition textOf (s : string) : Text := map N_of_ascii (list_ascii_of_string s).

(** [text.substring(0, n)]. *)
Definition substringTo (n : nat) (text : Text) : Text := firstn n text.

(** A chat message, as far as the service looks at it: its [content]. *)
Record ChatMessage : Type := { content : option Text }.

(** What is thrown, or what a promise rejects with, as far as the service
    looks at it: [null], [undefined], or a value whose [message] property
    reads as [message] ([undefined] when it has none). *)
Inductive Thrown : Type :=
| ThrownNull
| ThrownUndefined
| ThrownValue (message : JsValue).

(** [new Error(message)]. *)
Definition anError (message : string) : Thrown := ThrownValue (JString message).

(** The [context] of a text analysis: its [userId]; the rest is handed on. *)
Record AnalysisContext : Type := { context_userId : JsValue }.

Definition JsRecord : Type := list (string * JsValue).

(** What the model client resolves to; the score is a number. *)
Record ModelReply : Type := {
  reply_success : bool;
  reply_error : option string;
  reply_fraudScore : float;
  reply_confidence : JsValue;
  reply_rawResponse : JsValue;
  reply_processingTime : JsValue
}.

(** The [metadata] argument of [analyzeAudioChunk]. *)
Record AudioRequest : Type := {
  request_conversationId : JsValue;
  request_userId : JsValue;
  request_chunkIndex : JsValue
}.

Record Validation : Type := { valid : bool; errors : list string }.

Record Processing : Type := {
  processing_success : bool;
  processing_error : option string;
  processing_audioBuffer : string;
  processing_metadata : JsRecord
}.

Inductive InputData : Type :=
| TextInput (messageCount : nat) (lastMessage : Text) (context : AnalysisContext)
| AudioInput (fields : JsRecord).

(** The object handed to [storeFraudAnalysis]. *)
Record AnalysisData : Type := {
  data_conversationId : JsValue;
  data_analysisType : string;
  data_userId : JsValue;
  data_fraudScore : float;
  data_confidence : JsValue;
  data_inputData : InputData;
  data_modelResponse : JsValue;
  data_processingTime : JsValue;
  data_audioChunkIndex : option JsValue;
  data_audioFormat : option string
}.

(** What [storeFraudAnalysis] returns, as far as the service reads it: the
    fields copied into an alert, what [shouldTriggerAlert()] returns, and
    [triggerAlert] ([None] when the object has no such method, otherwise
    whether the call resolves or with what it rejects). *)
Record AnalysisDoc : Type := {
  doc_id : JsValue;
  doc_conversationId : JsValue;
  doc_userId : JsValue;
  doc_fraudScore : JsValue;
  doc_confidence : JsValue;
  doc_shouldTriggerAlert : bool;
  doc_triggerAlert : option (option Thrown)
}.

Record AlertData : Type := {
  alertId : string;
  alert_analysisId : JsValue;
  alert_conversationId : JsValue;
  alert_userId : JsValue;
  alert_type : string;
  alert_fraudScore : JsValue;
  alert_confidence : JsValue;
  alert_timestamp : N;
  alert_severity : string;
  alert_message : string
}.

(** The object an analysis resolves to: [success: true] with its fields
    ([chunkIndex] for audio only), or [success: false] with the error and
    the default score and confidence. *)
Inductive AnalysisResult : Type :=
| Analysed (analysisId : JsValue) (fraudScore : float) (confidence : JsValue)
    (alertTriggered : bool) (alertData : option AlertData) (processingTime : JsValue)
    (chunkIndex : option JsValue)
| Failed (error : JsValue) (fraudScore confidence : float).

(** What a callback is called with: the result of the analysis, or the
    object [{ success: false, error }] of the debounced job. *)
Inductive CallbackArg : Type :=
| WithResult (result : AnalysisResult)
| WithError (error : JsValue).

(** What the service asks of its collaborators. *)
Inductive Asked : Type :=
| TextModel (messages : list ChatMessage) (context : AnalysisContext)
| ValidateAudio (audioBuffer format : string)
| ProcessAudio (audioBuffer format : string)
| AudioModel (audioBuffer : string) (metadata : JsRecord)
| Save (data : AnalysisData)
| MarkAlert (doc : AnalysisDoc)
| ReadClock
| Callback (callback : nat) (arg : CallbackArg).

(** How a promise settles, or a call completes. *)
Inductive Settled (A : Type) : Type :=
| Resolved (a : A)
| Rejected (reason : Thrown).
Arguments Resolved {A} a.
Arguments Rejected {A} reason.

(** The collaborators: what each answers, given what was asked so far. *)
Record Collaborators : Type := {
  vllm_analyzeText : list Asked -> list ChatMessage -> AnalysisContext -> Settled ModelReply;
  vllm_analyzeAudio : list Asked -> string -> JsRecord -> Settled ModelReply;
  validateAudioInput : list Asked -> string -> string -> Settled Validation;
  processAudioChunk : list Asked -> string -> string -> Settled Processing;
  save : list Asked -> AnalysisData -> Settled AnalysisDoc;
  dateNow : list Asked -> N;
  callbackThrows : list Asked -> nat -> CallbackArg -> option Thrown
}.

(** The settings of the service, fixed by its constructor. *)
Record Service : Type := {
  debounceDelay : nat;
  enableRealTimeAlerts : bool;
  storeFraudResults : bool
}.

(** The arguments of a debounced analysis, kept by the timer. *)
Record Job : Type := {
  job_conversationId : string;
  job_messages : option (list ChatMessage);
  job_context : AnalysisContext;
  job_callback : option nat
}.

Record Timer : Type := {
  timer_id : nat;
  timer_delay : nat;
  timer_job : Job
}.

(** The service and the event loop around it: the [Map] of the debounce
    timeouts in insertion order, the timers that are set and have neither
    fired nor been cleared, the jobs whose analysis has settled and whose
    continuation has not run yet, and what was asked of the collaborators. *)
Record World : Type := {
  debounceTimeouts : list (string * nat);
  timers : list Timer;
  nextTimerId : nat;
  settling : list (Job * Settled AnalysisResult);
  journal : list Asked
}.

Definition emptyWorld : World :=
  {| debounceTimeouts := []; timers := []; nextTimerId := 0; settling := []; journal := [] |}.

Definition put_debounceTimeouts (v : list (string * nat)) (w : World) : World :=
  {| debounceTimeouts := v; timers := timers w; nextTimerId := nextTimerId w;
     settling := settling w; journal := journal w |}.

Definition put_timers (v : list Timer) (w : World) : World :=
  {| debounceTimeouts := debounceTimeouts w; timers := v; nextTimerId := nextTimerId w;
     settling := settling w; journal := journal w |}.

Definition put_nextTimerId (v : nat) (w : World) : World :=
  {| debounceTimeouts := debounceTimeouts w; timers := timers w; nextTimerId := v;
     settling := settling w; journal := journal w |}.

Definition put_settling (v : list (Job * Settled AnalysisResult)) (w : World) : World :=
  {| debounceTimeouts := debounceTimeouts w; timers := timers w;
     nextTimerId := nextTimerId w; settling := v; journal := journal w |}.

Definition put_journal (v : list Asked) (w : World) : World :=
  {| debounceTimeouts := debounceTimeouts w; timers := timers w;
     nextTimerId := nextTimerId w; settling := settling w; journal := v |}.

(** *** Computations *)

Definition Svc (A : Type) : Type := World -> Settled A * World.

Definition ret {A : Type} (a : A) : Svc A := fun w => (Resolved a, w).

Definition bind {A B : Type} (m : Svc A) (k : A -> Svc B) : Svc B :=
  fun w =>
    match m w with
    | (Resolved a, w') => k a w'
    | (Rejected e, w') => (Rejected e, w')
    end.

Definition throw {A : Type} (reason : Thrown) : Svc A := fun w => (Rejected reason, w).

(** [throw new Error(message)]. *)
Definition throwError {A : Type} (message : string) : Svc A := throw (anError message).

(** The message of the [TypeError] that reading [.message] of [null] or
    [undefined] throws. *)
Definition cannotRead (error : Thrown) : string :=
  match error with
  | ThrownUndefined => "Cannot read properties of undefined (reading 'message')"
  | _ => "Cannot read properties of null (reading 'message')"
  end.

(** [error.message]. *)
Definition messageOf (error : Thrown) : Svc JsValue :=
  match error with
  | ThrownValue message => ret message
  | _ => throwError (cannotRead error)
  end.

Definition tryCatch {A : Type} (m : Svc A) (h : Thrown -> Svc A) : Svc A :=
  fun w =>
    match m w with
    | (Resolved a, w') => (Resolved a, w')
    | (Rejected e, w') => h e w'
    end.

Definition get : Svc World := fun w => (Resolved w, w).

Definition modify (f : World -> World) : Svc unit := fun w => (Resolved tt, f w).

Declare Scope svc_scope.
Delimit Scope svc_scope with svc.
Notation "x <- m ;; k" := (bind m (fun x => k))
  (at level 61, m at next level, right associativity) : svc_scope.
Notation "m ;; k" := (bind m (fun _ => k))
  (at level 61, right associativity) : svc_scope.
Open Scope svc_scope.

Definition when (b : bool) (m : Svc unit) : Svc unit := if b then m else ret tt.

(** Ask a collaborator: the question goes to the journal, the answer is
    what the collaborator gives at that point. *)
Definition ask {A : Type} (question : Asked) (answer : list Asked -> Settled A) : Svc A :=
  fun w => (answer (journal w), put_journal (journal w ++ [question]) w).

Definition result {A : Type} (m : Svc A) (w : World) : Settled A := fst (m w).
Definition after {A : Type} (m : Svc A) (w : World) : World := snd (m w).

(** [a || b] on an optional string: the string when it is there and not
    empty. *)
Definition orElse (a : option string) (b : string) : string :=
  match a with
  | Some s => if String.eqb s "" then b else s
  | None => b
  end.

(** [v || d]. *)
Definition orDefault (v d : JsValue) : JsValue := if truthy v then v else d.

Definition decimal (n : N) : string :=
  DecimalString.NilZero.string_of_uint (N.to_uint n).

(** *** The [Map] of the debounce timeouts *)

Fixpoint mapGet (key : string) (m : list (string * nat)) : option nat :=
  match m with
  | [] => None
  | (k, v) :: m' => if String.eqb k key then Some v else mapGet key m'
  end.

(** [m.set(key, v)]: an existing key keeps its place. *)
Fixpoint mapSet (key : string) (v : nat) (m : list (string * nat)) : list (string * nat) :=
  match m with
  | [] => [(key, v)]
  | (k, v') :: m' =>
      if String.eqb k key then (k, v) :: m' else (k, v') :: mapSet key v m'
  end.

Definition mapDelete (key : string) (m : list (string * nat)) : list (string * nat) :=
  filter (fun kv => negb (String.eqb (fst kv) key)) m.

(** *** Timers *)

(** [setTimeout(job, delay)]: a new timer. *)
Definition setTimeout (job : Job) (delay : nat) : Svc nat :=
  fun w =>
    (Resolved (nextTimerId w),
     put_nextTimerId (S (nextTimerId w))
       (put_timers
          (timers w ++ [{| timer_id := nextTimerId w; timer_delay := delay;
                           timer_job := job |}]) w)).

(** [clearTimeout(id)]: nothing happens when no such timer is pending. *)
Definition clearTimeout (id : nat) : Svc unit :=
  modify (fun w => put_timers (filter (fun t => negb (Nat.eqb (timer_id t) id)) (timers w)) w).

(** The pending timers of a conversation. *)
Definition pendingFor (conversationId : string) (w : World) : list Timer :=
  filter (fun t => String.eqb (job_conversationId (timer_job t)) conversationId) (timers w).

(** Every pending timer is the one that the [Map] holds for its
    conversation, an entry of the [Map] is about a timer of its own
    conversation, and timer ids are not reused. *)
Definition registered (w : World) : Prop :=
  NoDup (map timer_id (timers w)) /\
  (forall t, In t (timers w) ->
     timer_id t < nextTimerId w /\
     mapGet (job_conversationId (timer_job t)) (debounceTimeouts w) = Some (timer_id t)) /\
  (forall conversationId id,
     mapGet conversationId (debounceTimeouts w) = Some id ->
     id < nextTimerId w /\
     forall t, In t (timers w) -> timer_id t = id ->
               job_conversationId (timer_job t) = conversationId).

(** The last job of a conversation in a burst of calls. *)
Definition lastJobFor (conversationId : string) (calls : list Job) : option Job :=
  find (fun job => String.eqb (job_conversationId job) conversationId) (rev calls).

Definition isSave (a : Asked) : bool :=
  match a with Save _ => true | _ => false end.

(** The calls of a callback, in order. *)
Fixpoint callbackCalls (callback : nat) (log : list Asked) : list CallbackArg :=
  match log with
  | [] => []
  | Callback c arg :: log' =>
      if Nat.eqb c callback then arg :: callbackCalls callback log'
      else callbackCalls callback log'
  | _ :: log' => callbackCalls callback log'
  end.

Section Service.

Variable this : Service.
Variable deps : Collaborators.

(** *** Storing and alerting *)

(** [storeFraudAnalysis(analysisData)] (lines 212-232). *)
Definition storeFraudAnalysis (analysisData : AnalysisData) : Svc AnalysisDoc :=
  if negb (storeFraudResults this) then
    ret {| doc_id := JString "temp-id";
           doc_conversationId := JUndefined;
           doc_userId := JUndefined;
           doc_fraudScore := JUndefined;
           doc_confidence := JUndefined;
           doc_shouldTriggerAlert := PrimFloat.ltb 1 (data_fraudScore analysisData);
           doc_triggerAlert := None |}
  else
    tryCatch
      (ask (Save analysisData) (fun log => save deps log analysisData))
      (fun error => messageOf error ;; throw error).

(** [triggerFraudAlert(fraudAnalysis, type)] (lines 240-268). *)
Definition triggerFraudAlert (fraudAnalysis : AnalysisDoc) (type : string) : Svc AlertData :=
  tryCatch
    (match doc_triggerAlert fraudAnalysis with
     | Some outcome =>
         ask (MarkAlert fraudAnalysis)
           (fun _ => match outcome with
                     | None => Resolved tt
                     | Some reason => Rejected reason
                     end)
     | None => ret tt
     end ;;
     now <- ask ReadClock (fun log => Resolved (dateNow deps log)) ;;
     timestamp <- ask ReadClock (fun log => Resolved (dateNow deps log)) ;;
     ret {| alertId := "alert_" ++ decimal now;
            alert_analysisId := doc_id fraudAnalysis;
            alert_conversationId := doc_conversationId fraudAnalysis;
            alert_userId := doc_userId fraudAnalysis;
            alert_type := type;
            alert_fraudScore := doc_fraudScore fraudAnalysis;
            alert_confidence := doc_confidence fraudAnalysis;
            alert_timestamp := timestamp;
            alert_severity :=
              calculateAlertSeverity (doc_fraudScore fraudAnalysis) (JString type);
            alert_message :=
              generateAlertMessage (doc_fraudScore fraudAnalysis) (JString type) |})
    (fun error => messageOf error ;; throw error).

(** The alert of an analysis, when it asks for one and alerts are enabled. *)
Definition alertFor (fraudAnalysis : AnalysisDoc) (type : string) : Svc (option AlertData) :=
  if doc_shouldTriggerAlert fraudAnalysis && enableRealTimeAlerts this then
    alertData <- triggerFraudAlert fraudAnalysis type ;;
    ret (Some alertData)
  else ret None.

(** *** The analyses *)

(** [analyzeText(conversationId, messages, context)] (lines 60-121);
    [messages] is [None] when the argument is [null] or [undefined]. *)
Definition analyzeText (conversationId : string) (messages : option (list ChatMessage))
    (context : AnalysisContext) : Svc AnalysisResult :=
  tryCatch
    (messages <-
       match messages with
       | Some (m :: ms) => ret (m :: ms)
       | _ => throwError "No messages provided for analysis"
       end ;;
     analysisResult <-
       ask (TextModel messages context) (fun log => vllm_analyzeText deps log messages context) ;;
     when (negb (reply_success analysisResult))
       (throwError (orElse (reply_error analysisResult) "Text analysis failed")) ;;
     lastMessage <-
       match content (last messages {| content := None |}) with
       | Some text => ret (substringTo 100 text)
       | None => throwError "Cannot read properties of undefined (reading 'substring')"
       end ;;
     fraudAnalysis <-
       storeFraudAnalysis
         {| data_conversationId := JString conversationId;
            data_analysisType := "text";
            data_userId := context_userId context;
            data_fraudScore := reply_fraudScore analysisResult;
            data_confidence := reply_confidence analysisResult;
            data_inputData := TextInput (length messages) lastMessage context;
            data_modelResponse := reply_rawResponse analysisResult;
            data_processingTime := reply_processingTime analysisResult;
            data_audioChunkIndex := None;
            data_audioFormat := None |} ;;
     let shouldAlert := doc_shouldTriggerAlert fraudAnalysis in
     alertResult <- alertFor fraudAnalysis "text" ;;
     ret (Analysed (doc_id fraudAnalysis) (reply_fraudScore analysisResult)
            (reply_confidence analysisResult) shouldAlert alertResult
            (reply_processingTime analysisResult) None))
    (fun error => message <- messageOf error ;; ret (Failed message 1 0)).

(** [{ originalFormat: format, ...metadata }]: a later field of the same
    name replaces the value and keeps the place. *)
Fixpoint setField (name : string) (v : JsValue) (o : JsRecord) : JsRecord :=
  match o with
  | [] => [(name, v)]
  | (n, v') :: o' =>
      if String.eqb n name then (n, v) :: o' else (n, v') :: setField name v o'
  end.

Definition spread (o extra : JsRecord) : JsRecord :=
  fold_left (fun acc field => setField (fst field) (snd field) acc) extra o.

(** [analyzeAudioChunk(audioBuffer, format, metadata)] (lines 130-205). *)
Definition analyzeAudioChunk (audioBuffer format : string) (metadata : AudioRequest)
  : Svc AnalysisResult :=
  tryCatch
    (validation <-
       ask (ValidateAudio audioBuffer format)
         (fun log => validateAudioInput deps log audioBuffer format) ;;
     when (negb (valid validation))
       (throwError
          ("Audio validation failed: " ++ String.concat ", " (errors validation))) ;;
     processingResult <-
       ask (ProcessAudio audioBuffer format)
         (fun log => processAudioChunk deps log audioBuffer format) ;;
     when (negb (processing_success processingResult))
       (throwError
          (orElse (processing_error processingResult) "Audio processing failed")) ;;
     analysisResult <-
       ask (AudioModel (processing_audioBuffer processingResult)
              (processing_metadata processingResult))
         (fun log =>
            vllm_analyzeAudio deps log (processing_audioBuffer processingResult)
              (processing_metadata processingResult)) ;;
     when (negb (reply_success analysisResult))
       (throwError (orElse (reply_error analysisResult) "Audio analysis failed")) ;;
     fraudAnalysis <-
       storeFraudAnalysis
         {| data_conversationId := request_conversationId metadata;
            data_analysisType := "audio";
            data_userId := request_userId metadata;
            data_fraudScore := reply_fraudScore analysisResult;
            data_confidence := reply_confidence analysisResult;
            data_inputData :=
              AudioInput (spread [("originalFormat", JString format)]
                            (processing_metadata processingResult));
            data_modelResponse := reply_rawResponse analysisResult;
            data_processingTime := reply_processingTime analysisResult;
            data_audioChunkIndex :=
              Some (orDefault (request_chunkIndex metadata) (JNumber 0));
            data_audioFormat := Some format |} ;;
     let shouldAlert := doc_shouldTriggerAlert fraudAnalysis in
     alertResult <- alertFor fraudAnalysis "audio" ;;
     ret (Analysed (doc_id fraudAnalysis) (reply_fraudScore analysisResult)
            (reply_confidence analysisResult) shouldAlert alertResult
            (reply_processingTime analysisResult)
            (Some (orDefault (request_chunkIndex metadata) (JNumber 0)))))
    (fun error => message <- messageOf error ;; ret (Failed message 0 0)).

(** *** Debouncing *)

(** [analyzeTextWithDebounce(conversationId, messages, context, callback)]
    (lines 21-51), up to its return: the job itself runs when the timer
    fires. *)
Definition analyzeTextWithDebounce (job : Job) : Svc unit :=
  w <- get ;;
  match mapGet (job_conversationId job) (debounceTimeouts w) with
  | Some timeoutId => clearTimeout timeoutId
  | None => ret tt
  end ;;
  timeoutId <- setTimeout job (debounceDelay this) ;;
  modify (fun w =>
            put_debounceTimeouts
              (mapSet (job_conversationId job) timeoutId (debounceTimeouts w)) w).

(** [if (callback) callback(arg)]. *)
Definition callBack (callback : option nat) (arg : CallbackArg) : Svc unit :=
  match callback with
  | Some c =>
      ask (Callback c arg)
        (fun log => match callbackThrows deps log c arg with
                    | None => Resolved tt
                    | Some reason => Rejected reason
                    end)
  | None => ret tt
  end.

(** The timer [id] fires: the event loop drops it and starts its job
    (lines 28-31). The job waits for [analyzeText]; until that has settled
    other calls of the service can run. *)
Definition timerFires (id : nat) : Svc unit :=
  w <- get ;;
  match find (fun t => Nat.eqb (timer_id t) id) (timers w) with
  | Some t =>
      clearTimeout id ;;
      let job := timer_job t in
      fun w =>
        let (outcome, w') :=
          analyzeText (job_conversationId job) (job_messages job) (job_context job) w in
        (Resolved tt, put_settling (settling w' ++ [(job, outcome)]) w')
  | None => ret tt
  end.

(** The rest of the job once its analysis has settled (lines 31-45). In
    the [catch], [error.message] is read only when there is a callback. *)
Definition jobContinues (job : Job) (outcome : Settled AnalysisResult) : Svc unit :=
  tryCatch
    (result <- (fun w => (outcome, w)) ;;
     callBack (job_callback job) (WithResult result) ;;
     modify (fun w =>
               put_debounceTimeouts
                 (mapDelete (job_conversationId job) (debounceTimeouts w)) w))
    (fun error =>
       match job_callback job with
       | Some c =>
           message <- messageOf error ;;
           callBack (Some c) (WithError message)
       | None => ret tt
       end).

(** The oldest settled analysis is taken up. *)
Definition analysisSettles : Svc unit :=
  w <- get ;;
  match settling w with
  | (job, outcome) :: rest =>
      modify (put_settling rest) ;;
      jobContinues job outcome
  | [] => ret tt
  end.

(** [clearDebounceTimeout(conversationId)] (lines 367-373). *)
Definition clearDebounceTimeout (conversationId : string) : Svc unit :=
  w <- get ;;
  match mapGet conversationId (debounceTimeouts w) with
  | Some timeoutId =>
      clearTimeout timeoutId ;;
      modify (fun w =>
                put_debounceTimeouts (mapDelete conversationId (debounceTimeouts w)) w)
  | None => ret tt
  end.

Fixpoint forEach {A : Type} (l : list A) (body : A -> Svc unit) : Svc unit :=
  match l with
  | [] => ret tt
  | x :: l' => body x ;; forEach l' body
  end.

(** [clearAllDebounceTimeouts()] (lines 378-382). *)
Definition clearAllDebounceTimeouts : Svc unit :=
  w <- get ;;
  forEach (debounceTimeouts w) (fun entry => clearTimeout (snd entry)) ;;
  modify (put_debounceTimeouts []).

End Service.

(** *** Properties of computations *)

(** Whenever [m] resolves, its value has the property [P]. *)
Definition yields {A : Type} (m : Svc A) (P : A -> Prop) : Prop :=
  forall w a w', m w = (Resolved a, w') -> P a.

(** Whenever [m] rejects, what it rejects with has the property [R]. *)
Definition rejectsWith {A : Type} (m : Svc A) (R : Thrown -> Prop) : Prop :=
  forall w e w', m w = (Rejected e, w') -> R e.

(** What is thrown is neither [null] nor [undefined]. *)
Definition hasMessage (e : Thrown) : Prop :=
  match e with
  | ThrownValue _ => True
  | _ => False
  end.

(** A promise that resolves, or rejects with something other than [null]
    and [undefined]. *)
Definition givesReason {A : Type} (r : Settled A) : Prop :=
  match r with
  | Resolved _ => True
  | Rejected e => hasMessage e
  end.

(** A computation that touches nothing but the journal. *)
Definition onlyAsks {A : Type} (m : Svc A) : Prop :=
  forall w, exists log, after m w = put_journal log w.

(** The document that stands for a stored analysis when storage is
    disabled. *)
Definition stubDoc (fraudScore : float) : AnalysisDoc :=
  {| doc_id := JString "temp-id";
     doc_conversationId := JUndefined;
     doc_userId := JUndefined;
     doc_fraudScore := JUndefined;
     doc_confidence := JUndefined;
     doc_shouldTriggerAlert := PrimFloat.ltb 1 fraudScore;
     doc_triggerAlert := None |}.

(** An alert was built from the document [doc] for the analysis type
    [type]. *)
Definition alertOf (doc : AnalysisDoc) (type : string) (alertData : AlertData) : Prop :=
  alert_analysisId alertData = doc_id doc /\
  alert_conversationId alertData = doc_conversationId doc /\
  alert_userId alertData = doc_userId doc /\
  alert_fraudScore alertData = doc_fraudScore doc /\
  alert_confidence alertData = doc_confidence doc /\
  alert_type alertData = type /\
  alert_severity alertData = calculateAlertSeverity (doc_fraudScore doc) (JString type) /\
  alert_message alertData = generateAlertMessage (doc_fraudScore doc) (JString type) /\
  exists now, alertId alertData = "alert_" ++ decimal now.

(** What a resolved analysis of the given type says: it is a success, built
    from the document [doc] that [storeFraudAnalysis] returned, which is
    the stub when storage is disabled; [alertTriggered] is what the
    document's [shouldTriggerAlert()] says, and the alert, when there is
    one, was built from the document. *)
Definition alertReported (this : Service) (type : string) (r : AnalysisResult) : Prop :=
  match r with
  | Analysed analysisId fraudScore _ alertTriggered alertData _ _ =>
      exists doc,
        analysisId = doc_id doc /\
        alertTriggered = doc_shouldTriggerAlert doc /\
        (storeFraudResults this = false -> doc = stubDoc fraudScore) /\
        (alertData <> None
         <-> alertTriggered = true /\ enableRealTimeAlerts this = true) /\
        forall a, alertData = Some a -> alertOf doc type a
  | Failed _ _ _ => False
  end.

(** *** A concrete service, for examples *)

Definition demoService : Service :=
  {| debounceDelay := 3000; enableRealTimeAlerts := true; storeFraudResults := false |}.

Definition storingService : Service :=
  {| debounceDelay := 3000; enableRealTimeAlerts := true; storeFraudResults := true |}.

Definition scamReply : ModelReply :=
  {| reply_success := true; reply_error := None; reply_fraudScore := 2;
     reply_confidence := JNumber 0.5; reply_rawResponse := JString "scam";
     reply_processingTime := JNumber 12 |}.

Definition savedDoc : AnalysisDoc :=
  {| doc_id := JString "a1"; doc_conversationId := JString "c42";
     doc_userId := JString "u1"; doc_fraudScore := JNumber 2;
     doc_confidence := JNumber 0.5; doc_shouldTriggerAlert := true;
     doc_triggerAlert := Some (Some (anError "write conflict")) |}.

(** Collaborators that accept everything: the model finds a scam, the
    store saves a document whose [triggerAlert] then rejects, and the
    callback 7 throws on whatever it is called with. *)
Definition demoDeps : Collaborators :=
  {| vllm_analyzeText := fun _ _ _ => Resolved scamReply;
     vllm_analyzeAudio := fun _ _ _ => Resolved scamReply;
     validateAudioInput := fun _ _ _ =>
       Resolved {| valid := false; errors := ["empty buffer"; "unknown format"] |};
     processAudioChunk := fun _ audioBuffer _ =>
       Resolved {| processing_success := true; processing_error := None;
                   processing_audioBuffer := audioBuffer; processing_metadata := [] |};
     save := fun _ _ => Resolved savedDoc;
     dateNow := fun _ => 1700000000000%N;
     callbackThrows :=
       fun _ c _ => if Nat.eqb c 7 then Some (anError "callback failed") else None |}.

(** A stored document whose [triggerAlert] resolves; a validator that
    accepts the audio and a store that returns that document; a model
    client that rejects with [null] and a validator that rejects with
    [undefined]. *)
Definition markedDoc : AnalysisDoc :=
  {| doc_id := JString "a2"; doc_conversationId := JString "c42";
     doc_userId := JString "u1"; doc_fraudScore := JNumber 2;
     doc_confidence := JNumber 0.5; doc_shouldTriggerAlert := true;
     doc_triggerAlert := Some None |}.

Definition markingDeps : Collaborators :=
  {| vllm_analyzeText := vllm_analyzeText demoDeps;
     vllm_analyzeAudio := vllm_analyzeAudio demoDeps;
     validateAudioInput := fun _ _ _ => Resolved {| valid := true; errors := [] |};
     processAudioChunk := processAudioChunk demoDeps;
     save := fun _ _ => Resolved markedDoc;
     dateNow := dateNow demoDeps;
     callbackThrows := callbackThrows demoDeps |}.

Definition silentDeps : Collaborators :=
  {| vllm_analyzeText := fun _ _ _ => Rejected ThrownNull;
     vllm_analyzeAudio := vllm_analyzeAudio demoDeps;
     validateAudioInput := fun _ _ _ => Rejected ThrownUndefined;
     processAudioChunk := processAudioChunk demoDeps;
     save := save demoDeps;
     dateNow := dateNow demoDeps;
     callbackThrows := callbackThrows demoDeps |}.

Definition demoMessages : list ChatMessage :=
  [ {| content := Some (textOf "hello") |};
    {| content := Some (textOf "send me your card number") |} ].

(** Messages of which the last one has no content. *)
Definition brokenMessages : list ChatMessage :=
  [ {| content := Some (textOf "hello") |}; {| content := None |} ].

Definition demoContext : AnalysisContext := {| context_userId := JString "u1" |}.

Definition demoRequest : AudioRequest :=
  {| request_conversationId := JString "c42"; request_userId := JString "u1";
     request_chunkIndex := JUndefined |}.

Definition demoJob : Job :=
  {| job_conversationId := "c42"; job_messages := Some demoMessages;
     job_context := demoContext; job_callback := Some 7 |}.

Definition laterJob : Job :=
  {| job_conversationId := "c42"; job_messages := Some demoMessages;
     job_context := demoContext; job_callback := Some 8 |}.

(** A job of another conversation. *)
Definition otherJob : Job :=
  {| job_conversationId := "c43"; job_messages := Some demoMessages;
     job_context := demoContext; job_callback := None |}.

(** A service with two analyses pending, of two conversations. *)
Definition busyWorld : World :=
  after (analyzeTextWithDebounce demoService otherJob)
    (after (analyzeTextWithDebounce demoService demoJob) emptyWorld).

End FraudService.

(** ** The call session manager: the [VideoCall] component

    The component is modelled as a transition system. Its state is the
    record [State]; every handler of the source is a computation in the
    monad [JS], which threads the state, carries JavaScript exceptions, and
    records what the session did to the outside world in a trace.

    The platform (media devices, the peer connection, the recorder, the
    socket) is external. Whether one of its calls throws or rejects is
    decided by a parameter [fails] of the development, a function of the
    trace so far and of the call; the theorems hold for every [fails]. What
    the session reads back from the connection ([remoteDescription], the
    senders) is kept in [RTCPeerConnection].

    A handler runs to its end before the next event is taken: an awaited
    platform call settles at once, with the outcome [fails] gives. The one
    exception is [initializeCall], which is followed from await to await,
    so that messages can arrive while it waits for the media or for the
    relay configuration, when the session has no connection yet, and
    between the creation of the connection and the negotiation.

    Closures matter in two places, and are modelled: the handlers
    registered at mount ([handleCallEnded] on the socket, the unmount
    effect, and [initializeCall] with the recorder callback it installs)
    see the state cells of the first render, the buttons those of the
    current one. *)

Module VideoCall.
Import Js.

(** *** Data owned or exchanged by the session *)

Inductive TrackKind : Type := AudioKind | VideoKind.

Definition TrackKind_eqb (a b : TrackKind) : bool :=
  match a, b with
  | AudioKind, AudioKind | VideoKind, VideoKind => true
  | _, _ => false
  end.

(** A [MediaStreamTrack]: its [id], [kind] and [enabled] flag. *)
Record MediaStreamTrack : Type := {
  track_id : string;
  track_kind : TrackKind;
  track_enabled : bool
}.

(** A [MediaStream] is its ordered track set ([getTracks()]). *)
Definition MediaStream : Type := list MediaStreamTrack.

Record SessionDescription : Type := {
  sd_type : string;
  sd_sdp : string
}.

Record IceCandidate : Type := {
  ic_candidate : string;
  ic_sdpMid : option string;
  ic_sdpMLineIndex : option nat
}.

(** One entry of [iceServers]; a single URL given as a string in the source
    is the one-element list. *)
Record IceServer : Type := {
  urls : list string;
  username : option string;
  credential : option string;
  credentialType : option string
}.

Record RtcConfig : Type := {
  iceServers : list IceServer;
  iceTransportPolicy : option string
}.

(** What the session reads from, or changes on, its [RTCPeerConnection]:
    the configuration it was built with, the two descriptions, and the
    senders in [getSenders()] order, each with the id of its track if any
    (there is one transceiver per sender). *)
Record RTCPeerConnection : Type := {
  configuration : RtcConfig;
  remoteDescription : option SessionDescription;
  localDescription : option SessionDescription;
  senders : list (option string)
}.

Record HTMLVideoElement : Type := { srcObject : bool }.

Inductive RecordingState : Type := inactive | recording | paused.

Record MediaRecorder : Type := {
  recorder_state : RecordingState;
  recorder_mimeType : string
}.

(** A recorded chunk: its [size] and what [FileReader.readAsDataURL] yields
    for it. *)
Record Blob : Type := {
  blob_size : nat;
  blob_dataURL : string
}.

Inductive AudioContext : Type := AnAudioContext.
Inductive AnalyserNode : Type := AnAnalyserNode.

Inductive Side : Type := LocalSide | RemoteSide.

(** The props of the component. *)
Record CallData : Type := {
  callType : string;               (* [callData.type] *)
  targetUserId : JsValue;
  fromUserId : JsValue;
  from : string;
  conversationId : JsValue;
  offer : option SessionDescription
}.

Record User : Type := {
  user_id : string;                (* [user._id] *)
  user_username : string
}.

(** [import.meta.env]. *)
Record ImportMetaEnv : Type := {
  VITE_TURN_SERVER : option string;
  VITE_TURN_SECRET : option string;
  VITE_TURN_REALM : option string;
  VITE_ICE_RELAY_ONLY : option string
}.

(** A field of an object literal sent over the socket. *)
Inductive Field : Type :=
| FValue (v : JsValue)
| FDescription (d : SessionDescription)
| FCandidate (c : IceCandidate).

Definition JsObject : Type := list (string * Field).

(** *** Calls into the platform, and the trace of what the session did *)

(** The calls on external collaborators that can throw or reject. *)
Inductive Op : Type :=
| GetUserMedia
| NewAudioMonitor (side : Side)
| NewMediaRecorder (mimeType : string)
| NewRTCPeerConnection (config : RtcConfig)
| PcAddTrack (trackId : string)
| PcCreateOffer
| PcCreateAnswer
| PcSetLocalDescription (d : SessionDescription)
| PcSetRemoteDescription (d : SessionDescription)
| PcAddIceCandidate (c : IceCandidate)
| RecorderStart (timeslice : nat)
| ReadAsDataURL
| VideoDetach (side : Side)
| SenderReplaceTrack (index : nat)
| TrackStop (trackId : string)
| PcRemoveTrack (index : nat)
| TransceiverInactive (index : nat)
| TransceiverStop (index : nat)
| PcClose
| AudioContextClose (side : Side).

Inductive ConsoleLevel : Type := Warn | Error.

Inductive LogEntry : Type :=
| Called (op : Op) (ok : bool)            (* a platform call and whether it succeeded *)
| Did (what : string)                     (* a platform call that cannot fail *)
| Emitted (event : string) (payload : JsObject)   (* [socket.emit] *)
| Console (level : ConsoleLevel) (msg : string)
| Alerted (msg : string)                  (* [alert] *)
| EndCallNotified.                        (* [onEndCall()] *)

(** Where [initializeCall] stands. It is followed from one await to the
    next where the state it shares with the handlers changes in between:
    waiting for [getUserMedia], waiting for the relay configuration (with
    the local variable [stream]), and waiting for the descriptions. *)
Inductive InitStage : Type :=
| NotStarted
| AwaitingMedia
| AwaitingTurnConfig (stream : MediaStream)
| AwaitingNegotiation
| Settled.

(** The state of one call: the [useState] cells, the [useRef] cells, and two
    ghost fields: the stage of [initializeCall] and the trace of effects, in
    the order they happened. *)
Record State : Type := {
  localStream : option MediaStream;
  remoteStream : option MediaStream;
  callAccepted : bool;
  isVideoEnabled : bool;
  isAudioEnabled : bool;
  localAudioLevel : Z;
  remoteAudioLevel : Z;
  audioFormat : string;
  isRecording : bool;
  localVideoRef : option HTMLVideoElement;
  remoteVideoRef : option HTMLVideoElement;
  peerConnectionRef : option RTCPeerConnection;
  remoteMediaStreamRef : option MediaStream;
  pendingRemoteIceCandidatesRef : list IceCandidate;
  localAudioContextRef : option AudioContext;
  remoteAudioContextRef : option AudioContext;
  localAnalyserRef : option AnalyserNode;
  remoteAnalyserRef : option AnalyserNode;
  mediaRecorderRef : option MediaRecorder;
  audioChunksRef : list Blob;
  initializedRef : bool;
  hasCleanedUpRef : bool;
  initStage : InitStage;
  effects : list LogEntry
}.

(** The state at first render. *)
Definition initialState : State := {|
  localStream := None;
  remoteStream := None;
  callAccepted := false;
  isVideoEnabled := true;
  isAudioEnabled := true;
  localAudioLevel := 0;
  remoteAudioLevel := 0;
  audioFormat := "webm";
  isRecording := false;
  localVideoRef := None;
  remoteVideoRef := None;
  peerConnectionRef := None;
  remoteMediaStreamRef := None;
  pendingRemoteIceCandidatesRef := [];
  localAudioContextRef := None;
  remoteAudioContextRef := None;
  localAnalyserRef := None;
  remoteAnalyserRef := None;
  mediaRecorderRef := None;
  audioChunksRef := [];
  initializedRef := false;
  hasCleanedUpRef := false;
  initStage := NotStarted;
  effects := []
|}.

(** Field updates: the [set...] functions of the [useState] cells and
    assignments to [ref.current]. *)

Definition setLocalStream (v : option MediaStream) (s : State) : State :=
  Build_State v (remoteStream s) (callAccepted s) (isVideoEnabled s)
    (isAudioEnabled s) (localAudioLevel s) (remoteAudioLevel s)
    (audioFormat s) (isRecording s) (localVideoRef s) (remoteVideoRef s)
    (peerConnectionRef s) (remoteMediaStreamRef s)
    (pendingRemoteIceCandidatesRef s) (localAudioContextRef s)
    (remoteAudioContextRef s) (localAnalyserRef s) (remoteAnalyserRef s)
    (mediaRecorderRef s) (audioChunksRef s) (initializedRef s)
    (hasCleanedUpRef s) (initStage s) (effects s).

Definition setRemoteStream (v : option MediaStream) (s : State) : State :=
  Build_State (localStream s) v (callAccepted s) (isVideoEnabled s)
    (isAudioEnabled s) (localAudioLevel s) (remoteAudioLevel s)
    (audioFormat s) (isRecording s) (localVideoRef s) (remoteVideoRef s)
    (peerConnectionRef s) (remoteMediaStreamRef s)
    (pendingRemoteIceCandidatesRef s) (localAudioContextRef s)
    (remoteAudioContextRef s) (localAnalyserRef s) (remoteAnalyserRef s)
    (mediaRecorderRef s) (audioChunksRef s) (initializedRef s)
    (hasCleanedUpRef s) (initStage s) (effects s).

Definition setCallAccepted (v : bool) (s : State) : State :=
  Build_State (localStream s) (remoteStream s) v (isVideoEnabled s)
    (isAudioEnabled s) (localAudioLevel s) (remoteAudioLevel s)
    (audioFormat s) (isRecording s) (localVideoRef s) (remoteVideoRef s)
    (peerConnectionRef s) (remoteMediaStreamRef s)
    (pendingRemoteIceCandidatesRef s) (localAudioContextRef s)
    (remoteAudioContextRef s) (localAnalyserRef s) (remoteAnalyserRef s)
    (mediaRecorderRef s) (audioChunksRef s) (initializedRef s)
    (hasCleanedUpRef s) (initStage s) (effects s).

Definition setIsVideoEnabled (v : bool) (s : State) : State :=
  Build_State (localStream s) (remoteStream s) (callAccepted s) v
    (isAudioEnabled s) (localAudioLevel s) (remoteAudioLevel s)
    (audioFormat s) (isRecording s) (localVideoRef s) (remoteVideoRef s)
    (peerConnectionRef s) (remoteMediaStreamRef s)
    (pendingRemoteIceCandidatesRef s) (localAudioContextRef s)
    (remoteAudioContextRef s) (localAnalyserRef s) (remoteAnalyserRef s)
    (mediaRecorderRef s) (audioChunksRef s) (initializedRef s)
    (hasCleanedUpRef s) (initStage s) (effects s).

Definition setIsAudioEnabled (v : bool) (s : State) : State :=
  Build_State (localStream s) (remoteStream s) (callAccepted s)
    (isVideoEnabled s) v (localAudioLevel s) (remoteAudioLevel s)
    (audioFormat s) (isRecording s) (localVideoRef s) (remoteVideoRef s)
    (peerConnectionRef s) (remoteMediaStreamRef s)
    (pendingRemoteIceCandidatesRef s) (localAudioContextRef s)
    (remoteAudioContextRef s) (localAnalyserRef s) (remoteAnalyserRef s)
    (mediaRecorderRef s) (audioChunksRef s) (initializedRef s)
    (hasCleanedUpRef s) (initStage s) (effects s).

Definition setLocalAudioLevel (v : Z) (s : State) : State :=
  Build_State (localStream s) (remoteStream s) (callAccepted s)
    (isVideoEnabled s) (isAudioEnabled s) v (remoteAudioLevel s)
    (audioFormat s) (isRecording s) (localVideoRef s) (remoteVideoRef s)
    (peerConnectionRef s) (remoteMediaStreamRef s)
    (pendingRemoteIceCandidatesRef s) (localAudioContextRef s)
    (remoteAudioContextRef s) (localAnalyserRef s) (remoteAnalyserRef s)
    (mediaRecorderRef s) (audioChunksRef s) (initializedRef s)
    (hasCleanedUpRef s) (initStage s) (effects s).

Definition setRemoteAudioLevel (v : Z) (s : State) : State :=
  Build_State (localStream s) (remoteStream s) (callAccepted s)
    (isVideoEnabled s) (isAudioEnabled s) (localAudioLevel s) v
    (audioFormat s) (isRecording s) (localVideoRef s) (remoteVideoRef s)
    (peerConnectionRef s) (remoteMediaStreamRef s)
    (pendingRemoteIceCandidatesRef s) (localAudioContextRef s)
    (remoteAudioContextRef s) (localAnalyserRef s) (remoteAnalyserRef s)
    (mediaRecorderRef s) (audioChunksRef s) (initializedRef s)
    (hasCleanedUpRef s) (initStage s) (effects s).

Definition setAudioFormat (v : string) (s : State) : State :=
  Build_State (localStream s) (remoteStream s) (callAccepted s)
    (isVideoEnabled s) (isAudioEnabled s) (localAudioLevel s)
    (remoteAudioLevel s) v (isRecording s) (localVideoRef s)
    (remoteVideoRef s) (peerConnectionRef s) (remoteMediaStreamRef s)
    (pendingRemoteIceCandidatesRef s) (localAudioContextRef s)
    (remoteAudioContextRef s) (localAnalyserRef s) (remoteAnalyserRef s)
    (mediaRecorderRef s) (audioChunksRef s) (initializedRef s)
    (hasCleanedUpRef s) (initStage s) (effects s).

Definition setIsRecording (v : bool) (s : State) : State :=
  Build_State (localStream s) (remoteStream s) (callAccepted s)
    (isVideoEnabled s) (isAudioEnabled s) (localAudioLevel s)
    (remoteAudioLevel s) (audioFormat s) v (localVideoRef s)
    (remoteVideoRef s) (peerConnectionRef s) (remoteMediaStreamRef s)
    (pendingRemoteIceCandidatesRef s) (localAudioContextRef s)
    (remoteAudioContextRef s) (localAnalyserRef s) (remoteAnalyserRef s)
    (mediaRecorderRef s) (audioChunksRef s) (initializedRef s)
    (hasCleanedUpRef s) (initStage s) (effects s).

Definition put_localVideoRef (v : option HTMLVideoElement) (s : State) : State :=
  Build_State (localStream s) (remoteStream s) (callAccepted s)
    (isVideoEnabled s) (isAudioEnabled s) (localAudioLevel s)
    (remoteAudioLevel s) (audioFormat s) (isRecording s) v (remoteVideoRef s)
    (peerConnectionRef s) (remoteMediaStreamRef s)
    (pendingRemoteIceCandidatesRef s) (localAudioContextRef s)
    (remoteAudioContextRef s) (localAnalyserRef s) (remoteAnalyserRef s)
    (mediaRecorderRef s) (audioChunksRef s) (initializedRef s)
    (hasCleanedUpRef s) (initStage s) (effects s).

Definition put_remoteVideoRef (v : option HTMLVideoElement) (s : State) : State :=
  Build_State (localStream s) (remoteStream s) (callAccepted s)
    (isVideoEnabled s) (isAudioEnabled s) (localAudioLevel s)
    (remoteAudioLevel s) (audioFormat s) (isRecording s) (localVideoRef s) v
    (peerConnectionRef s) (remoteMediaStreamRef s)
    (pendingRemoteIceCandidatesRef s) (localAudioContextRef s)
    (remoteAudioContextRef s) (localAnalyserRef s) (remoteAnalyserRef s)
    (mediaRecorderRef s) (audioChunksRef s) (initializedRef s)
    (hasCleanedUpRef s) (initStage s) (effects s).

Definition put_peerConnectionRef (v : option RTCPeerConnection) (s : State) : State :=
  Build_State (localStream s) (remoteStream s) (callAccepted s)
    (isVideoEnabled s) (isAudioEnabled s) (localAudioLevel s)
    (remoteAudioLevel s) (audioFormat s) (isRecording s) (localVideoRef s)
    (remoteVideoRef s) v (remoteMediaStreamRef s)
    (pendingRemoteIceCandidatesRef s) (localAudioContextRef s)
    (remoteAudioContextRef s) (localAnalyserRef s) (remoteAnalyserRef s)
    (mediaRecorderRef s) (audioChunksRef s) (initializedRef s)
    (hasCleanedUpRef s) (initStage s) (effects s).

Definition put_remoteMediaStreamRef (v : option MediaStream) (s : State) : State :=
  Build_State (localStream s) (remoteStream s) (callAccepted s)
    (isVideoEnabled s) (isAudioEnabled s) (localAudioLevel s)
    (remoteAudioLevel s) (audioFormat s) (isRecording s) (localVideoRef s)
    (remoteVideoRef s) (peerConnectionRef s) v
    (pendingRemoteIceCandidatesRef s) (localAudioContextRef s)
    (remoteAudioContextRef s) (localAnalyserRef s) (remoteAnalyserRef s)
    (mediaRecorderRef s) (audioChunksRef s) (initializedRef s)
    (hasCleanedUpRef s) (initStage s) (effects s).

Definition put_pendingRemoteIceCandidatesRef (v : list IceCandidate) (s : State) : State :=
  Build_State (localStream s) (remoteStream s) (callAccepted s)
    (isVideoEnabled s) (isAudioEnabled s) (localAudioLevel s)
    (remoteAudioLevel s) (audioFormat s) (isRecording s) (localVideoRef s)
    (remoteVideoRef s) (peerConnectionRef s) (remoteMediaStreamRef s) v
    (localAudioContextRef s) (remoteAudioContextRef s) (localAnalyserRef s)
    (remoteAnalyserRef s) (mediaRecorderRef s) (audioChunksRef s)
    (initializedRef s) (hasCleanedUpRef s) (initStage s) (effects s).

Definition put_localAudioContextRef (v : option AudioContext) (s : State) : State :=
  Build_State (localStream s) (remoteStream s) (callAccepted s)
    (isVideoEnabled s) (isAudioEnabled s) (localAudioLevel s)
    (remoteAudioLevel s) (audioFormat s) (isRecording s) (localVideoRef s)
    (remoteVideoRef s) (peerConnectionRef s) (remoteMediaStreamRef s)
    (pendingRemoteIceCandidatesRef s) v (remoteAudioContextRef s)
    (localAnalyserRef s) (remoteAnalyserRef s) (mediaRecorderRef s)
    (audioChunksRef s) (initializedRef s) (hasCleanedUpRef s) (initStage s)
    (effects s).

Definition put_remoteAudioContextRef (v : option AudioContext) (s : State) : State :=
  Build_State (localStream s) (remoteStream s) (callAccepted s)
    (isVideoEnabled s) (isAudioEnabled s) (localAudioLevel s)
    (remoteAudioLevel s) (audioFormat s) (isRecording s) (localVideoRef s)
    (remoteVideoRef s) (peerConnectionRef s) (remoteMediaStreamRef s)
    (pendingRemoteIceCandidatesRef s) (localAudioContextRef s) v
    (localAnalyserRef s) (remoteAnalyserRef s) (mediaRecorderRef s)
    (audioChunksRef s) (initializedRef s) (hasCleanedUpRef s) (initStage s)
    (effects s).

Definition put_localAnalyserRef (v : option AnalyserNode) (s : State) : State :=
  Build_State (localStream s) (remoteStream s) (callAccepted s)
    (isVideoEnabled s) (isAudioEnabled s) (localAudioLevel s)
    (remoteAudioLevel s) (audioFormat s) (isRecording s) (localVideoRef s)
    (remoteVideoRef s) (peerConnectionRef s) (remoteMediaStreamRef s)
    (pendingRemoteIceCandidatesRef s) (localAudioContextRef s)
    (remoteAudioContextRef s) v (remoteAnalyserRef s) (mediaRecorderRef s)
    (audioChunksRef s) (initializedRef s) (hasCleanedUpRef s) (initStage s)
    (effects s).

Definition put_remoteAnalyserRef (v : option AnalyserNode) (s : State) : State :=
  Build_State (localStream s) (remoteStream s) (callAccepted s)
    (isVideoEnabled s) (isAudioEnabled s) (localAudioLevel s)
    (remoteAudioLevel s) (audioFormat s) (isRecording s) (localVideoRef s)
    (remoteVideoRef s) (peerConnectionRef s) (remoteMediaStreamRef s)
    (pendingRemoteIceCandidatesRef s) (localAudioContextRef s)
    (remoteAudioContextRef s) (localAnalyserRef s) v (mediaRecorderRef s)
    (audioChunksRef s) (initializedRef s) (hasCleanedUpRef s) (initStage s)
    (effects s).

Definition put_mediaRecorderRef (v : option MediaRecorder) (s : State) : State :=
  Build_State (localStream s) (remoteStream s) (callAccepted s)
    (isVideoEnabled s) (isAudioEnabled s) (localAudioLevel s)
    (remoteAudioLevel s) (audioFormat s) (isRecording s) (localVideoRef s)
    (remoteVideoRef s) (peerConnectionRef s) (remoteMediaStreamRef s)
    (pendingRemoteIceCandidatesRef s) (localAudioContextRef s)
    (remoteAudioContextRef s) (localAnalyserRef s) (remoteAnalyserRef s) v
    (audioChunksRef s) (initializedRef s) (hasCleanedUpRef s) (initStage s)
    (effects s).

Definition put_audioChunksRef (v : list Blob) (s : State) : State :=
  Build_State (localStream s) (remoteStream s) (callAccepted s)
    (isVideoEnabled s) (isAudioEnabled s) (localAudioLevel s)
    (remoteAudioLevel s) (audioFormat s) (isRecording s) (localVideoRef s)
    (remoteVideoRef s) (peerConnectionRef s) (remoteMediaStreamRef s)
    (pendingRemoteIceCandidatesRef s) (localAudioContextRef s)
    (remoteAudioContextRef s) (localAnalyserRef s) (remoteAnalyserRef s)
    (mediaRecorderRef s) v (initializedRef s) (hasCleanedUpRef s)
    (initStage s) (effects s).

Definition put_initializedRef (v : bool) (s : State) : State :=
  Build_State (localStream s) (remoteStream s) (callAccepted s)
    (isVideoEnabled s) (isAudioEnabled s) (localAudioLevel s)
    (remoteAudioLevel s) (audioFormat s) (isRecording s) (localVideoRef s)
    (remoteVideoRef s) (peerConnectionRef s) (remoteMediaStreamRef s)
    (pendingRemoteIceCandidatesRef s) (localAudioContextRef s)
    (remoteAudioContextRef s) (localAnalyserRef s) (remoteAnalyserRef s)
    (mediaRecorderRef s) (audioChunksRef s) v (hasCleanedUpRef s)
    (initStage s) (effects s).

Definition put_hasCleanedUpRef (v : bool) (s : State) : State :=
  Build_State (localStream s) (remoteStream s) (callAccepted s)
    (isVideoEnabled s) (isAudioEnabled s) (localAudioLevel s)
    (remoteAudioLevel s) (audioFormat s) (isRecording s) (localVideoRef s)
    (remoteVideoRef s) (peerConnectionRef s) (remoteMediaStreamRef s)
    (pendingRemoteIceCandidatesRef s) (localAudioContextRef s)
    (remoteAudioContextRef s) (localAnalyserRef s) (remoteAnalyserRef s)
    (mediaRecorderRef s) (audioChunksRef s) (initializedRef s) v (initStage s)
    (effects s).

Definition put_initStage (v : InitStage) (s : State) : State :=
  Build_State (localStream s) (remoteStream s) (callAccepted s)
    (isVideoEnabled s) (isAudioEnabled s) (localAudioLevel s)
    (remoteAudioLevel s) (audioFormat s) (isRecording s) (localVideoRef s)
    (remoteVideoRef s) (peerConnectionRef s) (remoteMediaStreamRef s)
    (pendingRemoteIceCandidatesRef s) (localAudioContextRef s)
    (remoteAudioContextRef s) (localAnalyserRef s) (remoteAnalyserRef s)
    (mediaRecorderRef s) (audioChunksRef s) (initializedRef s)
    (hasCleanedUpRef s) v (effects s).

Definition put_effects (v : list LogEntry) (s : State) : State :=
  Build_State (localStream s) (remoteStream s) (callAccepted s)
    (isVideoEnabled s) (isAudioEnabled s) (localAudioLevel s)
    (remoteAudioLevel s) (audioFormat s) (isRecording s) (localVideoRef s)
    (remoteVideoRef s) (peerConnectionRef s) (remoteMediaStreamRef s)
    (pendingRemoteIceCandidatesRef s) (localAudioContextRef s)
    (remoteAudioContextRef s) (localAnalyserRef s) (remoteAnalyserRef s)
    (mediaRecorderRef s) (audioChunksRef s) (initializedRef s)
    (hasCleanedUpRef s) (initStage s) v.

(** *** Computations: state, exceptions, trace *)

(** A JavaScript completion: normal, or abrupt with the error's message. *)
Inductive Completion (A : Type) : Type :=
| Normal (a : A)
| Thrown (message : string).
Arguments Normal {A} a.
Arguments Thrown {A} message.

(** A computation changes the state and completes; what it did to the state
    before throwing stays done. *)
Definition JS (A : Type) : Type := State -> Completion A * State.

Definition ret {A : Type} (a : A) : JS A := fun s => (Normal a, s).

Definition bind {A B : Type} (m : JS A) (k : A -> JS B) : JS B :=
  fun s =>
    match m s with
    | (Normal a, s') => k a s'
    | (Thrown e, s') => (Thrown e, s')
    end.

Definition throw {A : Type} (message : string) : JS A :=
  fun s => (Thrown message, s).

(** [try { m } catch (e) { h e }]. *)
Definition tryCatch {A : Type} (m : JS A) (h : string -> JS A) : JS A :=
  fun s =>
    match m s with
    | (Normal a, s') => (Normal a, s')
    | (Thrown e, s') => h e s'
    end.

Definition get : JS State := fun s => (Normal s, s).

Definition modify (f : State -> State) : JS unit := fun s => (Normal tt, f s).

(** Add an entry at the end of the trace. *)
Definition appendLog (e : LogEntry) (s : State) : State :=
  put_effects (effects s ++ [e]) s.

Definition record (e : LogEntry) : JS unit := modify (appendLog e).

Declare Scope js_scope.
Delimit Scope js_scope with js.
Notation "x <- m ;; k" := (bind m (fun x => k))
  (at level 61, m at next level, right associativity) : js_scope.
Notation "m ;; k" := (bind m (fun _ => k))
  (at level 61, right associativity) : js_scope.
Open Scope js_scope.

(** [try { m } catch (_) {}]. *)
Definition tryIgnore (m : JS unit) : JS unit := tryCatch m (fun _ => ret tt).

(** [l.forEach(body)] and [for (const x of l) body]. *)
Fixpoint forEach {A : Type} (l : list A) (body : A -> JS unit) : JS unit :=
  match l with
  | [] => ret tt
  | x :: l' => body x ;; forEach l' body
  end.

(** [forEach] with the index, as [l.forEach((x, i) => ...)]. *)
Fixpoint forEachFrom {A : Type} (i : nat) (l : list A) (body : nat -> A -> JS unit)
  : JS unit :=
  match l with
  | [] => ret tt
  | x :: l' => body i x ;; forEachFrom (S i) l' body
  end.

Definition when (b : bool) (m : JS unit) : JS unit := if b then m else ret tt.

Definition exec {A : Type} (m : JS A) (s : State) : State := snd (m s).
Definition completion {A : Type} (m : JS A) (s : State) : Completion A := fst (m s).

Definition isSome {A : Type} (o : option A) : bool :=
  match o with Some _ => true | None => false end.

Definition console (level : ConsoleLevel) (msg : string) : JS unit :=
  record (Console level msg).

Definition emit (event : string) (payload : JsObject) : JS unit :=
  record (Emitted event payload).

(** *** The platform and the props *)

(** The reply to the [get-turn-config] request, as far as the session looks
    at it: whether it has [iceServers], and the policy it carries. *)
Record TurnConfig : Type := {
  turn_iceServers : option (list IceServer);
  turn_iceTransportPolicy : option string
}.

(** When the acknowledgement of [get-turn-config] arrives, in milliseconds
    after the request, and with what; [NoAck] when it never does. *)
Inductive TurnAck : Type :=
| NoAck
| AckAfter (ms : nat) (config : option TurnConfig).

(** [s.split(sep)]. *)
Fixpoint splitOn (sep : ascii) (s : string) : list string :=
  match s with
  | EmptyString => [EmptyString]
  | String c s' =>
      if Ascii.eqb c sep then EmptyString :: splitOn sep s'
      else match splitOn sep s' with
           | piece :: pieces => String c piece :: pieces
           | [] => [String c EmptyString]
           end
  end.

Definition decimal (n : N) : string :=
  DecimalString.NilZero.string_of_uint (N.to_uint n).

Definition setRecorderState (st : RecordingState) (r : MediaRecorder) : MediaRecorder :=
  {| recorder_state := st; recorder_mimeType := recorder_mimeType r |}.

Definition withRemoteDescription (d : SessionDescription) (pc : RTCPeerConnection)
  : RTCPeerConnection :=
  {| configuration := configuration pc;
     remoteDescription := Some d;
     localDescription := localDescription pc;
     senders := senders pc |}.

Definition withLocalDescription (d : SessionDescription) (pc : RTCPeerConnection)
  : RTCPeerConnection :=
  {| configuration := configuration pc;
     remoteDescription := remoteDescription pc;
     localDescription := Some d;
     senders := senders pc |}.

(** *** Events *)

(** What can happen to the component: its mount and unmount, the
    resumptions of [initializeCall] (when [getUserMedia] settles, when the
    request for the relay configuration settles, when the descriptions are
    there), the socket messages, the callbacks of the connection and of the
    recorder, the buttons, and animation frames. *)
Inductive Event : Type :=
| Mounted (mediaDevices : bool)
| MediaSettled (stream : MediaStream)
| TurnConfigSettled (ack : TurnAck)
| NegotiationResumed (created : SessionDescription)
| CallAnswerReceived (data_answer : option SessionDescription)
| IceCandidateReceived (data_candidate : option IceCandidate)
| CallEndedReceived
| EndCallClicked
| Unmounted
| TrackArrived (track : MediaStreamTrack)
| LocalCandidateFound (event_candidate : option IceCandidate)
| ToggleVideoClicked
| ToggleAudioClicked
| RecordClicked
| FormatSelected (format : string)
| DataAvailable (data : Blob) (now : N)
| AnimationFrame (side : Side) (level : Z).

(** What ends a call: the user hangs up, the peer hangs up, or the
    component is unmounted. Each of them calls [cleanup()]. *)
Inductive Trigger : Type := LocalHangup | RemoteHangup | ComponentUnmount.

Definition triggerEvent (t : Trigger) : Event :=
  match t with
  | LocalHangup => EndCallClicked
  | RemoteHangup => CallEndedReceived
  | ComponentUnmount => Unmounted
  end.

(** *** Reading the trace *)

(** The platform calls of a trace, in order, whatever their outcome. *)
Fixpoint engineCalls (log : list LogEntry) : list Op :=
  match log with
  | [] => []
  | Called op _ :: log' => op :: engineCalls log'
  | _ :: log' => engineCalls log'
  end.

(** The objects sent as [event], in order. *)
Fixpoint emitted (event : string) (log : list LogEntry) : list JsObject :=
  match log with
  | [] => []
  | Emitted e payload :: log' =>
      if String.eqb e event then payload :: emitted event log' else emitted event log'
  | _ :: log' => emitted event log'
  end.

(** Whether some [setRemoteDescription] has succeeded. *)
Fixpoint remoteDescriptionAccepted (log : list LogEntry) : bool :=
  match log with
  | [] => false
  | Called (PcSetRemoteDescription _) true :: _ => true
  | _ :: log' => remoteDescriptionAccepted log'
  end.


(** *** The offer/answer exchange *)










(** Whether the recorder has been started: from then on it delivers its
    chunks, the last one after it has been stopped. *)
Definition recorderStarted (log : list LogEntry) : bool :=
  existsb
    (fun e => match e with Called (RecorderStart _) true => true | _ => false end)
    log.


(** The names of the fields of an object literal, in order. *)
Definition fieldNames (o : JsObject) : list string := map fst o.

Definition audioChunkFields : list string :=
  ["conversationId"; "audioData"; "userId"; "format"].

(** An object has a field beyond the four of [audioChunkFields]: a place
    where a sequence index could be. *)
Definition hasFurtherField (o : JsObject) : Prop :=
  exists name, In name (fieldNames o) /\ ~ In name audioChunkFields.

(** The first track of a kind, as [getVideoTracks()[0]]. *)
Definition firstOfKind (kind : TrackKind) (stream : MediaStream) : option MediaStreamTrack :=
  find (fun t => TrackKind_eqb (track_kind t) kind) stream.

(** The aggregated remote stream holds no track id twice. *)
Definition remoteTracksDistinct (s : State) : Prop :=
  match remoteMediaStreamRef s with
  | Some stream => NoDup (map track_id stream)
  | None => True
  end.

(** *** Properties of computations *)

(** A computation that never completes abruptly. *)
Definition safe {A : Type} (m : JS A) : Prop :=
  forall s, exists a, completion m s = Normal a.

(** A computation that keeps a property of the state, however it completes. *)
Definition preserves {A : Type} (P : State -> Prop) (m : JS A) : Prop :=
  forall s, P s -> P (exec m s).

(** *** A concrete call, for examples *)

(** A platform on which no call fails; in particular it accepts every
    description it is handed. *)
Definition neverFails : list LogEntry -> Op -> option string := fun _ _ => None.

Definition localOfferSet (log : list LogEntry) : bool :=
  existsb
    (fun e =>
       match e with
       | Called (PcSetLocalDescription d) true => String.eqb (sd_type d) "offer"
       | _ => false
       end)
    log.

(** A platform that follows the offer/answer state machine of the
    connection: it refuses a remote answer unless a local offer has been
    set and no remote description has been accepted yet. *)
Definition strictEngine : list LogEntry -> Op -> option string :=
  fun log op =>
    match op with
    | PcSetRemoteDescription d =>
        if String.eqb (sd_type d) "answer"
           && negb (localOfferSet log && negb (remoteDescriptionAccepted log))
        then Some "InvalidStateError"
        else None
    | _ => None
    end.


Definition demoOffer : SessionDescription := {| sd_type := "offer"; sd_sdp := "v=0 offer" |}.
Definition demoAnswer : SessionDescription := {| sd_type := "answer"; sd_sdp := "v=0 answer" |}.
Definition laterAnswer : SessionDescription := {| sd_type := "answer"; sd_sdp := "v=0 again" |}.

Definition demoUser : User := {| user_id := "u1"; user_username := "alice" |}.

Definition demoOutgoing : CallData :=
  {| callType := "outgoing"; targetUserId := JString "u2"; fromUserId := JUndefined;
     from := ""; conversationId := JString "c42"; offer := None |}.

Definition demoIncoming : CallData :=
  {| callType := "incoming"; targetUserId := JUndefined; fromUserId := JString "u2";
     from := "bob"; conversationId := JString "c42"; offer := Some demoOffer |}.

(** An incoming call whose [callData] came without the offer, and a call
    without a conversation id. *)
Definition demoIncomingNoOffer : CallData :=
  {| callType := "incoming"; targetUserId := JUndefined; fromUserId := JString "u2";
     from := "bob"; conversationId := JString "c42"; offer := None |}.

Definition demoAnonymous : CallData :=
  {| callType := "outgoing"; targetUserId := JString "u2"; fromUserId := JUndefined;
     from := ""; conversationId := JUndefined; offer := None |}.

Definition demoEnv : ImportMetaEnv :=
  {| VITE_TURN_SERVER := None; VITE_TURN_SECRET := None; VITE_TURN_REALM := None;
     VITE_ICE_RELAY_ONLY := None |}.

Definition demoTurnEnv : ImportMetaEnv :=
  {| VITE_TURN_SERVER := Some "turn.example.org:3478"; VITE_TURN_SECRET := Some "s3cret";
     VITE_TURN_REALM := None; VITE_ICE_RELAY_ONLY := None |}.

(** A reply to [get-turn-config] that lists one relay. *)
Definition demoTurnReply : TurnConfig :=
  {| turn_iceServers :=
       Some [ {| urls := ["turn:relay.example.net:3478"]; username := Some "call";
                 credential := Some "k3y"; credentialType := None |} ];
     turn_iceTransportPolicy := None |}.

Definition demoSupported : string -> bool := fun _ => true.

Definition micTrack : MediaStreamTrack :=
  {| track_id := "mic"; track_kind := AudioKind; track_enabled := true |}.

Definition camTrack : MediaStreamTrack :=
  {| track_id := "cam"; track_kind := VideoKind; track_enabled := true |}.

Definition demoStream : MediaStream := [micTrack; camTrack].

Definition remoteVideoTrack : MediaStreamTrack :=
  {| track_id := "remote-video"; track_kind := VideoKind; track_enabled := true |}.

Definition candidate1 : IceCandidate :=
  {| ic_candidate := "candidate:1"; ic_sdpMid := Some "0"; ic_sdpMLineIndex := Some 0%nat |}.

Definition demoBlob : Blob :=
  {| blob_size := 4; blob_dataURL := "data:audio/webm;base64,AAAA" |}.

Definition emptyBlob : Blob := {| blob_size := 0; blob_dataURL := "data:" |}.

(** The start of a call: mount, media granted, the relay configuration
    answered in 20 ms without servers. *)
Definition demoConnect : list Event :=
  [ Mounted true; MediaSettled demoStream; TurnConfigSettled (AckAfter 20 None) ].

(** The start of an outgoing call, up to the offer. *)
Definition demoSetup : list Event := (demoConnect ++ [NegotiationResumed demoOffer])%list.

Section Session.

(** The props [callData] and [user], the build-time environment, what the
    platform's [MediaRecorder] supports, and how the platform answers: given
    what has happened so far, [fails] tells whether a call throws (or its
    promise rejects), and with which message. Every proof below holds for
    every such platform. *)
Variable callData : CallData.
Variable user : User.
Variable env : ImportMetaEnv.
Variable isTypeSupported : string -> bool.
Variable fails : list LogEntry -> Op -> option string.

(** A platform call that throws when it fails. *)
Definition call (op : Op) : JS unit :=
  fun s =>
    match fails (effects s) op with
    | None => (Normal tt, appendLog (Called op true) s)
    | Some message => (Thrown message, appendLog (Called op false) s)
    end.

(** A platform operation whose failure only means that its success callback
    never runs. *)
Definition attempt (op : Op) : JS bool :=
  fun s =>
    match fails (effects s) op with
    | None => (Normal true, appendLog (Called op true) s)
    | Some _ => (Normal false, appendLog (Called op false) s)
    end.

Definition updatePc (f : RTCPeerConnection -> RTCPeerConnection) : JS unit :=
  modify (fun s => put_peerConnectionRef (option_map f (peerConnectionRef s)) s).

(** [await pc.setRemoteDescription(new RTCSessionDescription(d))]: once it
    resolves, [pc.remoteDescription] is [d]. *)
Definition pc_setRemoteDescription (d : SessionDescription) : JS unit :=
  call (PcSetRemoteDescription d) ;;
  updatePc (withRemoteDescription d).

Definition pc_setLocalDescription (d : SessionDescription) : JS unit :=
  call (PcSetLocalDescription d) ;;
  updatePc (withLocalDescription d).

(** [await pc.addIceCandidate(new RTCIceCandidate(candidate))]. *)
Definition pc_addIceCandidate (candidate : IceCandidate) : JS unit :=
  call (PcAddIceCandidate candidate).

(** [callData.type === 'outgoing' ? callData.targetUserId : callData.fromUserId]. *)
Definition peerId : JsValue :=
  if String.eqb (callType callData) "outgoing"
  then targetUserId callData else fromUserId callData.

(** *** Audio level monitoring and chunked capture *)

(** [setupAudioLevelMonitoring(stream, type)], up to the first sample. *)
Definition setupAudioLevelMonitoring (side : Side) : JS unit :=
  tryCatch
    (call (NewAudioMonitor side) ;;
     match side with
     | LocalSide =>
         modify (put_localAudioContextRef (Some AnAudioContext)) ;;
         modify (put_localAnalyserRef (Some AnAnalyserNode))
     | RemoteSide =>
         modify (put_remoteAudioContextRef (Some AnAudioContext)) ;;
         modify (put_remoteAnalyserRef (Some AnAnalyserNode))
     end)
    (fun _ => console Error "Error setting up audio monitoring").

(** One run of [updateAudioLevel]; [level] is [Math.round(percentage)] of the
    sampled bins. *)
Definition updateAudioLevel (side : Side) (level : Z) : JS unit :=
  s <- get ;;
  match side with
  | LocalSide => when (isSome (localAnalyserRef s)) (modify (setLocalAudioLevel level))
  | RemoteSide => when (isSome (remoteAnalyserRef s)) (modify (setRemoteAudioLevel level))
  end.

(** [setupAudioRecording(stream)]; [closure_audioFormat] is the [audioFormat]
    of the render whose closure runs. *)
Definition setupAudioRecording (closure_audioFormat : string) : JS unit :=
  tryCatch
    (let mimeType := "audio/" ++ closure_audioFormat in
     when (negb (isTypeSupported mimeType))
       (console Warn (mimeType ++ " not supported, falling back to webm") ;;
        modify (setAudioFormat "webm")) ;;
     let chosen := if isTypeSupported mimeType then mimeType else "audio/webm" in
     call (NewMediaRecorder chosen) ;;
     modify (put_mediaRecorderRef
               (Some {| recorder_state := inactive; recorder_mimeType := chosen |})) ;;
     modify (put_audioChunksRef []))
    (fun _ => console Error "Error setting up audio recording").

(** The object sent as [audio-chunk]. *)
Definition audioChunkPayload (closure_audioFormat : string) (dataURL : string) (now : N)
  : JsObject :=
  [ ("conversationId",
      FValue (if truthy (conversationId callData) then conversationId callData
              else JString ("call_" ++ user_id user ++ "_" ++ decimal now)));
    ("audioData",
      FValue (match nth_error (splitOn "," dataURL) 1 with
              | Some base64Data => JString base64Data
              | None => JUndefined
              end));
    ("userId", FValue (JString (user_id user)));
    ("format", FValue (JString closure_audioFormat)) ].

(** [mediaRecorder.ondataavailable], with the [reader.onload] it sets up;
    [now] is [Date.now()] when the chunk is read. *)
Definition ondataavailable (closure_audioFormat : string) (data : Blob) (now : N)
  : JS unit :=
  when (0 <? blob_size data)%nat
    (modify (fun s => put_audioChunksRef (audioChunksRef s ++ [data]) s) ;;
     loaded <- attempt ReadAsDataURL ;;
     when loaded
       (emit "audio-chunk" (audioChunkPayload closure_audioFormat (blob_dataURL data) now))).

Definition startAudioRecording : JS unit :=
  s <- get ;;
  match mediaRecorderRef s with
  | Some r =>
      match recorder_state r with
      | inactive =>
          call (RecorderStart 2000) ;;
          modify (put_mediaRecorderRef (Some (setRecorderState recording r))) ;;
          modify (setIsRecording true)
      | _ => ret tt
      end
  | None => ret tt
  end.

(** [stop()] on a recorder that is recording does not throw. *)
Definition stopAudioRecording : JS unit :=
  s <- get ;;
  match mediaRecorderRef s with
  | Some r =>
      match recorder_state r with
      | recording =>
          record (Did "mediaRecorder.stop") ;;
          modify (put_mediaRecorderRef (Some (setRecorderState inactive r))) ;;
          modify (setIsRecording false)
      | _ => ret tt
      end
  | None => ret tt
  end.

(** *** Signaling handlers *)

(** The loop that applies the buffered candidates and empties the buffer
    (the same code follows both [setRemoteDescription] calls); [msg] is the
    text logged when a candidate is refused. *)
Definition flushPending (msg : string) : JS unit :=
  s <- get ;;
  when (0 <? length (pendingRemoteIceCandidatesRef s))%nat
    (forEach (pendingRemoteIceCandidatesRef s)
       (fun candidate =>
          tryCatch (pc_addIceCandidate candidate) (fun _ => console Error msg)) ;;
     modify (put_pendingRemoteIceCandidatesRef [])).

(** [handleCallAnswer(data)]; the argument is [data.answer] when truthy. *)
Definition handleCallAnswer (data_answer : option SessionDescription) : JS unit :=
  s <- get ;;
  match peerConnectionRef s, data_answer with
  | Some _, Some answer =>
      tryCatch
        (pc_setRemoteDescription answer ;;
         flushPending "Error applying buffered ICE candidate after answer")
        (fun _ => console Error "Error setting remote description")
  | _, _ => console Warn "No peer connection or answer data"
  end.

(** [handleIceCandidate(data)]; the argument is [data.candidate] when truthy. *)
Definition handleIceCandidate (data_candidate : option IceCandidate) : JS unit :=
  s <- get ;;
  match peerConnectionRef s, data_candidate with
  | Some pc, Some candidate =>
      tryCatch
        (match remoteDescription pc with
         | Some _ => pc_addIceCandidate candidate
         | None =>
             modify (fun s => put_pendingRemoteIceCandidatesRef
                                (pendingRemoteIceCandidatesRef s ++ [candidate]) s)
         end)
        (fun _ => console Error "Error adding ICE candidate")
  | _, _ => console Warn "No peer connection or candidate data"
  end.

(** [pc.onicecandidate]. *)
Definition onicecandidate (event_candidate : option IceCandidate) : JS unit :=
  match event_candidate with
  | Some candidate =>
      emit "ice-candidate" [("to", FValue peerId); ("candidate", FCandidate candidate)]
  | None => ret tt
  end.

(** [pc.ontrack]. *)
Definition ontrack (track : MediaStreamTrack) : JS unit :=
  s <- get ;;
  when (negb (isSome (remoteMediaStreamRef s)))
    (modify (put_remoteMediaStreamRef (Some []))) ;;
  s <- get ;;
  let inboundStream :=
    match remoteMediaStreamRef s with Some stream => stream | None => [] end in
  let exists_ :=
    existsb (fun t => String.eqb (track_id t) (track_id track)) inboundStream in
  let inboundStream := if exists_ then inboundStream else (inboundStream ++ [track])%list in
  modify (put_remoteMediaStreamRef (Some inboundStream)) ;;
  modify (setRemoteStream (Some inboundStream)) ;;
  setupAudioLevelMonitoring RemoteSide ;;
  modify (setCallAccepted true).

(** *** Mode toggles *)

(** [track.enabled = !track.enabled]. *)
Definition flipped (t : MediaStreamTrack) : MediaStreamTrack :=
  {| track_id := track_id t; track_kind := track_kind t;
     track_enabled := negb (track_enabled t) |}.

(** Flip [enabled] on the first track of [kind]; the new flag, if there is
    such a track. *)
Fixpoint flipFirst (kind : TrackKind) (stream : MediaStream)
  : MediaStream * option bool :=
  match stream with
  | [] => ([], None)
  | t :: rest =>
      if TrackKind_eqb (track_kind t) kind then
        (flipped t :: rest, Some (track_enabled (flipped t)))
      else
        let (rest', flag) := flipFirst kind rest in (t :: rest', flag)
  end.

(** [toggleVideo]; it is bound at every render, so its [localStream] is the
    current one. *)
Definition toggleVideo : JS unit :=
  s <- get ;;
  match localStream s with
  | Some stream =>
      match flipFirst VideoKind stream with
      | (stream', Some flag) =>
          modify (setLocalStream (Some stream')) ;;
          modify (setIsVideoEnabled flag)
      | (_, None) => ret tt
      end
  | None => ret tt
  end.

Definition toggleAudio : JS unit :=
  s <- get ;;
  match localStream s with
  | Some stream =>
      match flipFirst AudioKind stream with
      | (stream', Some flag) =>
          modify (setLocalStream (Some stream')) ;;
          modify (setIsAudioEnabled flag)
      | (_, None) => ret tt
      end
  | None => ret tt
  end.

(** *** Teardown *)

(** The first part of [cleanup()], after its guard: everything it releases.
    [closure_localStream] is the [localStream] of the render whose closure
    runs: [null] for the closures registered at mount (the socket listener
    and the unmount effect), the current stream for the buttons. *)
Definition releaseResources (closure_localStream : option MediaStream) : JS unit :=
  (* Immediately detach media from elements *)
  s <- get ;;
  when (isSome (remoteVideoRef s))
    (tryIgnore (call (VideoDetach RemoteSide) ;;
                modify (put_remoteVideoRef (Some {| srcObject := false |})))) ;;
  s <- get ;;
  when (isSome (localVideoRef s))
    (tryIgnore (call (VideoDetach LocalSide) ;;
                modify (put_localVideoRef (Some {| srcObject := false |})))) ;;
  (* Stop audio recording *)
  stopAudioRecording ;;
  (* Proactively stop and remove senders/transceivers *)
  s <- get ;;
  match peerConnectionRef s with
  | Some pc =>
      tryIgnore
        (forEachFrom 0 (senders pc)
           (fun i sender =>
              tryIgnore (call (SenderReplaceTrack i)) ;;
              match sender with
              | Some trackId => tryIgnore (call (TrackStop trackId))
              | None => ret tt
              end ;;
              tryIgnore (call (PcRemoveTrack i))) ;;
         forEachFrom 0 (senders pc)
           (fun i _ =>
              tryIgnore (call (TransceiverInactive i)) ;;
              tryIgnore (call (TransceiverStop i))))
  | None => ret tt
  end ;;
  (* Stop local media tracks *)
  tryIgnore
    match closure_localStream with
    | Some stream =>
        forEach stream (fun track => tryIgnore (call (TrackStop (track_id track))))
    | None => ret tt
    end ;;
  (* Close peer connection and clear handlers *)
  s <- get ;;
  when (isSome (peerConnectionRef s))
    (tryIgnore (record (Did "pc.on... = null") ;; call PcClose)) ;;
  (* Clean up audio contexts *)
  s <- get ;;
  tryIgnore (when (isSome (localAudioContextRef s)) (call (AudioContextClose LocalSide))) ;;
  s <- get ;;
  tryIgnore (when (isSome (remoteAudioContextRef s)) (call (AudioContextClose RemoteSide))).

(** The last part of [cleanup()] (lines 568-582). *)
Definition resetSessionState : JS unit :=
  modify (setLocalStream None) ;;
  modify (setRemoteStream None) ;;
  modify (put_peerConnectionRef None) ;;
  modify (put_remoteMediaStreamRef None) ;;
  modify (put_pendingRemoteIceCandidatesRef []) ;;
  modify (put_localAudioContextRef None) ;;
  modify (put_remoteAudioContextRef None) ;;
  modify (put_localAnalyserRef None) ;;
  modify (put_remoteAnalyserRef None) ;;
  modify (put_mediaRecorderRef None) ;;
  modify (put_audioChunksRef []) ;;
  modify (setCallAccepted false) ;;
  modify (setLocalAudioLevel 0) ;;
  modify (setRemoteAudioLevel 0) ;;
  modify (setIsRecording false).

(** [cleanup()]. *)
Definition cleanup (closure_localStream : option MediaStream) : JS unit :=
  s <- get ;;
  if hasCleanedUpRef s then ret tt
  else
    modify (put_hasCleanedUpRef true) ;;
    releaseResources closure_localStream ;;
    resetSessionState.

Definition handleCallEnded (closure_localStream : option MediaStream) : JS unit :=
  cleanup closure_localStream ;;
  record EndCallNotified.

Definition endCall (closure_localStream : option MediaStream) : JS unit :=
  emit "call-ended" [("to", FValue peerId)] ;;
  handleCallEnded closure_localStream.

(** *** Initialization *)

Definition stunServer (url : string) : IceServer :=
  {| urls := [url]; username := None; credential := None; credentialType := None |}.

Definition turnServer (url secret : string) : IceServer :=
  {| urls := [url]; username := Some "temp-user"; credential := Some secret;
     credentialType := Some "password" |}.

(** The configuration [rtcConfig] starts from. *)
Definition defaultIceServers : list IceServer :=
  [ stunServer "stun:stun.l.google.com:19302";
    stunServer "stun:stun1.l.google.com:19302";
    stunServer "stun:stun2.l.google.com:19302" ].

Definition turnConfigTimeout : nat := 5000.

(** The promise around [socket.emit('get-turn-config', ack)]. Creating it
    starts the timer of [turnConfigTimeout] ms and sends the request. *)
Definition requestTurnConfig : JS unit :=
  emit "get-turn-config" [].

(** Awaiting it: it resolves with the reply if the acknowledgement runs
    before the timer, and rejects when the timer runs first. *)
Definition awaitTurnConfig (ack : TurnAck) : JS (option TurnConfig) :=
  match ack with
  | AckAfter ms config =>
      if (ms <? turnConfigTimeout)%nat then ret config
      else throw "TURN config timeout"
  | NoAck => throw "TURN config timeout"
  end.

(** The relay entries built from [VITE_TURN_SERVER] and [VITE_TURN_SECRET],
    when both are set. *)
Definition envTurnServers : list IceServer :=
  match VITE_TURN_SERVER env, VITE_TURN_SECRET env with
  | Some turnUrl, Some turnSecret =>
      if negb (String.eqb turnUrl "") && negb (String.eqb turnSecret "") then
        [ turnServer ("turn:" ++ turnUrl ++ "?transport=udp") turnSecret;
          turnServer ("turn:" ++ turnUrl ++ "?transport=tcp") turnSecret ]
      else []
  | _, _ => []
  end.

Definition forceRelayOnly : bool :=
  match VITE_ICE_RELAY_ONLY env with
  | Some v => String.eqb v "1"
  | None => false
  end.

(** [if (forceRelayOnly) rtcConfig.iceTransportPolicy = 'relay']. *)
Definition withRelayPolicy (rtcConfig : RtcConfig) : RtcConfig :=
  if forceRelayOnly
  then {| iceServers := iceServers rtcConfig; iceTransportPolicy := Some "relay" |}
  else rtcConfig.

(** Lines 130-183 of the component, from the await on: the configuration
    handed to [new RTCPeerConnection]. *)
Definition resolveRtcConfig (ack : TurnAck) : JS RtcConfig :=
  rtcConfig <-
    tryCatch
      (turnConfig <- awaitTurnConfig ack ;;
       match turnConfig with
       | Some reply =>
           match turn_iceServers reply with
           | Some servers =>
               ret {| iceServers := servers;
                      iceTransportPolicy := turn_iceTransportPolicy reply |}
           | None => ret {| iceServers := defaultIceServers; iceTransportPolicy := None |}
           end
       | None => ret {| iceServers := defaultIceServers; iceTransportPolicy := None |}
       end)
      (fun _ =>
         console Warn "Failed to get TURN config from backend, using fallback" ;;
         ret {| iceServers := (defaultIceServers ++ envTurnServers)%list;
                iceTransportPolicy := None |}) ;;
  ret (withRelayPolicy rtcConfig).

(** The [catch] of [initializeCall]. *)
Definition initFailed (message : string) : JS unit :=
  console Error "Error initializing call" ;;
  record (Alerted ("Failed to access camera/microphone: " ++ message)) ;;
  record EndCallNotified ;;
  modify (put_initStage Settled).

(** [initializeCall] runs in the closure of the first render, where
    [audioFormat] is "webm". Its start (lines 93-103): [mediaDevices] tells
    whether [navigator.mediaDevices.getUserMedia] exists. *)
Definition initializeCall_start (mediaDevices : bool) : JS unit :=
  tryCatch
    (when (negb mediaDevices)
       (throw "MediaDevices API not available. Please use HTTPS or localhost.") ;;
     modify (put_initStage AwaitingMedia))
    initFailed.

(** When [getUserMedia] has settled (lines 103-148); [stream] is what it
    yields when it resolves. *)
Definition initializeCall_media (stream : MediaStream) : JS unit :=
  tryCatch
    (call GetUserMedia ;;
     modify (setLocalStream (Some stream)) ;;
     setupAudioLevelMonitoring LocalSide ;;
     setupAudioRecording "webm" ;;
     requestTurnConfig ;;
     modify (put_initStage (AwaitingTurnConfig stream)))
    initFailed.

(** When the request for the relay configuration has settled, up to
    [peerConnectionRef.current = pc] (lines 148-254). *)
Definition initializeCall_connect (stream : MediaStream) (ack : TurnAck) : JS unit :=
  tryCatch
    (rtcConfig <- resolveRtcConfig ack ;;
     call (NewRTCPeerConnection rtcConfig) ;;
     forEach stream (fun track => call (PcAddTrack (track_id track))) ;;
     modify (put_peerConnectionRef
               (Some {| configuration := rtcConfig;
                        remoteDescription := None;
                        localDescription := None;
                        senders := map (fun track => Some (track_id track)) stream |})) ;;
     modify (put_initStage AwaitingNegotiation))
    initFailed.

(** The rest of [initializeCall] (lines 256-297): the offer of an outgoing
    call, or the answer to the offer of an incoming one. [created] is the
    description that [createOffer] or [createAnswer] yields. *)
Definition initializeCall_negotiate (created : SessionDescription) : JS unit :=
  tryCatch
    (when (String.eqb (callType callData) "outgoing")
       (call PcCreateOffer ;;
        pc_setLocalDescription created ;;
        emit "call-offer"
          [ ("to", FValue (targetUserId callData));
            ("from", FValue (JString (user_username user)));
            ("fromUserId", FValue (JString (user_id user)));
            ("offer", FDescription created) ]) ;;
     match offer callData with
     | Some theOffer =>
         when (String.eqb (callType callData) "incoming")
           (pc_setRemoteDescription theOffer ;;
            flushPending "Error applying buffered ICE candidate" ;;
            call PcCreateAnswer ;;
            pc_setLocalDescription created ;;
            emit "call-answer"
              [ ("to", FValue (fromUserId callData));
                ("answer", FDescription created) ])
     | None => ret tt
     end ;;
     modify (put_initStage Settled))
    initFailed.

(** The mount effect, guarded against a second invocation. *)
Definition mountEffect (mediaDevices : bool) : JS unit :=
  s <- get ;;
  if initializedRef s then ret tt
  else
    modify (put_initializedRef true) ;;
    initializeCall_start mediaDevices.

(** *** The component as a transition system *)

(** What React does after a handler: the local video element exists while
    [localStream] is set and the remote one while the call is accepted and
    [remoteStream] is set; the attachment effects give them their stream. *)
Definition commit (s : State) : State :=
  let s :=
    put_localVideoRef
      (if isSome (localStream s) then Some {| srcObject := true |} else None) s in
  put_remoteVideoRef
    (if callAccepted s && isSome (remoteStream s)
     then Some {| srcObject := true |} else None) s.

(** The handler an event runs. The socket listeners and the unmount effect
    are the closures of the first render; the callbacks of the connection
    run only while the session holds it, since [cleanup] clears them;
    [initializeCall] resumes where it was suspended, whether or not the
    call has been torn down in between; the recorder delivers chunks once
    it has been started, also after it has been stopped or dropped. When
    the component is unmounted React has cleared the references to its two
    video elements before the unmount effect runs.

    The system does not track whether the component is mounted: it also
    admits socket messages and clicks after the unmount, which the
    component cannot receive. Every run of the component is a run of the
    system. *)
Definition handler (s : State) (ev : Event) : JS unit :=
  match ev with
  | Mounted mediaDevices => mountEffect mediaDevices
  | MediaSettled stream =>
      match initStage s with
      | AwaitingMedia => initializeCall_media stream
      | _ => ret tt
      end
  | TurnConfigSettled ack =>
      match initStage s with
      | AwaitingTurnConfig stream => initializeCall_connect stream ack
      | _ => ret tt
      end
  | NegotiationResumed created =>
      match initStage s with
      | AwaitingNegotiation => initializeCall_negotiate created
      | _ => ret tt
      end
  | CallAnswerReceived data_answer => handleCallAnswer data_answer
  | IceCandidateReceived data_candidate => handleIceCandidate data_candidate
  | CallEndedReceived => handleCallEnded None
  | EndCallClicked => endCall (localStream s)
  | Unmounted =>
      modify (put_remoteVideoRef None) ;;
      modify (put_localVideoRef None) ;;
      cleanup None
  | TrackArrived track => when (isSome (peerConnectionRef s)) (ontrack track)
  | LocalCandidateFound c => when (isSome (peerConnectionRef s)) (onicecandidate c)
  | ToggleVideoClicked => toggleVideo
  | ToggleAudioClicked => toggleAudio
  | RecordClicked => if isRecording s then stopAudioRecording else startAudioRecording
  | FormatSelected format => when (negb (isRecording s)) (modify (setAudioFormat format))
  | DataAvailable data now =>
      when (recorderStarted (effects s)) (ondataavailable "webm" data now)
  | AnimationFrame side level => updateAudioLevel side level
  end.

Definition step (s : State) (ev : Event) : State :=
  commit (exec (handler s ev) s).

Definition run (s : State) (evs : list Event) : State := fold_left step evs s.

(** *** Notions used in the statements *)

(** The trace after the flush loop has gone through [candidates], starting
    from the trace [log]: one [addIceCandidate] per candidate, in order, and
    a console error after each one that was refused. *)
Fixpoint flushTrace (msg : string) (candidates : list IceCandidate) (log : list LogEntry)
  : list LogEntry :=
  match candidates with
  | [] => log
  | candidate :: rest =>
      match fails log (PcAddIceCandidate candidate) with
      | None => flushTrace msg rest (log ++ [Called (PcAddIceCandidate candidate) true])
      | Some _ =>
          flushTrace msg rest
            ((log ++ [Called (PcAddIceCandidate candidate) false]) ++ [Console Error msg])
      end
  end.



(** An entry of the trace that is not an [audio-chunk], or is one built by
    [audioChunkPayload] in the closure of the first render. *)
Definition chunkEntryOk (e : LogEntry) : Prop :=
  match e with
  | Emitted event payload =>
      event = "audio-chunk" ->
      exists dataURL now, payload = audioChunkPayload "webm" dataURL now
  | _ => True
  end.

Definition chunksWellFormed (s : State) : Prop := Forall chunkEntryOk (effects s).


(** The aggregated remote stream, empty when there is none yet. *)
Definition aggregated (s : State) : MediaStream :=
  match remoteMediaStreamRef s with Some stream => stream | None => [] end.

(** A stream after a track has arrived: the track is added unless a track
    of the stream already has its id. *)
Definition addTrackOnce (track : MediaStreamTrack) (stream : MediaStream) : MediaStream :=
  if existsb (fun t => String.eqb (track_id t) (track_id track)) stream
  then stream else (stream ++ [track])%list.

(** The toggle of a kind, and the flag it publishes. *)
Definition toggle (kind : TrackKind) : JS unit :=
  match kind with VideoKind => toggleVideo | AudioKind => toggleAudio end.

Definition enabledFlag (kind : TrackKind) (s : State) : bool :=
  match kind with VideoKind => isVideoEnabled s | AudioKind => isAudioEnabled s end.

(** The request for the relay configuration got no reply before the timer. *)
Definition timedOut (ack : TurnAck) : Prop :=
  match ack with
  | NoAck => True
  | AckAfter ms _ => (turnConfigTimeout < ms)%nat
  end.

(** The request was answered in time, but not with a configuration. *)
Definition unusableReply (ack : TurnAck) : Prop :=
  match ack with
  | NoAck => False
  | AckAfter ms config =>
      (ms < turnConfigTimeout)%nat /\
      match config with
      | Some reply => turn_iceServers reply = None
      | None => True
      end
  end.

(** The platform lets the connection be built: the constructor and
    [addTrack] succeed. *)
Definition connectionCanBeBuilt : Prop :=
  forall log op,
    match op with
    | NewRTCPeerConnection _ | PcAddTrack _ => fails log op = None
    | _ => True
    end.

Definition isAlert (e : LogEntry) : bool :=
  match e with Alerted _ | EndCallNotified => true | _ => false end.

(** What the user or the owner of the call has been told so far. *)
Definition alerts (s : State) : list LogEntry := filter isAlert (effects s).

(** Every entry of the trace has the property [Q]. *)
Definition traceAll (Q : LogEntry -> Prop) (s : State) : Prop := Forall Q (effects s).

(** The objects sent as [event] so far are [sent]. *)
Definition sentAs (event : string) (sent : list JsObject) (s : State) : Prop :=
  emitted event (effects s) = sent.

Definition isEndCallClick (ev : Event) : bool :=
  match ev with EndCallClicked => true | _ => false end.

(** The messages of the signaling protocol, as the component sends them:
    the request for the relay configuration, the offer of an outgoing call
    (to the callee), the answer to the offer of an incoming call (to the
    caller), the candidates and the hang-up (to the peer), and the audio
    chunks. *)
Definition messageOk (e : LogEntry) : Prop :=
  match e with
  | Emitted event payload =>
      (event = "get-turn-config" /\ payload = []) \/
      (event = "call-offer" /\ callType callData = "outgoing" /\
       exists created,
         payload = [ ("to", FValue (targetUserId callData));
                     ("from", FValue (JString (user_username user)));
                     ("fromUserId", FValue (JString (user_id user)));
                     ("offer", FDescription created) ]) \/
      (event = "call-answer" /\ callType callData = "incoming" /\
       offer callData <> None /\
       exists created,
         payload = [ ("to", FValue (fromUserId callData));
                     ("answer", FDescription created) ]) \/
      (event = "ice-candidate" /\
       exists candidate,
         payload = [ ("to", FValue peerId); ("candidate", FCandidate candidate) ]) \/
      (event = "call-ended" /\ payload = [("to", FValue peerId)]) \/
      event = "audio-chunk"
  | _ => True
  end.

(** How the component uses the recorder: it is created for [audio/webm]
    and started with a timeslice of 2000 ms. *)
Definition recorderCallOk (e : LogEntry) : Prop :=
  match e with
  | Called (NewMediaRecorder mimeType) _ => mimeType = "audio/webm"
  | Called (RecorderStart timeslice) _ => timeslice = 2000%nat
  | _ => True
  end.

(** [o.name], when the object literal has the field. *)
Definition fieldOf (name : string) (o : JsObject) : option Field :=
  option_map snd (find (fun f => String.eqb (fst f) name) o).

(** The string does not contain the separator. *)
Definition noSeparator (sep : ascii) (s : string) : bool :=
  forallb (fun c => negb (Ascii.eqb c sep)) (list_ascii_of_string s).

(** How many entries of the trace count under [w]. *)
Definition tally (w : LogEntry -> nat) (s : State) : nat :=
  list_sum (map w (effects s)).

(** What [initializeCall] does once: it asks for the media, asks for the
    relay configuration, builds the connection, and sends the offer or the
    answer. *)
Definition mediaRequest (e : LogEntry) : nat :=
  match e with Called GetUserMedia _ => 1 | _ => 0 end.

Definition relayRequest (e : LogEntry) : nat :=
  match e with
  | Emitted event _ => if String.eqb event "get-turn-config" then 1 else 0
  | _ => 0
  end.

Definition connectionBuilt (e : LogEntry) : nat :=
  match e with Called (NewRTCPeerConnection _) _ => 1 | _ => 0 end.

Definition negotiationSent (e : LogEntry) : nat :=
  match e with
  | Emitted event _ =>
      if String.eqb event "call-offer" || String.eqb event "call-answer" then 1 else 0
  | _ => 0
  end.

(** The calls that give resources back: stopping a track, closing the
    connection, closing an audio context. *)
Definition release (e : LogEntry) : nat :=
  match e with
  | Called (TrackStop _) _ | Called PcClose _ | Called (AudioContextClose _) _ => 1
  | _ => 0
  end.

(** What each stage of [initializeCall] may have done at most. *)
Definition initBudget (stage : InitStage) : nat * nat * nat * nat :=
  match stage with
  | NotStarted | AwaitingMedia => (0, 0, 0, 0)
  | AwaitingTurnConfig _ => (1, 1, 0, 0)
  | AwaitingNegotiation => (1, 1, 1, 0)
  | Settled => (1, 1, 1, 1)
  end%nat.

Definition initializedOnce (s : State) : Prop :=
  (initStage s = NotStarted \/ initializedRef s = true) /\
  (tally mediaRequest s <= fst (fst (fst (initBudget (initStage s)))))%nat /\
  (tally relayRequest s <= snd (fst (fst (initBudget (initStage s)))))%nat /\
  (tally connectionBuilt s <= snd (fst (initBudget (initStage s))))%nat /\
  (tally negotiationSent s <= snd (initBudget (initStage s)))%nat.

(** The progress of [initializeCall] is as in [s0]. *)
Definition sameProgress (s0 s : State) : Prop :=
  tally mediaRequest s = tally mediaRequest s0 /\
  tally relayRequest s = tally relayRequest s0 /\
  tally connectionBuilt s = tally connectionBuilt s0 /\
  tally negotiationSent s = tally negotiationSent s0 /\
  initStage s = initStage s0 /\
  initializedRef s = initializedRef s0.

(** Nothing was released, reported or torn down since [s0], and the local
    stream is the same. *)
Definition sameHoldings (s0 s : State) : Prop :=
  tally release s = tally release s0 /\
  alerts s = alerts s0 /\
  hasCleanedUpRef s = hasCleanedUpRef s0 /\
  localStream s = localStream s0.

Definition progressQuiet (e : LogEntry) : bool :=
  (mediaRequest e + relayRequest e + connectionBuilt e + negotiationSent e =? 0)%nat.

Definition holdingsQuiet (e : LogEntry) : bool :=
  (release e =? 0)%nat && negb (isAlert e).

(** The facts that the parts of the negotiation keep. *)
Definition negotiating (s0 s : State) : Prop :=
  (sameProgress s0 s /\ sameHoldings s0 s) /\
  isSome (peerConnectionRef s) = isSome (peerConnectionRef s0).

(** What the user and the owner of the call are told when [initializeCall]
    fails with [message]. *)
Definition initFailureReport (message : string) : list LogEntry :=
  [ Alerted ("Failed to access camera/microphone: " ++ message); EndCallNotified ].

(** What the [catch] of [initializeCall] adds to the trace. *)
Definition initFailureTrace (message : string) : list LogEntry :=
  Console Error "Error initializing call" :: initFailureReport message.

(** The tracks on which [stop()] was called, in order. *)
Fixpoint trackStops (log : list LogEntry) : list string :=
  match log with
  | [] => []
  | Called (TrackStop trackId) _ :: log' => trackId :: trackStops log'
  | _ :: log' => trackStops log'
  end.

(** The tracks of the senders of the connection, in [getSenders()] order. *)
Definition senderTracks (pc : option RTCPeerConnection) : list string :=
  match pc with
  | Some pc =>
      flat_map (fun sender => match sender with Some trackId => [trackId] | None => [] end)
        (senders pc)
  | None => []
  end.

(** The tracks of the stream that a closure of [cleanup] sees. *)
Definition streamTracks (closure_localStream : option MediaStream) : list string :=
  match closure_localStream with
  | Some stream => map track_id stream
  | None => []
  end.

(** The [localStream] in the closure of the [cleanup] that a trigger runs:
    the current one for the buttons, the one of the first render, [null],
    for the socket listener and the unmount effect. *)
Definition closureOf (t : Trigger) (s : State) : option MediaStream :=
  match t with
  | LocalHangup => localStream s
  | RemoteHangup | ComponentUnmount => None
  end.

(** The state in which the [cleanup()] of a trigger starts: a hang-up
    button has sent [call-ended] first, and at the unmount React has
    cleared the references to the video elements. *)
Definition beforeCleanup (t : Trigger) (s : State) : State :=
  match t with
  | LocalHangup => appendLog (Emitted "call-ended" [("to", FValue peerId)]) s
  | RemoteHangup => s
  | ComponentUnmount => put_localVideoRef None (put_remoteVideoRef None s)
  end.

(** What a trigger does after its [cleanup()]: the two hang-ups call
    [onEndCall()]. *)
Definition afterCleanup (t : Trigger) : list LogEntry :=
  match t with
  | LocalHangup | RemoteHangup => [EndCallNotified]
  | ComponentUnmount => []
  end.

Definition stopsQuiet (e : LogEntry) : bool :=
  match e with Called (TrackStop _) _ => false | _ => true end.

(** The tracks stopped so far are [stopped], and the connection is [pc]. *)
Definition stopsAre (stopped : list string) (pc : option RTCPeerConnection) (s : State)
  : Prop :=
  trackStops (effects s) = stopped /\ peerConnectionRef s = pc.

Definition isRecorderCallback (ev : Event) : bool :=
  match ev with DataAvailable _ _ => true | _ => false end.

(** The session after a teardown that found initialization settled: it
    holds nothing and shows nothing. *)
Definition tornDown (s : State) : Prop :=
  hasCleanedUpRef s = true /\ initializedRef s = true /\ initStage s = Settled /\
  localStream s = None /\ remoteStream s = None /\ callAccepted s = false /\
  isRecording s = false /\ localVideoRef s = None /\ remoteVideoRef s = None /\
  peerConnectionRef s = None /\ mediaRecorderRef s = None /\
  localAnalyserRef s = None /\ remoteAnalyserRef s = None.

(** [s'] is [s] but for the trace and the selected audio format. *)
Definition onlyTold (s s' : State) : Prop :=
  s' = setAudioFormat (audioFormat s') (put_effects (effects s') s).






(** *** Rules for computations *)

Lemma bind_normal {A B : Type} (m : JS A) (k : A -> JS B) (s s' : State) (a : A) :
  m s = (Normal a, s') -> bind m k s = k a s'.
Proof. intros H. unfold bind. now rewrite H. Qed.

Lemma safe_run {A : Type} (m : JS A) (s : State) :
  safe m -> exists a s', m s = (Normal a, s').
Proof.
  intros H. destruct (H s) as [a Ha]. unfold completion in Ha.
  destruct (m s) as [c s'] eqn:E. simpl in Ha. subst c. now exists a, s'.
Qed.

Lemma safe_ret {A : Type} (a : A) : safe (ret a).
Proof. intros s. now exists a. Qed.

Lemma safe_get : safe get.
Proof. intros s. now exists s. Qed.

Lemma safe_modify (f : State -> State) : safe (modify f).
Proof. intros s. now exists tt. Qed.

Lemma safe_record (e : LogEntry) : safe (record e).
Proof. apply safe_modify. Qed.

Lemma safe_attempt (op : Op) : safe (attempt op).
Proof.
  intros s. unfold completion, attempt.
  destruct (fails (effects s) op); [now exists false | now exists true].
Qed.

Lemma safe_bind {A B : Type} (m : JS A) (k : A -> JS B) :
  safe m -> (forall a, safe (k a)) -> safe (bind m k).
Proof.
  intros Hm Hk s. destruct (safe_run m s Hm) as (a & s' & E).
  unfold completion. rewrite (bind_normal _ _ _ _ _ E). apply Hk.
Qed.

Lemma safe_tryCatch {A : Type} (m : JS A) (h : string -> JS A) :
  (forall e, safe (h e)) -> safe (tryCatch m h).
Proof.
  intros Hh s. unfold completion, tryCatch.
  destruct (m s) as [[a|e] s'].
  - now exists a.
  - apply Hh.
Qed.

Lemma safe_tryIgnore (m : JS unit) : safe (tryIgnore m).
Proof. apply safe_tryCatch. intros _. apply safe_ret. Qed.

Lemma safe_when (b : bool) (m : JS unit) : safe m -> safe (when b m).
Proof. destruct b; simpl; [trivial | intros _; apply safe_ret]. Qed.

Lemma safe_forEach {A : Type} (l : list A) (body : A -> JS unit) :
  (forall x, safe (body x)) -> safe (forEach l body).
Proof.
  intros H. induction l as [|x l IH]; simpl.
  - apply safe_ret.
  - apply safe_bind; [apply H | intros _; exact IH].
Qed.

Lemma safe_forEachFrom {A : Type} (l : list A) (body : nat -> A -> JS unit) (i : nat) :
  (forall j x, safe (body j x)) -> safe (forEachFrom i l body).
Proof.
  intros H. revert i. induction l as [|x l IH]; intros i; simpl.
  - apply safe_ret.
  - apply safe_bind; [apply H | intros _; apply IH].
Qed.

Lemma preserves_ret {A : Type} (P : State -> Prop) (a : A) : preserves P (ret a).
Proof. intros s H. exact H. Qed.

Lemma preserves_get (P : State -> Prop) : preserves P get.
Proof. intros s H. exact H. Qed.

Lemma preserves_throw {A : Type} (P : State -> Prop) (e : string) :
  preserves P (@throw A e).
Proof. intros s H. exact H. Qed.

Lemma preserves_modify (P : State -> Prop) (f : State -> State) :
  (forall s, P s -> P (f s)) -> preserves P (modify f).
Proof. intros H s Hs. apply H, Hs. Qed.

Lemma preserves_record (P : State -> Prop) (e : LogEntry) :
  (forall s, P s -> P (appendLog e s)) -> preserves P (record e).
Proof. apply preserves_modify. Qed.

Lemma preserves_call (P : State -> Prop) (op : Op) :
  (forall s ok, P s -> P (appendLog (Called op ok) s)) -> preserves P (call op).
Proof.
  intros H s Hs. unfold exec, call.
  destruct (fails (effects s) op); simpl; apply H, Hs.
Qed.

Lemma preserves_attempt (P : State -> Prop) (op : Op) :
  (forall s ok, P s -> P (appendLog (Called op ok) s)) -> preserves P (attempt op).
Proof.
  intros H s Hs. unfold exec, attempt.
  destruct (fails (effects s) op); simpl; apply H, Hs.
Qed.

Lemma preserves_bind {A B : Type} (P : State -> Prop) (m : JS A) (k : A -> JS B) :
  preserves P m -> (forall a, preserves P (k a)) -> preserves P (bind m k).
Proof.
  intros Hm Hk s Hs. specialize (Hm s Hs). unfold exec, bind in *.
  destruct (m s) as [[a|e] s']; simpl in *.
  - apply (Hk a s' Hm).
  - exact Hm.
Qed.

Lemma preserves_tryCatch {A : Type} (P : State -> Prop) (m : JS A) (h : string -> JS A) :
  preserves P m -> (forall e, preserves P (h e)) -> preserves P (tryCatch m h).
Proof.
  intros Hm Hh s Hs. specialize (Hm s Hs). unfold exec, tryCatch in *.
  destruct (m s) as [[a|e] s']; simpl in *.
  - exact Hm.
  - apply (Hh e s' Hm).
Qed.

Lemma preserves_tryIgnore (P : State -> Prop) (m : JS unit) :
  preserves P m -> preserves P (tryIgnore m).
Proof. intros H. apply preserves_tryCatch; [exact H | intros _; apply preserves_ret]. Qed.

Lemma preserves_when (P : State -> Prop) (b : bool) (m : JS unit) :
  preserves P m -> preserves P (when b m).
Proof. destruct b; simpl; [trivial | intros _; apply preserves_ret]. Qed.

Lemma preserves_forEach {A : Type} (P : State -> Prop) (l : list A) (body : A -> JS unit) :
  (forall x, preserves P (body x)) -> preserves P (forEach l body).
Proof.
  intros H. induction l as [|x l IH]; simpl.
  - apply preserves_ret.
  - apply preserves_bind; [apply H | intros _; exact IH].
Qed.

Lemma preserves_forEachFrom {A : Type} (P : State -> Prop) (l : list A)
    (body : nat -> A -> JS unit) (i : nat) :
  (forall j x, preserves P (body j x)) -> preserves P (forEachFrom i l body).
Proof.
  intros H. revert i. induction l as [|x l IH]; intros i; simpl.
  - apply preserves_ret.
  - apply preserves_bind; [apply H | intros _; apply IH].
Qed.


(** Unfold the handlers down to the primitives of [JS]. *)
Ltac unfold_handlers :=
  unfold handleCallEnded, endCall, cleanup, releaseResources, resetSessionState,
    stopAudioRecording, startAudioRecording, ondataavailable, setupAudioRecording,
    updateAudioLevel, setupAudioLevelMonitoring, toggleVideo, toggleAudio,
    ontrack, onicecandidate, handleIceCandidate, handleCallAnswer, flushPending,
    mountEffect, initializeCall_start, initializeCall_media, initializeCall_connect,
    initializeCall_negotiate, initFailed, resolveRtcConfig, requestTurnConfig,
    awaitTurnConfig, console, emit.

(** Unfold the methods of the connection. *)
Ltac unfold_engine :=
  unfold pc_addIceCandidate, pc_setLocalDescription, pc_setRemoteDescription, updatePc.

Ltac safe_step :=
  match goal with
  | |- safe (bind _ _) => apply safe_bind; [| intros ?]
  | |- safe (tryIgnore _) => apply safe_tryIgnore
  | |- safe (tryCatch _ _) => apply safe_tryCatch; intros ?
  | |- safe (when _ _) => apply safe_when
  | |- safe (forEach _ _) => apply safe_forEach; intros ?
  | |- safe (forEachFrom _ _ _) => apply safe_forEachFrom; intros ? ?
  | |- safe (ret _) => apply safe_ret
  | |- safe get => apply safe_get
  | |- safe (modify _) => apply safe_modify
  | |- safe (record _) => apply safe_record
  | |- safe (attempt _) => apply safe_attempt
  | |- safe (match ?x with _ => _ end) => destruct x
  | |- safe _ => progress unfold_handlers
  | |- safe _ => progress unfold_engine
  end.

(** Reduce a goal [preserves P m] to goals about the state updates and the
    trace entries of [m]. *)
Ltac preserves_step :=
  match goal with
  | |- preserves _ (bind _ _) => apply preserves_bind; [| intros ?]
  | |- preserves _ (tryIgnore _) => apply preserves_tryIgnore
  | |- preserves _ (tryCatch _ _) => apply preserves_tryCatch; [| intros ?]
  | |- preserves _ (when _ _) => apply preserves_when
  | |- preserves _ (forEach _ _) => apply preserves_forEach; intros ?
  | |- preserves _ (forEachFrom _ _ _) => apply preserves_forEachFrom; intros ? ?
  | |- preserves _ (ret _) => apply preserves_ret
  | |- preserves _ get => apply preserves_get
  | |- preserves _ (throw _) => apply preserves_throw
  | |- preserves _ (modify _) => apply preserves_modify
  | |- preserves _ (record _) => apply preserves_record
  | |- preserves _ (call _) => apply preserves_call
  | |- preserves _ (attempt _) => apply preserves_attempt
  | |- preserves _ (match ?x with _ => _ end) => destruct x
  | |- preserves _ _ => progress unfold_handlers
  | |- preserves _ _ => progress unfold_engine
  end.

(** Close a goal left by [preserves_step]: the invariant after a state
    update or a new trace entry. [appended] is the lemma of the invariant
    for a new trace entry, [framed] the one for an update of a field it
    does not read. *)
Ltac invariant_leaf appended framed :=
  intros;
  first
    [ assumption
    | exact I
    | apply appended;
      first [ assumption
            | simpl; first [exact I | reflexivity | intros; first [discriminate | eauto]] ]
    | eapply framed; try eassumption; reflexivity ].

(** [s <- get ;; k s] at the state [s0] continues as [k s0]. *)
Ltac read_state :=
  match goal with
  | |- context [exec (bind get ?k) ?s0] =>
      change (exec (bind get k) s0) with (exec (k s0) s0); cbv beta
  end.

(** Go past the first part of a sequence, which cannot throw, keeping the
    fact [H] about a field of the state. *)
Ltac pass_keeping H :=
  match type of H with
  | ?f ?s0 = ?v =>
      match goal with
      | |- context [exec (bind ?m ?k) s0] =>
          let s1 := fresh "s" in
          let K := fresh "K" in
          let E := fresh "E" in
          destruct (safe_run m s0 ltac:(repeat safe_step)) as ([] & s1 & E);
          assert (K : preserves (fun st => f st = v) m)
            by (repeat preserves_step; intros; simpl; assumption);
          specialize (K s0 H); unfold exec in K; rewrite E in K; simpl in K;
          change (exec (bind m k) s0) with (snd (bind m k s0));
          rewrite (bind_normal m k s0 s1 tt E); cbv beta;
          match goal with
          | |- context [snd (?m1 s1)] => change (snd (m1 s1)) with (exec m1 s1)
          end;
          clear E H; rename K into H
      end
  end.

(** A fact about the trace that stays true when the trace grows. *)
Ltac trace_keeps :=
  repeat preserves_step; intros; simpl;
  first [ assumption
        | apply in_or_app; left; assumption
        | match goal with
          | H : exists ok, In _ _ |- exists ok', In _ _ =>
              let ok := fresh "ok" in
              destruct H as [ok H]; exists ok; apply in_or_app; left; exact H
          end ].

(** *** Teardown *)

Lemma safe_releaseResources (closure_localStream : option MediaStream) :
  safe (releaseResources closure_localStream).
Proof. repeat safe_step. Qed.

Lemma safe_cleanup (closure_localStream : option MediaStream) :
  safe (cleanup closure_localStream).
Proof. repeat safe_step. Qed.

Lemma cleanup_completes (closure_localStream : option MediaStream) (s : State) :
  completion (cleanup closure_localStream) s = Normal tt.
Proof. destruct (safe_cleanup closure_localStream s) as [[] H]. exact H. Qed.

Lemma releaseResources_keeps_flag (closure_localStream : option MediaStream) :
  preserves (fun s => hasCleanedUpRef s = true) (releaseResources closure_localStream).
Proof. repeat preserves_step; intros; simpl; assumption. Qed.

(** After its guard, [cleanup] releases the resources and ends by running
    [resetSessionState]. *)
Lemma cleanup_first_run (closure_localStream : option MediaStream) (s : State) :
  hasCleanedUpRef s = false ->
  exists s2,
    s2 = exec (releaseResources closure_localStream) (put_hasCleanedUpRef true s) /\
    hasCleanedUpRef s2 = true /\
    cleanup closure_localStream s = resetSessionState s2.
Proof.
  intros H. unfold cleanup at 1. unfold bind at 1. unfold get at 1. rewrite H.
  unfold bind at 1. unfold modify at 1.
  destruct (safe_run (releaseResources closure_localStream)
              (put_hasCleanedUpRef true s)
              (safe_releaseResources closure_localStream)) as ([] & s2 & E).
  exists s2. split; [| split].
  - unfold exec. now rewrite E.
  - pose proof (releaseResources_keeps_flag closure_localStream
                  (put_hasCleanedUpRef true s) eq_refl) as K.
    unfold exec in K. rewrite E in K. exact K.
  - now rewrite (bind_normal _ _ _ _ _ E).
Qed.

Lemma exec_bind_normal {A B : Type} (m : JS A) (k : A -> JS B) (s s' : State) (a : A) :
  m s = (Normal a, s') -> exec (bind m k) s = exec (k a) s'.
Proof. intros E. unfold exec. now rewrite (bind_normal _ _ _ _ _ E). Qed.

(** A recorder that is recording is stopped by the teardown. *)
Lemma releaseResources_stops_recorder (closure_localStream : option MediaStream)
    (s : State) (r : MediaRecorder) :
  mediaRecorderRef s = Some r -> recorder_state r = recording ->
  In (Did "mediaRecorder.stop") (effects (exec (releaseResources closure_localStream) s)).
Proof.
  intros Hr Hst. unfold releaseResources.
  read_state. pass_keeping Hr.
  read_state. pass_keeping Hr.
  assert (E3 : stopAudioRecording s1
               = (Normal tt,
                  setIsRecording false
                    (put_mediaRecorderRef (Some (setRecorderState inactive r))
                       (appendLog (Did "mediaRecorder.stop") s1)))).
  { unfold stopAudioRecording, bind, get. rewrite Hr, Hst. reflexivity. }
  rewrite (exec_bind_normal _ _ _ _ _ E3).
  match goal with
  | |- In ?e (effects (exec ?m ?s3)) =>
      assert (K : preserves (fun st => In e (effects st)) m) by trace_keeps;
      apply K
  end.
  simpl. apply in_or_app. right. now left.
Qed.

(** A connection that the session holds is closed by the teardown. *)
Lemma releaseResources_closes_connection (closure_localStream : option MediaStream)
    (s : State) (pc : RTCPeerConnection) :
  peerConnectionRef s = Some pc ->
  exists ok,
    In (Called PcClose ok) (effects (exec (releaseResources closure_localStream) s)).
Proof.
  intros Hpc. unfold releaseResources.
  read_state. pass_keeping Hpc.
  read_state. pass_keeping Hpc.
  pass_keeping Hpc.
  read_state. pass_keeping Hpc.
  pass_keeping Hpc.
  read_state. rewrite Hpc. cbn [isSome when].
  match goal with
  | |- exists ok, In _ (effects (exec (bind ?m ?k) ?s0)) =>
      assert (E : exists ok s', m s0 = (Normal tt, s') /\ In (Called PcClose ok) (effects s'))
  end.
  { unfold tryIgnore, tryCatch, bind, record, modify, call. cbv beta.
    match goal with
    | |- context [fails ?l PcClose] => destruct (fails l PcClose)
    end.
    - exists false. eexists. split; [reflexivity |]. simpl.
      apply in_or_app. right. now left.
    - exists true. eexists. split; [reflexivity |]. simpl.
      apply in_or_app. right. now left. }
  destruct E as (ok & s' & E & Hin).
  rewrite (exec_bind_normal _ _ _ _ _ E).
  match goal with
  | |- exists ok', In _ (effects (exec ?m ?s3)) =>
      assert (K : preserves (fun st => exists ok', In (Called PcClose ok') (effects st)) m)
        by trace_keeps;
      apply K
  end.
  now exists ok.
Qed.

(** The audio contexts that the session holds are closed by the teardown. *)
Lemma releaseResources_closes_contexts (closure_localStream : option MediaStream)
    (s : State) :
  (localAudioContextRef s <> None ->
   exists ok,
     In (Called (AudioContextClose LocalSide) ok)
       (effects (exec (releaseResources closure_localStream) s))) /\
  (remoteAudioContextRef s <> None ->
   exists ok,
     In (Called (AudioContextClose RemoteSide) ok)
       (effects (exec (releaseResources closure_localStream) s))).
Proof.
  assert (Close : forall side st,
             exists ok,
               tryIgnore (when true (call (AudioContextClose side))) st
               = (Normal tt, appendLog (Called (AudioContextClose side) ok) st)).
  { intros side st. unfold tryIgnore, tryCatch, when, call.
    destruct (fails (effects st) (AudioContextClose side)); [now exists false | now exists true]. }
  split; intros Held.
  - destruct (localAudioContextRef s) as [c|] eqn:Hc; [clear Held | congruence].
    unfold releaseResources.
    read_state. pass_keeping Hc.
    read_state. pass_keeping Hc.
    pass_keeping Hc.
    read_state. pass_keeping Hc.
    pass_keeping Hc.
    read_state. pass_keeping Hc.
    read_state. rewrite Hc. cbn [isSome].
    match goal with
    | |- exists ok, In _ (effects (exec (bind _ ?k) ?s0)) =>
        destruct (Close LocalSide s0) as (ok & E);
        rewrite (exec_bind_normal _ k _ _ _ E)
    end.
    match goal with
    | |- exists ok', In ?e (effects (exec ?m ?s3)) =>
        assert (K : preserves
                      (fun st => exists ok',
                           In (Called (AudioContextClose LocalSide) ok') (effects st)) m)
          by trace_keeps;
        apply K
    end.
    exists ok. simpl. apply in_or_app. right. now left.
  - destruct (remoteAudioContextRef s) as [c|] eqn:Hc; [clear Held | congruence].
    unfold releaseResources.
    read_state. pass_keeping Hc.
    read_state. pass_keeping Hc.
    pass_keeping Hc.
    read_state. pass_keeping Hc.
    pass_keeping Hc.
    read_state. pass_keeping Hc.
    read_state. pass_keeping Hc.
    read_state. rewrite Hc. cbn [isSome].
    match goal with
    | |- exists ok, In _ (effects (exec _ ?s0)) =>
        destruct (Close RemoteSide s0) as (ok & E)
    end.
    unfold exec. rewrite E. exists ok. simpl. apply in_or_app. right. now left.
Qed.

Lemma cleanup_sets_flag (closure_localStream : option MediaStream) (s : State) :
  hasCleanedUpRef (exec (cleanup closure_localStream) s) = true.
Proof.
  destruct (hasCleanedUpRef s) eqn:F.
  - unfold exec, cleanup, bind, get. now rewrite F.
  - destruct (cleanup_first_run closure_localStream s F) as (s2 & _ & F2 & E).
    unfold exec. rewrite E. exact F2.
Qed.

Lemma cleanup_after_flag (closure_localStream : option MediaStream) (s : State) :
  hasCleanedUpRef s = true -> cleanup closure_localStream s = (Normal tt, s).
Proof. intros F. unfold cleanup, bind, get. now rewrite F. Qed.

Lemma put_effects_same (s : State) : put_effects (effects s) s = s.
Proof. destruct s; reflexivity. Qed.

Lemma engineCalls_app (l1 l2 : list LogEntry) :
  engineCalls (l1 ++ l2) = (engineCalls l1 ++ engineCalls l2)%list.
Proof.
  induction l1 as [|e l1 IH]; simpl; [reflexivity |].
  destruct e; simpl; now rewrite IH.
Qed.

Lemma commit_commit (s : State) : commit (commit s) = commit s.
Proof.
  unfold commit. destruct s. simpl.
  destruct localStream0, callAccepted0, remoteStream0; reflexivity.
Qed.

Lemma commit_put_effects (log : list LogEntry) (s : State) :
  commit (put_effects log s) = put_effects log (commit s).
Proof. reflexivity. Qed.

Lemma trigger_sets_flag (t : Trigger) (s : State) :
  hasCleanedUpRef (step s (triggerEvent t)) = true.
Proof.
  destruct t; unfold step, triggerEvent, handler, endCall, handleCallEnded.
  - change (hasCleanedUpRef
              (exec (bind (emit "call-ended" [("to", FValue peerId)])
                       (fun _ => bind (cleanup (localStream s))
                                   (fun _ => record EndCallNotified))) s) = true).
    rewrite (exec_bind_normal (emit "call-ended" [("to", FValue peerId)]) _ s
               (appendLog (Emitted "call-ended" [("to", FValue peerId)]) s) tt eq_refl).
    match goal with
    | |- hasCleanedUpRef (exec (bind (cleanup ?c) _) ?s0) = true =>
        pose proof (cleanup_sets_flag c s0) as F;
        destruct (safe_run _ s0 (safe_cleanup c)) as ([] & s1 & E);
        unfold exec in F; rewrite E in F;
        rewrite (exec_bind_normal _ _ _ _ _ E)
    end.
    exact F.
  - change (hasCleanedUpRef
              (exec (bind (cleanup None) (fun _ => record EndCallNotified)) s) = true).
    pose proof (cleanup_sets_flag None s) as F.
    destruct (safe_run _ s (safe_cleanup None)) as ([] & s1 & E).
    unfold exec in F. rewrite E in F.
    rewrite (exec_bind_normal _ _ _ _ _ E). exact F.
  - apply (cleanup_sets_flag None (put_localVideoRef None (put_remoteVideoRef None s))).
Qed.

(** Once [cleanup()] has run, a trigger adds to the trace what it sends and
    notifies, and nothing else changes. *)
Lemma trigger_after_cleanup (t : Trigger) (s : State) :
  hasCleanedUpRef s = true -> commit s = s ->
  exists log,
    step s (triggerEvent t) = put_effects log s /\
    engineCalls log = engineCalls (effects s).
Proof.
  intros F C. destruct t; unfold step, triggerEvent, handler, endCall, handleCallEnded.
  - exists ((effects s ++ [Emitted "call-ended" [("to", FValue peerId)]])
            ++ [EndCallNotified])%list.
    split.
    + unfold exec, bind, emit, record, modify.
      rewrite (cleanup_after_flag (localStream s) (appendLog _ s) F).
      change (commit (put_effects
                        ((effects s ++ [Emitted "call-ended" [("to", FValue peerId)]])
                         ++ [EndCallNotified]) s)
              = put_effects
                  ((effects s ++ [Emitted "call-ended" [("to", FValue peerId)]])
                   ++ [EndCallNotified]) s).
      now rewrite commit_put_effects, C.
    + rewrite !engineCalls_app. simpl. now rewrite !app_nil_r.
  - exists (effects s ++ [EndCallNotified])%list. split.
    + unfold exec, bind, record, modify. rewrite (cleanup_after_flag None s F).
      change (commit (put_effects (effects s ++ [EndCallNotified]) s)
              = put_effects (effects s ++ [EndCallNotified]) s).
      now rewrite commit_put_effects, C.
    + rewrite engineCalls_app. simpl. now rewrite app_nil_r.
  - exists (effects s). split; [| reflexivity].
    unfold exec, bind, modify.
    rewrite (cleanup_after_flag None (put_localVideoRef None (put_remoteVideoRef None s)) F).
    cbn [snd]. rewrite put_effects_same. rewrite <- C at 2. now destruct s.
Qed.

Lemma triggers_after_cleanup (later : list Trigger) :
  forall s,
    hasCleanedUpRef s = true -> commit s = s ->
    exists log,
      run s (map triggerEvent later) = put_effects log s /\
      engineCalls log = engineCalls (effects s).
Proof.
  induction later as [|t later IH]; intros s F C; simpl.
  - exists (effects s). now rewrite put_effects_same.
  - destruct (trigger_after_cleanup t s F C) as (l1 & E1 & G1).
    rewrite E1.
    destruct (IH (put_effects l1 s)) as (l2 & E2 & G2).
    + exact F.
    + now rewrite commit_put_effects, C.
    + exists l2. split; [exact E2 | now rewrite G2].
Qed.

(** A trigger is its [cleanup()], between what it does before and what it
    tells afterwards. *)
Lemma trigger_step (t : Trigger) (s : State) :
  step s (triggerEvent t)
  = commit
      (put_effects
         (effects (exec (cleanup (closureOf t s)) (beforeCleanup t s)) ++ afterCleanup t)
         (exec (cleanup (closureOf t s)) (beforeCleanup t s))).
Proof.
  unfold step. f_equal.
  destruct t; unfold triggerEvent, handler, closureOf, beforeCleanup, afterCleanup,
                endCall, handleCallEnded.
  - rewrite (exec_bind_normal (emit "call-ended" [("to", FValue peerId)]) _ s
               (appendLog (Emitted "call-ended" [("to", FValue peerId)]) s) tt eq_refl).
    destruct (safe_run _ (appendLog (Emitted "call-ended" [("to", FValue peerId)]) s)
                (safe_cleanup (localStream s))) as ([] & s1 & E).
    rewrite (exec_bind_normal _ _ _ _ _ E). unfold exec at 2 3. rewrite E. reflexivity.
  - destruct (safe_run _ s (safe_cleanup None)) as ([] & s1 & E).
    rewrite (exec_bind_normal _ _ _ _ _ E). unfold exec at 2 3. rewrite E. reflexivity.
  - rewrite app_nil_r, put_effects_same. reflexivity.
Qed.

(** C9. After the first invocation of [cleanup()] (one that finds
    [hasCleanedUpRef] unset), from any state: no local stream, no remote
    stream, no connection, no aggregated remote stream, an empty buffer of
    pending candidates, the call not accepted, both audio levels 0, and
    recording inactive: [isRecording] is false, the session holds no
    recorder, and a recorder that was recording has been stopped. The
    connection that the session held, if any, has been closed. *)
Theorem cleanup_resets_session_state (s : State) (closure_localStream : option MediaStream) :
  hasCleanedUpRef s = false ->
  let s' := exec (cleanup closure_localStream) s in
  localStream s' = None /\
  remoteStream s' = None /\
  peerConnectionRef s' = None /\
  remoteMediaStreamRef s' = None /\
  pendingRemoteIceCandidatesRef s' = [] /\
  callAccepted s' = false /\
  localAudioLevel s' = 0%Z /\
  remoteAudioLevel s' = 0%Z /\
  isRecording s' = false /\
  mediaRecorderRef s' = None /\
  audioChunksRef s' = [] /\
  localAnalyserRef s' = None /\
  remoteAnalyserRef s' = None /\
  (forall r, mediaRecorderRef s = Some r -> recorder_state r = recording ->
     In (Did "mediaRecorder.stop") (effects s')) /\
  (forall pc, peerConnectionRef s = Some pc ->
     exists ok, In (Called PcClose ok) (effects s')).
Proof.
  intros F. destruct (cleanup_first_run closure_localStream s F) as (s2 & D & _ & E).
  unfold exec. rewrite E. simpl. repeat split; try reflexivity.
  - intros r Hr Hst. rewrite D.
    now apply (releaseResources_stops_recorder closure_localStream _ r).
  - intros pc Hpc. rewrite D.
    now apply (releaseResources_closes_connection closure_localStream _ pc).
Qed.

(** *** The flush of the buffered candidates *)

Lemma engineCalls_flushTrace (msg : string) (candidates : list IceCandidate) :
  forall log,
    engineCalls (flushTrace msg candidates log)
    = (engineCalls log ++ map PcAddIceCandidate candidates)%list.
Proof.
  induction candidates as [|c rest IH]; intros log; simpl.
  - now rewrite app_nil_r.
  - destruct (fails log (PcAddIceCandidate c)); rewrite IH;
      repeat rewrite engineCalls_app; simpl;
      repeat rewrite app_nil_r; now rewrite <- app_assoc.
Qed.

(** The loop goes through the whole buffer and completes normally, whatever
    the platform answers: only the trace changes. *)
Lemma flushLoop_run (msg : string) (candidates : list IceCandidate) :
  forall s,
    forEach candidates
      (fun candidate =>
         tryCatch (pc_addIceCandidate candidate) (fun _ => console Error msg)) s
    = (Normal tt, put_effects (flushTrace msg candidates (effects s)) s).
Proof.
  induction candidates as [|c rest IH]; intros s.
  - simpl. unfold ret. now rewrite put_effects_same.
  - simpl forEach. unfold bind at 1. unfold tryCatch, pc_addIceCandidate, call.
    simpl flushTrace.
    destruct (fails (effects s) (PcAddIceCandidate c)) as [message|].
    + unfold console, record, modify. rewrite IH. reflexivity.
    + rewrite IH. reflexivity.
Qed.

Lemma flushPending_run (msg : string) (s : State) :
  flushPending msg s
  = (Normal tt,
     put_pendingRemoteIceCandidatesRef []
       (put_effects (flushTrace msg (pendingRemoteIceCandidatesRef s) (effects s)) s)).
Proof.
  unfold flushPending. unfold bind at 1. unfold get at 1.
  destruct (pendingRemoteIceCandidatesRef s) as [|c rest] eqn:E.
  - simpl. unfold ret. f_equal. destruct s; simpl in *. now subst.
  - change (0 <? length (c :: rest))%nat with true. unfold when.
    unfold bind. rewrite flushLoop_run. reflexivity.
Qed.

Lemma safe_handleCallAnswer (data_answer : option SessionDescription) :
  safe (handleCallAnswer data_answer).
Proof. repeat safe_step. Qed.

(** C5. During a flush, a candidate that the connection refuses is logged
    and skipped: for every buffer and every way the platform refuses
    candidates, [addIceCandidate] is called for every buffered candidate,
    in order, the buffer ends empty, and the flush completes normally; so
    does [handleCallAnswer] as a whole. *)
Theorem flush_absorbs_candidate_failures (msg : string) (s : State) :
  let s' := exec (flushPending msg) s in
  completion (flushPending msg) s = Normal tt /\
  engineCalls (effects s')
    = (engineCalls (effects s)
       ++ map PcAddIceCandidate (pendingRemoteIceCandidatesRef s))%list /\
  effects s' = flushTrace msg (pendingRemoteIceCandidatesRef s) (effects s) /\
  pendingRemoteIceCandidatesRef s' = [] /\
  (forall data_answer, completion (handleCallAnswer data_answer) s = Normal tt).
Proof.
  unfold exec, completion. rewrite flushPending_run. simpl.
  repeat split.
  - apply engineCalls_flushTrace.
  - intros data_answer.
    destruct (safe_handleCallAnswer data_answer s) as [[] H]. exact H.
Qed.

(** *** Answers *)

Lemma handleCallAnswer_accepted (s : State) (pc : RTCPeerConnection)
    (answer : SessionDescription) :
  peerConnectionRef s = Some pc ->
  fails (effects s) (PcSetRemoteDescription answer) = None ->
  handleCallAnswer (Some answer) s
  = (Normal tt,
     put_pendingRemoteIceCandidatesRef []
       (put_effects
          (flushTrace "Error applying buffered ICE candidate after answer"
             (pendingRemoteIceCandidatesRef s)
             (effects s ++ [Called (PcSetRemoteDescription answer) true]))
          (put_peerConnectionRef (Some (withRemoteDescription answer pc)) s))).
Proof.
  intros Hpc Hok. unfold handleCallAnswer. unfold bind at 1. unfold get at 1.
  rewrite Hpc. unfold tryCatch, pc_setRemoteDescription.
  unfold bind at 1. unfold bind at 1. unfold call at 1. rewrite Hok.
  unfold updatePc, modify. rewrite flushPending_run. simpl.
  rewrite Hpc. reflexivity.
Qed.

Lemma handleCallAnswer_refused (s : State) (pc : RTCPeerConnection)
    (answer : SessionDescription) (message : string) :
  peerConnectionRef s = Some pc ->
  fails (effects s) (PcSetRemoteDescription answer) = Some message ->
  handleCallAnswer (Some answer) s
  = (Normal tt,
     put_effects
       ((effects s ++ [Called (PcSetRemoteDescription answer) false])
          ++ [Console Error "Error setting remote description"]) s).
Proof.
  intros Hpc Hno. unfold handleCallAnswer. unfold bind at 1. unfold get at 1.
  rewrite Hpc. unfold tryCatch, pc_setRemoteDescription.
  unfold bind at 1. unfold bind at 1. unfold call at 1. rewrite Hno.
  reflexivity.
Qed.

(** X26. [handleCallAnswer] keeps no record of an earlier answer and does
    not look for a local description: whenever the session holds a
    connection, an answer it receives is handed to
    [setRemoteDescription]. If the connection accepts it, it becomes the
    remote description and the buffer is flushed; only if the connection
    itself refuses it is it not applied, and then the connection and the
    buffer stay as they were. Without a connection, or without an answer
    in the message, nothing is called. *)
Theorem answer_always_submitted (s : State) (answer : SessionDescription) :
  let s' := exec (handleCallAnswer (Some answer)) s in
  match peerConnectionRef s with
  | Some pc =>
      match fails (effects s) (PcSetRemoteDescription answer) with
      | None =>
          peerConnectionRef s' = Some (withRemoteDescription answer pc) /\
          pendingRemoteIceCandidatesRef s' = [] /\
          engineCalls (effects s')
          = (engineCalls (effects s)
             ++ PcSetRemoteDescription answer
                :: map PcAddIceCandidate (pendingRemoteIceCandidatesRef s))%list
      | Some _ =>
          peerConnectionRef s' = Some pc /\
          pendingRemoteIceCandidatesRef s' = pendingRemoteIceCandidatesRef s /\
          engineCalls (effects s')
          = (engineCalls (effects s) ++ [PcSetRemoteDescription answer])%list
      end
  | None =>
      peerConnectionRef s' = None /\
      pendingRemoteIceCandidatesRef s' = pendingRemoteIceCandidatesRef s /\
      engineCalls (effects s') = engineCalls (effects s)
  end /\
  engineCalls (effects (exec (handleCallAnswer None) s)) = engineCalls (effects s).
Proof.
  cbv zeta. split.
  - destruct (peerConnectionRef s) as [pc|] eqn:Hpc.
    + destruct (fails (effects s) (PcSetRemoteDescription answer)) as [message|] eqn:F.
      * unfold exec. rewrite (handleCallAnswer_refused s pc answer message Hpc F). simpl.
        repeat split; [exact Hpc |].
        repeat rewrite engineCalls_app. simpl. now rewrite app_nil_r.
      * unfold exec. rewrite (handleCallAnswer_accepted s pc answer Hpc F). simpl.
        repeat split.
        rewrite engineCalls_flushTrace, engineCalls_app. simpl.
        now rewrite <- app_assoc.
    + unfold exec, handleCallAnswer, bind, get. rewrite Hpc. simpl.
      repeat split; [exact Hpc |].
      rewrite engineCalls_app. simpl. now rewrite app_nil_r.
  - unfold exec, handleCallAnswer, bind, get.
    destruct (peerConnectionRef s); simpl;
      rewrite engineCalls_app; simpl; now rewrite app_nil_r.
Qed.

(** *** Candidates never precede the remote description *)
















(** *** Buffering, then flushing in arrival order *)

Lemma tryCatch_bind_normal {A B : Type} (m : JS A) (k : A -> JS B) (h : string -> JS B)
    (s s' : State) (a : A) :
  m s = (Normal a, s') -> tryCatch (bind m k) h s = tryCatch (k a) h s'.
Proof. intros E. unfold tryCatch, bind. now rewrite E. Qed.

Lemma tryCatch_bind_bind {A B C : Type} (m : JS A) (f : A -> JS B) (g : B -> JS C)
    (h : string -> JS C) (s : State) :
  tryCatch (bind (bind m f) g) h s
  = tryCatch (bind m (fun a => bind (f a) g)) h s.
Proof.
  unfold tryCatch, bind. destruct (m s) as [[a|e] s1]; [| reflexivity].
  destruct (f a s1) as [[b|e] s2]; reflexivity.
Qed.








(** *** Remote tracks *)

Lemma ontrack_run (track : MediaStreamTrack) (s : State) :
  let s' := exec (ontrack track) s in
  completion (ontrack track) s = Normal tt /\
  remoteMediaStreamRef s' = Some (addTrackOnce track (aggregated s)) /\
  remoteStream s' = Some (addTrackOnce track (aggregated s)) /\
  callAccepted s' = true.
Proof.
  unfold exec, completion, ontrack, setupAudioLevelMonitoring, aggregated, addTrackOnce.
  unfold bind, get, when, tryCatch, call, console, record, modify, ret.
  cbv beta zeta.
  destruct (remoteMediaStreamRef s) as [stream|] eqn:E; simpl; rewrite ?E;
    match goal with
    | |- context [fails ?l ?o] => destruct (fails l o)
    end; simpl; repeat split; reflexivity.
Qed.

Lemma existsb_after_add (track : MediaStreamTrack) (stream : MediaStream) :
  existsb (fun t => String.eqb (track_id t) (track_id track))
    (addTrackOnce track stream) = true.
Proof.
  unfold addTrackOnce.
  destruct (existsb _ stream) eqn:E; [exact E |].
  rewrite existsb_app. simpl. rewrite String.eqb_refl. now rewrite orb_true_r.
Qed.

Lemma addTrackOnce_twice (track : MediaStreamTrack) (stream : MediaStream) :
  addTrackOnce track (addTrackOnce track stream) = addTrackOnce track stream.
Proof.
  unfold addTrackOnce at 1. now rewrite existsb_after_add.
Qed.

Lemma addTrackOnce_distinct (track : MediaStreamTrack) (stream : MediaStream) :
  NoDup (map track_id stream) -> NoDup (map track_id (addTrackOnce track stream)).
Proof.
  intros H. unfold addTrackOnce.
  destruct (existsb _ stream) eqn:E; [exact H |].
  rewrite map_app. simpl.
  apply NoDup_app; [exact H | repeat constructor; intros [] |].
  intros id Hin [Heq|[]]. subst id.
  apply in_map_iff in Hin. destruct Hin as (t & Ht & Hin).
  assert (X : existsb (fun t => String.eqb (track_id t) (track_id track)) stream = true).
  { apply existsb_exists. exists t. split; [exact Hin |]. rewrite Ht. apply String.eqb_refl. }
  congruence.
Qed.

Lemma ontrack_distinct (track : MediaStreamTrack) :
  preserves remoteTracksDistinct (ontrack track).
Proof.
  intros s H. destruct (ontrack_run track s) as (_ & R & _).
  unfold remoteTracksDistinct in *. rewrite R.
  apply addTrackOnce_distinct. unfold aggregated.
  destruct (remoteMediaStreamRef s); [exact H | constructor].
Qed.

Lemma remoteTracksDistinct_frame (s s' : State) :
  remoteMediaStreamRef s' = remoteMediaStreamRef s ->
  remoteTracksDistinct s -> remoteTracksDistinct s'.
Proof. unfold remoteTracksDistinct. intros ->. trivial. Qed.

Lemma handler_remoteTracksDistinct (s0 : State) (ev : Event) :
  preserves remoteTracksDistinct (handler s0 ev).
Proof.
  destruct ev; unfold handler;
    try (apply preserves_when, ontrack_distinct);
    repeat preserves_step;
    invariant_leaf remoteTracksDistinct_frame remoteTracksDistinct_frame.
Qed.

Lemma run_remoteTracksDistinct (evs : list Event) :
  forall s, remoteTracksDistinct s -> remoteTracksDistinct (run s evs).
Proof.
  induction evs as [|ev evs IH]; intros s H; simpl; [exact H |].
  apply IH. unfold step.
  eapply remoteTracksDistinct_frame; [| apply handler_remoteTracksDistinct, H].
  reflexivity.
Qed.

(** C6. In every run the aggregated remote stream holds each track id at
    most once: an arriving track is added unless a track with its id is
    already there, so the same track arriving twice leaves one entry; and
    every arrival, the first included, sets the accepted flag. The
    [remoteStream] cell shows the same stream. *)
Theorem remote_tracks_aggregated_once :
  (forall evs, remoteTracksDistinct (run initialState evs)) /\
  (forall (s : State) (track : MediaStreamTrack),
     let s' := exec (ontrack track) s in
     callAccepted s' = true /\
     remoteMediaStreamRef s' = Some (addTrackOnce track (aggregated s)) /\
     remoteStream s' = remoteMediaStreamRef s' /\
     remoteMediaStreamRef (exec (ontrack track) s') = remoteMediaStreamRef s') /\
  (forall track, addTrackOnce track (addTrackOnce track []) = [track]).
Proof.
  split; [| split].
  - intros evs. apply run_remoteTracksDistinct. exact I.
  - intros s track. cbv zeta.
    destruct (ontrack_run track s) as (_ & R & M & A).
    destruct (ontrack_run track (exec (ontrack track) s)) as (_ & R' & _).
    rewrite R', A, M, R. repeat split.
    unfold aggregated at 1. rewrite R. now rewrite addTrackOnce_twice.
  - intros track. unfold addTrackOnce. simpl. now rewrite String.eqb_refl.
Qed.

(** *** Mode toggles *)

Lemma flipped_flipped (t : MediaStreamTrack) : flipped (flipped t) = t.
Proof. destruct t as [i k e]. unfold flipped. simpl. now rewrite negb_involutive. Qed.

Lemma flipFirst_spec (kind : TrackKind) (stream : MediaStream) :
  match firstOfKind kind stream with
  | Some t =>
      exists pre post,
        stream = (pre ++ t :: post)%list /\ firstOfKind kind pre = None /\
        flipFirst kind stream
        = ((pre ++ flipped t :: post)%list, Some (negb (track_enabled t)))
  | None => flipFirst kind stream = (stream, None)
  end.
Proof.
  unfold firstOfKind. induction stream as [|u rest IH]; simpl; [reflexivity |].
  destruct (TrackKind_eqb (track_kind u) kind) eqn:K.
  - exists [], rest. repeat split.
  - destruct (find _ rest) as [t|].
    + destruct IH as (pre & post & E & N & F).
      exists (u :: pre), post. simpl. rewrite K, F, E. repeat split. exact N.
    + now rewrite IH.
Qed.

Lemma flipFirst_twice (kind : TrackKind) (stream : MediaStream) :
  fst (flipFirst kind (fst (flipFirst kind stream))) = stream.
Proof.
  induction stream as [|u rest IH]; simpl; [reflexivity |].
  destruct (TrackKind_eqb (track_kind u) kind) eqn:K; simpl.
  - rewrite K. simpl. now rewrite flipped_flipped.
  - destruct (flipFirst kind rest) as [rest' flag] eqn:F. simpl in *. rewrite K.
    destruct (flipFirst kind rest') as [rest'' flag'] eqn:F'. simpl in *. now rewrite IH.
Qed.

Lemma flipFirst_none (kind : TrackKind) (stream stream' : MediaStream) :
  flipFirst kind stream = (stream', None) ->
  stream' = stream /\ firstOfKind kind stream = None.
Proof.
  intros H. pose proof (flipFirst_spec kind stream) as S.
  destruct (firstOfKind kind stream) as [t|].
  - destruct S as (pre & post & _ & _ & F). rewrite F in H. discriminate H.
  - rewrite S in H. injection H as <-. now split.
Qed.

(** What a toggle does to the state. *)
Lemma toggle_run (kind : TrackKind) (s : State) :
  toggle kind s
  = (Normal tt,
     match localStream s with
     | Some stream =>
         match flipFirst kind stream with
         | (stream', Some flag) =>
             match kind with
             | VideoKind => setIsVideoEnabled flag (setLocalStream (Some stream') s)
             | AudioKind => setIsAudioEnabled flag (setLocalStream (Some stream') s)
             end
         | (_, None) => s
         end
     | None => s
     end).
Proof.
  destruct kind; unfold toggle, toggleAudio, toggleVideo, bind, get, modify, ret;
    destruct (localStream s) as [stream|]; try reflexivity;
    destruct (flipFirst _ stream) as [stream' [flag|]]; reflexivity.
Qed.

Lemma toggle_localStream (kind : TrackKind) (s : State) :
  localStream (exec (toggle kind) s)
  = option_map (fun stream => fst (flipFirst kind stream)) (localStream s).
Proof.
  unfold exec. rewrite toggle_run. simpl.
  destruct (localStream s) as [stream|] eqn:L; simpl; [| exact L].
  destruct (flipFirst kind stream) as [stream' [flag|]] eqn:F; simpl.
  - destruct kind; reflexivity.
  - apply flipFirst_none in F. destruct F as [-> _]. exact L.
Qed.

(** C7. For every session state and either kind: the toggle completes
    normally, calls nothing on the platform and sends nothing (so no
    renegotiation), and leaves the connection as it is; if the local stream
    has a track of the kind, exactly the first such track has its [enabled]
    flag flipped and the flag is published; if there is no local stream or
    no such track, the state is unchanged; toggling twice restores the
    tracks. *)
Theorem toggle_flips_first_track (kind : TrackKind) (s : State) :
  let s' := exec (toggle kind) s in
  completion (toggle kind) s = Normal tt /\
  effects s' = effects s /\
  peerConnectionRef s' = peerConnectionRef s /\
  match localStream s with
  | Some stream =>
      match firstOfKind kind stream with
      | Some t =>
          exists pre post,
            stream = (pre ++ t :: post)%list /\
            firstOfKind kind pre = None /\
            localStream s' = Some (pre ++ flipped t :: post)%list /\
            enabledFlag kind s' = negb (track_enabled t)
      | None => s' = s
      end
  | None => s' = s
  end /\
  localStream (exec (toggle kind) s') = localStream s.
Proof.
  cbv zeta. split; [| split; [| split; [| split]]].
  - unfold completion. now rewrite toggle_run.
  - unfold exec. rewrite toggle_run. simpl.
    destruct (localStream s) as [stream|]; [| reflexivity].
    destruct (flipFirst kind stream) as [stream' [flag|]]; [| reflexivity].
    destruct kind; reflexivity.
  - unfold exec. rewrite toggle_run. simpl.
    destruct (localStream s) as [stream|]; [| reflexivity].
    destruct (flipFirst kind stream) as [stream' [flag|]]; [| reflexivity].
    destruct kind; reflexivity.
  - unfold exec. rewrite toggle_run. simpl.
    destruct (localStream s) as [stream|]; [| reflexivity].
    pose proof (flipFirst_spec kind stream) as S.
    destruct (firstOfKind kind stream) as [t|].
    + destruct S as (pre & post & E & N & F). exists pre, post.
      rewrite F. destruct kind; simpl; now repeat split.
    + now rewrite S.
  - rewrite !toggle_localStream.
    destruct (localStream s) as [stream|]; simpl; [| reflexivity].
    now rewrite flipFirst_twice.
Qed.

(** *** The relay configuration *)

Lemma call_ok (op : Op) (s : State) :
  fails (effects s) op = None -> call op s = (Normal tt, appendLog (Called op true) s).
Proof. intros F. unfold call. now rewrite F. Qed.

Lemma iceServers_withRelayPolicy (rtcConfig : RtcConfig) :
  iceServers (withRelayPolicy rtcConfig) = iceServers rtcConfig.
Proof. unfold withRelayPolicy. now destruct forceRelayOnly. Qed.

Lemma alerts_appendLog (e : LogEntry) (s : State) :
  isAlert e = false -> alerts (appendLog e s) = alerts s.
Proof.
  intros H. unfold alerts, appendLog. simpl. rewrite filter_app. simpl.
  rewrite H. apply app_nil_r.
Qed.

(** The configuration that [resolveRtcConfig] yields depends on the reply
    only; the request never throws and tells nobody. *)
Lemma resolveRtcConfig_run (ack : TurnAck) :
  exists rtcConfig,
    (forall s, exists s',
        resolveRtcConfig ack s = (Normal rtcConfig, s') /\ alerts s' = alerts s) /\
    (timedOut ack ->
       iceServers rtcConfig = (defaultIceServers ++ envTurnServers)%list) /\
    (unusableReply ack -> iceServers rtcConfig = defaultIceServers) /\
    iceTransportPolicy rtcConfig
    = (if forceRelayOnly then Some "relay"
       else match ack with
            | AckAfter ms (Some reply) =>
                if (ms <? turnConfigTimeout)%nat
                then match turn_iceServers reply with
                     | Some _ => turn_iceTransportPolicy reply
                     | None => None
                     end
                else None
            | _ => None
            end).
Proof.
  assert (Late : exists rtcConfig,
    (forall s, exists s',
        tryCatch
          (bind (throw "TURN config timeout")
             (fun turnConfig : option TurnConfig =>
                match turnConfig with
                | Some reply =>
                    match turn_iceServers reply with
                    | Some servers =>
                        ret {| iceServers := servers;
                               iceTransportPolicy := turn_iceTransportPolicy reply |}
                    | None =>
                        ret {| iceServers := defaultIceServers; iceTransportPolicy := None |}
                    end
                | None => ret {| iceServers := defaultIceServers; iceTransportPolicy := None |}
                end))
          (fun _ =>
             console Warn "Failed to get TURN config from backend, using fallback" ;;
             ret {| iceServers := (defaultIceServers ++ envTurnServers)%list;
                    iceTransportPolicy := None |}) s
        = (Normal rtcConfig, s') /\ alerts s' = alerts s) /\
    iceServers rtcConfig = (defaultIceServers ++ envTurnServers)%list /\
    iceTransportPolicy rtcConfig = None).
  { exists {| iceServers := (defaultIceServers ++ envTurnServers)%list;
              iceTransportPolicy := None |}.
    split; [| split; reflexivity].
    intros s. eexists. split; [reflexivity |].
    apply alerts_appendLog. reflexivity. }
  destruct Late as (late & Hlate & Sl & Pl).
  unfold resolveRtcConfig, awaitTurnConfig.
  destruct ack as [|ms config].
  - exists (withRelayPolicy late). repeat split.
    + intros s. destruct (Hlate s) as (s' & E & A). exists s'. split; [| exact A].
      unfold bind at 1. now rewrite E.
    + intros _. now rewrite iceServers_withRelayPolicy.
    + intros [].
    + unfold withRelayPolicy. destruct forceRelayOnly; [reflexivity | exact Pl].
  - destruct (ms <? turnConfigTimeout)%nat eqn:T.
    + apply Nat.ltb_lt in T.
      exists (withRelayPolicy
                match config with
                | Some reply =>
                    match turn_iceServers reply with
                    | Some servers =>
                        {| iceServers := servers;
                           iceTransportPolicy := turn_iceTransportPolicy reply |}
                    | None => {| iceServers := defaultIceServers; iceTransportPolicy := None |}
                    end
                | None => {| iceServers := defaultIceServers; iceTransportPolicy := None |}
                end).
      repeat split.
      * intros s. exists s. split; [| reflexivity].
        unfold bind, tryCatch, ret.
        destruct config as [reply|]; [destruct (turn_iceServers reply) |]; reflexivity.
      * simpl. lia.
      * intros [_ U]. rewrite iceServers_withRelayPolicy.
        destruct config as [reply|]; [now rewrite U | reflexivity].
      * unfold withRelayPolicy. destruct forceRelayOnly; [reflexivity |].
        destruct config as [reply|]; [destruct (turn_iceServers reply) |]; reflexivity.
    + apply Nat.ltb_ge in T.
      exists (withRelayPolicy late). repeat split.
      * intros s. destruct (Hlate s) as (s' & E & A). exists s'. split; [| exact A].
        unfold bind at 1. now rewrite E.
      * intros _. now rewrite iceServers_withRelayPolicy.
      * simpl. lia.
      * unfold withRelayPolicy. destruct forceRelayOnly; [reflexivity |].
        rewrite Pl. now destruct config.
Qed.

Lemma addTracks_run (stream : MediaStream) :
  connectionCanBeBuilt ->
  forall s, exists s',
    forEach stream (fun track => call (PcAddTrack (track_id track))) s = (Normal tt, s') /\
    alerts s' = alerts s.
Proof.
  intros Ok. induction stream as [|t rest IH]; intros s; simpl.
  - now exists s.
  - pose proof (Ok (effects s) (PcAddTrack (track_id t))) as F. simpl in F.
    destruct (IH (appendLog (Called (PcAddTrack (track_id t)) true) s)) as (s' & E & A).
    exists s'. split.
    + rewrite (bind_normal _ _ _ _ _ (call_ok _ _ F)). exact E.
    + rewrite A. now apply alerts_appendLog.
Qed.

(** When the platform lets the connection be built, [initializeCall] builds
    it with the configuration that [resolveRtcConfig] yields, whatever
    became of the request. *)
Lemma initializeCall_connect_run (stream : MediaStream) (ack : TurnAck) (s : State) :
  connectionCanBeBuilt ->
  exists rtcConfig s1 s',
    resolveRtcConfig ack s = (Normal rtcConfig, s1) /\
    initializeCall_connect stream ack s = (Normal tt, s') /\
    peerConnectionRef s'
    = Some {| configuration := rtcConfig;
              remoteDescription := None;
              localDescription := None;
              senders := map (fun track => Some (track_id track)) stream |} /\
    initStage s' = AwaitingNegotiation /\
    alerts s' = alerts s.
Proof.
  intros Ok. unfold initializeCall_connect.
  destruct (resolveRtcConfig_run ack) as (rtcConfig & R & _).
  destruct (R s) as (s1 & E1 & A1).
  rewrite (tryCatch_bind_normal _ _ _ _ _ _ E1).
  pose proof (Ok (effects s1) (NewRTCPeerConnection rtcConfig)) as F2. simpl in F2.
  rewrite (tryCatch_bind_normal _ _ _ _ _ _ (call_ok _ _ F2)).
  destruct (addTracks_run stream Ok
              (appendLog (Called (NewRTCPeerConnection rtcConfig) true) s1))
    as (s3 & E3 & A3).
  rewrite (tryCatch_bind_normal _ _ _ _ _ _ E3).
  erewrite tryCatch_bind_normal by reflexivity.
  exists rtcConfig, s1. eexists. split; [exact E1 |]. split; [reflexivity |].
  simpl. repeat split.
  change (alerts s3 = alerts s). rewrite A3.
  rewrite alerts_appendLog by reflexivity. exact A1.
Qed.

Lemma envTurnServers_cases :
  envTurnServers = [] \/
  exists turnUrl turnSecret,
    VITE_TURN_SERVER env = Some turnUrl /\ VITE_TURN_SECRET env = Some turnSecret /\
    envTurnServers
    = [ turnServer ("turn:" ++ turnUrl ++ "?transport=udp") turnSecret;
        turnServer ("turn:" ++ turnUrl ++ "?transport=tcp") turnSecret ].
Proof.
  unfold envTurnServers.
  destruct (VITE_TURN_SERVER env) as [turnUrl|]; [| now left].
  destruct (VITE_TURN_SECRET env) as [turnSecret|]; [| now left].
  destruct (negb (String.eqb turnUrl "") && negb (String.eqb turnSecret ""));
    [right | now left].
  now exists turnUrl, turnSecret.
Qed.

(** C8. If the request for the relay configuration gets no reply within
    the 5000 ms of the timer, or is answered without a configuration, then
    [resolveRtcConfig] completes normally, tells nobody, and yields the
    default configuration: the three public STUN servers, followed after a
    timeout by the two relay entries built from the environment when these
    are configured. Initialization goes on: when the platform lets the
    connection be built, it is built with that configuration and no failure
    is reported. *)
Theorem relay_config_falls_back (ack : TurnAck) (stream : MediaStream) (s : State) :
  timedOut ack \/ unusableReply ack ->
  (exists rtcConfig,
     (exists s', resolveRtcConfig ack s = (Normal rtcConfig, s') /\ alerts s' = alerts s) /\
     (connectionCanBeBuilt ->
      exists s',
        initializeCall_connect stream ack s = (Normal tt, s') /\
        peerConnectionRef s'
        = Some {| configuration := rtcConfig;
                  remoteDescription := None;
                  localDescription := None;
                  senders := map (fun track => Some (track_id track)) stream |} /\
        initStage s' = AwaitingNegotiation /\
        alerts s' = alerts s) /\
     (timedOut ack ->
        iceServers rtcConfig = (defaultIceServers ++ envTurnServers)%list) /\
     (unusableReply ack -> iceServers rtcConfig = defaultIceServers) /\
     iceTransportPolicy rtcConfig = (if forceRelayOnly then Some "relay" else None)) /\
  (envTurnServers = [] \/
   exists turnUrl turnSecret,
     envTurnServers
     = [ turnServer ("turn:" ++ turnUrl ++ "?transport=udp") turnSecret;
         turnServer ("turn:" ++ turnUrl ++ "?transport=tcp") turnSecret ]) /\
  turnConfigTimeout = 5000%nat.
Proof.
  intros H. split; [| split; [| reflexivity]].
  - destruct (resolveRtcConfig_run ack) as (rtcConfig & R & T & U & P).
    exists rtcConfig. split; [apply R |]. split; [| split; [exact T | split; [exact U |]]].
    + intros Ok.
      destruct (initializeCall_connect_run stream ack s Ok)
        as (rtcConfig' & s1 & s' & E & Es & Hpc & Hst & Ha).
      destruct (R s) as (s1' & E' & _). rewrite E in E'. injection E' as -> _.
      exists s'. now repeat split.
    + rewrite P. destruct forceRelayOnly; [reflexivity |].
      destruct ack as [|ms config]; [reflexivity |].
      destruct H as [H|H]; simpl in H.
      * assert (X : (ms <? turnConfigTimeout)%nat = false) by (apply Nat.ltb_ge; lia).
        rewrite X. now destruct config.
      * destruct H as [_ H]. destruct config as [reply|]; [| reflexivity].
        rewrite H. now destruct (ms <? turnConfigTimeout)%nat.
  - destruct envTurnServers_cases as [E|(u & k & _ & _ & E)]; [now left | right].
    now exists u, k.
Qed.

(** *** Audio chunks *)

Lemma emitted_app (event : string) (l1 l2 : list LogEntry) :
  emitted event (l1 ++ l2) = (emitted event l1 ++ emitted event l2)%list.
Proof.
  induction l1 as [|e l1 IH]; simpl; [reflexivity |].
  destruct e as [| |event' payload| | |]; try exact IH.
  destruct (String.eqb event' event); simpl; now rewrite IH.
Qed.

Lemma emitted_In (event : string) (payload : JsObject) (log : list LogEntry) :
  In payload (emitted event log) -> In (Emitted event payload) log.
Proof.
  induction log as [|e log IH]; simpl; [trivial |].
  destruct e as [| |event' payload'| | |]; try (intros H; right; exact (IH H)).
  destruct (String.eqb event' event) eqn:E.
  - apply String.eqb_eq in E. subst event'.
    intros [<-|H]; [now left | right; exact (IH H)].
  - intros H; right; exact (IH H).
Qed.

Lemma chunksWellFormed_appendLog (e : LogEntry) (s : State) :
  chunkEntryOk e -> chunksWellFormed s -> chunksWellFormed (appendLog e s).
Proof.
  intros He H. unfold chunksWellFormed, appendLog. simpl.
  apply Forall_app. split; [exact H | now constructor].
Qed.

Lemma chunksWellFormed_frame (s s' : State) :
  effects s' = effects s -> chunksWellFormed s -> chunksWellFormed s'.
Proof. unfold chunksWellFormed. intros ->. trivial. Qed.

Lemma handler_chunksWellFormed (s0 : State) (ev : Event) :
  preserves chunksWellFormed (handler s0 ev).
Proof.
  destruct ev; unfold handler; repeat preserves_step;
    invariant_leaf chunksWellFormed_appendLog chunksWellFormed_frame.
Qed.

Lemma run_chunksWellFormed (evs : list Event) :
  forall s, chunksWellFormed s -> chunksWellFormed (run s evs).
Proof.
  induction evs as [|ev evs IH]; intros s H; simpl; [exact H |].
  apply IH. unfold step.
  eapply chunksWellFormed_frame; [| apply handler_chunksWellFormed, H]. reflexivity.
Qed.

Lemma audioChunkPayload_fields (closure_audioFormat dataURL : string) (now : N) :
  fieldNames (audioChunkPayload closure_audioFormat dataURL now) = audioChunkFields /\
  ~ hasFurtherField (audioChunkPayload closure_audioFormat dataURL now).
Proof.
  split; [reflexivity |]. intros (name & Hin & Hout). exact (Hout Hin).
Qed.

(** C4, as the code has it. Every [audio-chunk] that the component sends,
    in any run, is the object built by [audioChunkPayload]: it has exactly
    the four fields [conversationId], [audioData], [userId] and [format],
    and no further field, so none that records a sequence index. Every
    non-empty chunk that is read successfully is sent, after those sent
    before it. *)
Theorem audio_chunk_has_four_fields :
  (forall evs payload,
     In payload (emitted "audio-chunk" (effects (run initialState evs))) ->
     fieldNames payload = audioChunkFields /\
     ~ hasFurtherField payload /\
     exists dataURL now, payload = audioChunkPayload "webm" dataURL now) /\
  (forall closure_audioFormat data now s,
     (0 < blob_size data)%nat ->
     fails (effects s) ReadAsDataURL = None ->
     emitted "audio-chunk"
       (effects (exec (ondataavailable closure_audioFormat data now) s))
     = (emitted "audio-chunk" (effects s)
        ++ [audioChunkPayload closure_audioFormat (blob_dataURL data) now])%list).
Proof.
  split.
  - intros evs payload Hin.
    assert (W : chunksWellFormed (run initialState evs))
      by (apply run_chunksWellFormed; constructor).
    apply emitted_In in Hin.
    unfold chunksWellFormed in W. rewrite Forall_forall in W.
    destruct (W _ Hin eq_refl) as (dataURL & now & ->).
    destruct (audioChunkPayload_fields "webm" dataURL now) as [F N].
    split; [exact F | split; [exact N |]]. now exists dataURL, now.
  - intros closure_audioFormat data now s Hsize Hread.
    unfold exec, ondataavailable.
    apply Nat.ltb_lt in Hsize. rewrite Hsize. unfold when at 1.
    unfold bind at 1. unfold modify at 1. unfold bind at 1. unfold attempt.
    cbn [effects put_audioChunksRef]. rewrite Hread. simpl.
    rewrite !emitted_app. simpl. now rewrite app_nil_r.
Qed.

(** *** Which handlers can throw *)

Lemma safe_handler_but_record (s0 : State) (ev : Event) :
  ev <> RecordClicked -> safe (handler s0 ev).
Proof.
  intros H. destruct ev; try congruence; unfold handler; repeat safe_step.
Qed.

Lemma safe_stopAudioRecording : safe stopAudioRecording.
Proof. repeat safe_step. Qed.

(** X1. Whatever platform call fails, a handler of the session completes
    normally: every failure is caught where it happens. The one exception
    is the Record button: when the session is not recording and holds an
    inactive recorder whose [start(2000)] throws, the exception leaves the
    click handler, and [isRecording] stays false. *)
Theorem only_recorder_start_can_throw (s : State) (ev : Event) :
  match completion (handler s ev) s with
  | Normal _ => True
  | Thrown message =>
      ev = RecordClicked /\
      isRecording s = false /\
      (exists r, mediaRecorderRef s = Some r /\ recorder_state r = inactive) /\
      fails (effects s) (RecorderStart 2000) = Some message /\
      isRecording (step s ev) = false /\
      mediaRecorderRef (step s ev) = mediaRecorderRef s
  end.
Proof.
  destruct (completion (handler s ev) s) as [a|message] eqn:C; [exact I |].
  assert (E : ev = RecordClicked).
  { destruct ev; try reflexivity;
      match goal with
      | C : completion (handler s ?e) s = Thrown _ |- _ =>
          assert (N : e <> RecordClicked) by discriminate;
          destruct (safe_handler_but_record s e N s) as [b Hb]; congruence
      end. }
  subst ev. split; [reflexivity |].
  unfold step, exec. unfold completion in C. unfold handler in *.
  destruct (isRecording s) eqn:R.
  - destruct (safe_stopAudioRecording s) as [b Hb]. unfold completion in Hb. congruence.
  - split; [reflexivity |].
    unfold startAudioRecording, bind, get in *.
    destruct (mediaRecorderRef s) as [r|] eqn:M; [| discriminate C].
    destruct (recorder_state r) eqn:St; try discriminate C.
    unfold call in *.
    destruct (fails (effects s) (RecorderStart 2000)) as [m|] eqn:F; [| discriminate C].
    simpl in C. injection C as <-.
    split; [now exists r |]. split; [reflexivity |]. simpl. split; [exact R | exact M].
Qed.

(** *** What is sent *)

Lemma traceAll_appendLog (Q : LogEntry -> Prop) (e : LogEntry) (s : State) :
  Q e -> traceAll Q s -> traceAll Q (appendLog e s).
Proof.
  intros He H. unfold traceAll, appendLog. simpl.
  apply Forall_app. split; [exact H | now constructor].
Qed.

Lemma traceAll_frame (Q : LogEntry -> Prop) (s s' : State) :
  effects s' = effects s -> traceAll Q s -> traceAll Q s'.
Proof. unfold traceAll. intros ->. trivial. Qed.

Lemma run_traceAll (Q : LogEntry -> Prop) :
  (forall s0 ev, preserves (traceAll Q) (handler s0 ev)) ->
  forall evs s, traceAll Q s -> traceAll Q (run s evs).
Proof.
  intros Hh. induction evs as [|ev evs IH]; intros s H; simpl; [exact H |].
  apply IH. unfold step.
  eapply traceAll_frame; [| apply Hh, H]. reflexivity.
Qed.

Lemma sentAs_appendLog (event : string) (sent : list JsObject) (e : LogEntry) (s : State) :
  match e with Emitted name _ => String.eqb name event | _ => false end = false ->
  sentAs event sent s -> sentAs event sent (appendLog e s).
Proof.
  unfold sentAs, appendLog. simpl. intros He <-. rewrite emitted_app.
  destruct e; simpl in *; try apply app_nil_r. rewrite He. apply app_nil_r.
Qed.

Lemma sentAs_frame (event : string) (sent : list JsObject) (s s' : State) :
  effects s' = effects s -> sentAs event sent s -> sentAs event sent s'.
Proof. unfold sentAs. intros ->. trivial. Qed.

Lemma handleCallEnded_sends_nothing (event : string) (sent : list JsObject)
    (closure_localStream : option MediaStream) :
  preserves (sentAs event sent) (handleCallEnded closure_localStream).
Proof. repeat preserves_step; invariant_leaf sentAs_appendLog sentAs_frame. Qed.

Lemma step_call_ended (s : State) (ev : Event) :
  emitted "call-ended" (effects (step s ev))
  = (emitted "call-ended" (effects s)
     ++ (if isEndCallClick ev then [[("to", FValue peerId)]] else []))%list.
Proof.
  unfold step.
  change (effects (commit (exec (handler s ev) s))) with (effects (exec (handler s ev) s)).
  destruct ev; unfold isEndCallClick; rewrite ?app_nil_r;
    try (match goal with
         | |- emitted ?event (effects (exec ?m ?s0)) = ?l =>
             assert (K : preserves (sentAs event l) m)
               by (unfold handler; repeat preserves_step;
                   invariant_leaf sentAs_appendLog sentAs_frame);
             exact (K s0 eq_refl)
         end).
  unfold handler, endCall.
  rewrite (exec_bind_normal (emit "call-ended" [("to", FValue peerId)]) _ s
             (appendLog (Emitted "call-ended" [("to", FValue peerId)]) s) tt eq_refl).
  apply (handleCallEnded_sends_nothing "call-ended" _ (localStream s)).
  unfold sentAs, appendLog. simpl. rewrite emitted_app. reflexivity.
Qed.

(** X2. In every run, from any state, the component sends one [call-ended]
    for each click on a hang-up button, addressed to the peer, and none
    otherwise: a hang-up received from the peer is not echoed, and an
    unmount tells the peer nothing. Clicking again sends it again. *)
Theorem call_ended_sent_per_click (s : State) (evs : list Event) :
  emitted "call-ended" (effects (run s evs))
  = (emitted "call-ended" (effects s)
     ++ repeat [("to", FValue peerId)] (length (filter isEndCallClick evs)))%list.
Proof.
  revert s. induction evs as [|ev evs IH]; intros s; simpl.
  - now rewrite app_nil_r.
  - fold (run (step s ev) evs). rewrite IH, step_call_ended.
    destruct (isEndCallClick ev); simpl.
    + now rewrite <- app_assoc.
    + now rewrite app_nil_r.
Qed.

Lemma negotiate_messageOk (created : SessionDescription) :
  preserves (traceAll messageOk) (initializeCall_negotiate created).
Proof.
  unfold initializeCall_negotiate.
  destruct (String.eqb (callType callData) "outgoing") eqn:Out;
    [apply String.eqb_eq in Out |];
    destruct (offer callData) as [theOffer|] eqn:Off;
    try (destruct (String.eqb (callType callData) "incoming") eqn:Inc;
         [apply String.eqb_eq in Inc |]);
    cbn [when];
    repeat preserves_step;
    intros; first [ assumption | apply traceAll_appendLog; [| assumption]; simpl
                  | eapply traceAll_frame; [| eassumption]; reflexivity ];
    try exact I.
  all: try (right; left; split; [reflexivity | split; [assumption | eexists; reflexivity]]).
  all: try (right; right; left; split; [reflexivity |];
            split; [assumption | split; [congruence | eexists; reflexivity]]).
Qed.

Lemma handler_messageOk (s0 : State) (ev : Event) :
  preserves (traceAll messageOk) (handler s0 ev).
Proof.
  destruct ev; unfold handler;
    repeat match goal with
           | |- preserves _ (initializeCall_negotiate _) => apply negotiate_messageOk
           | |- _ => preserves_step
           end;
    intros; first [ assumption | apply traceAll_appendLog; [| assumption]; simpl
                  | eapply traceAll_frame; [| eassumption]; reflexivity ];
    try exact I.
  all: try (left; split; reflexivity).
  all: try (do 3 right; left; split; [reflexivity | eexists; reflexivity]).
  all: try (do 4 right; left; split; reflexivity).
  all: try (do 5 right; reflexivity).
Qed.

(** X3. Everything the component sends over the socket, in any run, is one
    of the six messages of [messageOk]: in particular an offer is sent only
    on an outgoing call and to the callee, an answer only on an incoming
    call that came with an offer and to the caller, and candidates and the
    hang-up go to the peer of the call. *)
Theorem only_protocol_messages_are_sent (evs : list Event) :
  Forall messageOk (effects (run initialState evs)).
Proof. apply (run_traceAll messageOk handler_messageOk). constructor. Qed.

Lemma handler_recorderCallOk (s0 : State) (ev : Event) :
  preserves (traceAll recorderCallOk) (handler s0 ev).
Proof.
  destruct ev; unfold handler; repeat preserves_step;
    intros; first [ assumption | apply traceAll_appendLog; [| assumption]; simpl
                  | eapply traceAll_frame; [| eassumption]; reflexivity ];
    try exact I; try reflexivity.
  all: match goal with
       | |- context [isTypeSupported ?mimeType] => now destruct (isTypeSupported mimeType)
       end.
Qed.

(** X4. In every run the recorder is created for [audio/webm], whatever
    format is selected and whether or not the platform supports it, and it
    is started with a timeslice of 2000 ms. *)
Theorem recorder_is_always_webm (evs : list Event) :
  Forall recorderCallOk (effects (run initialState evs)).
Proof. apply (run_traceAll recorderCallOk handler_recorderCallOk). constructor. Qed.

(** *** The fields of an audio chunk *)

Lemma splitOn_nonempty (sep : ascii) (s : string) : splitOn sep s <> [].
Proof.
  destruct s as [|c s']; simpl; [discriminate |].
  destruct (Ascii.eqb c sep); [discriminate |].
  destruct (splitOn sep s'); discriminate.
Qed.

Lemma splitOn_no_separator (sep : ascii) (s : string) :
  noSeparator sep s = true -> splitOn sep s = [s].
Proof.
  induction s as [|c s' IH]; simpl; [reflexivity |].
  unfold noSeparator. simpl. intros H. apply andb_prop in H as [Hc Hs].
  apply negb_true_iff in Hc. rewrite Hc. now rewrite (IH Hs).
Qed.

Lemma splitOn_header (sep : ascii) (header rest : string) :
  noSeparator sep header = true ->
  splitOn sep (header ++ String sep rest) = header :: splitOn sep rest.
Proof.
  induction header as [|c header' IH]; simpl.
  - intros _. now rewrite Ascii.eqb_refl.
  - unfold noSeparator. simpl. intros H. apply andb_prop in H as [Hc Hs].
    apply negb_true_iff in Hc. rewrite Hc. now rewrite (IH Hs).
Qed.

(** Joining the pieces with the separator gives the string back. *)
Lemma splitOn_concat (sep : ascii) (s : string) :
  String.concat (String sep "") (splitOn sep s) = s.
Proof.
  induction s as [|c s' IH]; simpl; [reflexivity |].
  destruct (Ascii.eqb_spec c sep) as [->|N].
  - pose proof (splitOn_nonempty sep s') as Ne.
    destruct (splitOn sep s') as [|piece pieces]; [congruence |].
    simpl in *. now rewrite IH.
  - pose proof (splitOn_nonempty sep s') as Ne.
    destruct (splitOn sep s') as [|piece pieces]; [congruence |].
    simpl in *. destruct pieces; simpl in *; now rewrite <- IH.
Qed.

(** X5. [audioData] is the part of the data URL between its first and its
    second comma: for a data URL [header,rest] whose header has no comma it
    is [rest] up to its first comma, so the whole base64 body when that has
    no comma; for a result without a comma it is [undefined]. The pieces
    that [split] yields, joined by commas, give the data URL back. *)
Theorem audio_data_is_the_body_of_the_url (closure_audioFormat : string) (now : N) :
  (forall header rest : string,
     noSeparator "," header = true ->
     fieldOf "audioData"
       (audioChunkPayload closure_audioFormat (header ++ String "," rest) now)
     = Some (FValue (JString (hd "" (splitOn "," rest)))) /\
     (noSeparator "," rest = true -> hd "" (splitOn "," rest) = rest)) /\
  (forall dataURL : string,
     noSeparator "," dataURL = true ->
     fieldOf "audioData" (audioChunkPayload closure_audioFormat dataURL now)
     = Some (FValue JUndefined)) /\
  (forall dataURL : string, String.concat "," (splitOn "," dataURL) = dataURL).
Proof.
  split; [| split].
  - intros header rest H. split.
    + unfold fieldOf, audioChunkPayload. simpl.
      rewrite (splitOn_header _ _ _ H). simpl.
      pose proof (splitOn_nonempty "," rest) as Ne.
      destruct (splitOn "," rest); [congruence | reflexivity].
    + intros Hr. now rewrite (splitOn_no_separator _ _ Hr).
  - intros dataURL H. unfold fieldOf, audioChunkPayload. simpl.
    now rewrite (splitOn_no_separator _ _ H).
  - intros dataURL. apply splitOn_concat.
Qed.

Lemma append_same_prefix (prefix a b : string) :
  (prefix ++ a = prefix ++ b)%string -> a = b.
Proof.
  induction prefix as [|c prefix' IH]; simpl; [trivial |].
  intros H. injection H as H. exact (IH H).
Qed.

Lemma to_uint_not_nil (n : N) : N.to_uint n <> Decimal.Nil.
Proof.
  destruct n as [|p]; simpl; [discriminate |].
  apply DecimalPos.Unsigned.to_uint_nonnil.
Qed.

Lemma decimal_inj (a b : N) : decimal a = decimal b -> a = b.
Proof.
  unfold decimal. intros H.
  apply (f_equal DecimalString.NilZero.uint_of_string) in H.
  rewrite !DecimalString.NilZero.usu in H by apply to_uint_not_nil.
  injection H as H. now apply DecimalN.Unsigned.to_uint_inj.
Qed.

(** X6. When [callData] has a conversation id, every chunk carries it. When
    it has none, the id is made up for each chunk from the user id and the
    time at which the chunk is read: two chunks carry the same conversation
    id only if they were read in the same millisecond. *)
Theorem chunk_conversation_id (closure_audioFormat url1 url2 : string) (now1 now2 : N) :
  (truthy (conversationId callData) = true ->
   fieldOf "conversationId" (audioChunkPayload closure_audioFormat url1 now1)
   = Some (FValue (conversationId callData))) /\
  (truthy (conversationId callData) = false ->
   fieldOf "conversationId" (audioChunkPayload closure_audioFormat url1 now1)
   = Some (FValue (JString ("call_" ++ user_id user ++ "_" ++ decimal now1))) /\
   (fieldOf "conversationId" (audioChunkPayload closure_audioFormat url1 now1)
    = fieldOf "conversationId" (audioChunkPayload closure_audioFormat url2 now2)
    <-> now1 = now2)).
Proof.
  unfold fieldOf, audioChunkPayload. simpl. split; intros T; rewrite T.
  - reflexivity.
  - split; [reflexivity |]. split.
    + intros H. injection H as H.
      apply append_same_prefix in H. injection H as H.
      now apply decimal_inj.
    + now intros ->.
Qed.

Lemma ondataavailable_keeps_chunk (closure_audioFormat : string) (data : Blob) (now : N)
    (s : State) :
  audioChunksRef (exec (ondataavailable closure_audioFormat data now) s)
  = (audioChunksRef s ++ (if (0 <? blob_size data)%nat then [data] else []))%list.
Proof.
  unfold exec, ondataavailable.
  destruct (0 <? blob_size data)%nat; simpl; [| now rewrite app_nil_r].
  unfold bind, modify, attempt. cbn [effects put_audioChunksRef].
  destruct (fails (effects s) ReadAsDataURL); reflexivity.
Qed.

(** X7. The recorder callback never throws. An empty chunk changes
    nothing. A non-empty chunk is appended to [audioChunksRef] whether or
    not it can be read; if reading it fails, nothing is sent. Over any
    sequence of chunks [audioChunksRef] grows by the non-empty ones, in
    order: nothing takes chunks out again before [cleanup]. *)
Theorem chunks_are_kept (closure_audioFormat : string) (s : State) :
  (forall data now,
     completion (ondataavailable closure_audioFormat data now) s = Normal tt) /\
  (forall data now,
     blob_size data = 0%nat ->
     exec (ondataavailable closure_audioFormat data now) s = s) /\
  (forall data now,
     fails (effects s) ReadAsDataURL <> None ->
     emitted "audio-chunk" (effects (exec (ondataavailable closure_audioFormat data now) s))
     = emitted "audio-chunk" (effects s)) /\
  (forall chunks : list (Blob * N),
     audioChunksRef
       (fold_left
          (fun st chunk => exec (ondataavailable closure_audioFormat (fst chunk) (snd chunk)) st)
          chunks s)
     = (audioChunksRef s
        ++ filter (fun data => (0 <? blob_size data)%nat) (map fst chunks))%list).
Proof.
  split; [| split; [| split]].
  - intros data now. unfold completion, ondataavailable.
    destruct (0 <? blob_size data)%nat; simpl; [| reflexivity].
    unfold bind, modify, attempt. cbn [effects put_audioChunksRef].
    destruct (fails (effects s) ReadAsDataURL); reflexivity.
  - intros data now Z. unfold exec, ondataavailable. now rewrite Z.
  - intros data now F. unfold exec, ondataavailable.
    destruct (0 <? blob_size data)%nat; simpl; [| reflexivity].
    unfold bind, modify, attempt. cbn [effects put_audioChunksRef].
    destruct (fails (effects s) ReadAsDataURL); [| congruence].
    simpl. rewrite emitted_app. simpl. apply app_nil_r.
  - intros chunks. revert s. induction chunks as [|[data now] chunks IH]; intros s; simpl.
    + now rewrite app_nil_r.
    + rewrite IH, ondataavailable_keeps_chunk.
      destruct (0 <? blob_size data)%nat; simpl.
      * now rewrite <- app_assoc.
      * now rewrite app_nil_r.
Qed.

(** *** Initialization, stage by stage *)

Lemma run_keeping {A : Type} (P : State -> Prop) (m : JS A) (s : State) :
  safe m -> preserves P m -> P s -> exists a s1, m s = (Normal a, s1) /\ P s1.
Proof.
  intros Sm Pm Hs. destruct (safe_run m s Sm) as (a & s1 & E).
  exists a, s1. split; [exact E |].
  specialize (Pm s Hs). unfold exec in Pm. now rewrite E in Pm.
Qed.

Lemma outcome_keeping {A : Type} (P : State -> Prop) (m : JS A) (s : State) :
  preserves P m -> P s -> exists c s1, m s = (c, s1) /\ P s1.
Proof.
  intros Pm Hs. destruct (m s) as [c s1] eqn:E. exists c, s1. split; [reflexivity |].
  specialize (Pm s Hs). unfold exec in Pm. now rewrite E in Pm.
Qed.

Lemma preserves_both {A : Type} (P Q : State -> Prop) (m : JS A) :
  preserves P m -> preserves Q m -> preserves (fun s => P s /\ Q s) m.
Proof. intros Hp Hq s [H1 H2]. split; [apply Hp, H1 | apply Hq, H2]. Qed.

Lemma tryCatch_bind_thrown {A B : Type} (m : JS A) (k : A -> JS B) (h : string -> JS B)
    (s s' : State) (e : string) :
  m s = (Thrown e, s') -> tryCatch (bind m k) h s = h e s'.
Proof. intros E. unfold tryCatch, bind. now rewrite E. Qed.

Lemma call_refused (op : Op) (s : State) (message : string) :
  fails (effects s) op = Some message ->
  call op s = (Thrown message, appendLog (Called op false) s).
Proof. intros F. unfold call. now rewrite F. Qed.

Lemma tally_appendLog (w : LogEntry -> nat) (e : LogEntry) (s : State) :
  tally w (appendLog e s) = (tally w s + w e)%nat.
Proof.
  unfold tally, appendLog. simpl. rewrite map_app, list_sum_app. simpl. lia.
Qed.

Lemma sameProgress_appendLog (s0 : State) (e : LogEntry) (s : State) :
  progressQuiet e = true -> sameProgress s0 s -> sameProgress s0 (appendLog e s).
Proof.
  unfold progressQuiet. intros Q (A & B & C & D & E & F).
  apply Nat.eqb_eq in Q.
  unfold sameProgress. rewrite !tally_appendLog. simpl.
  repeat split; try assumption; lia.
Qed.

Lemma sameProgress_frame (s0 s s' : State) :
  effects s' = effects s -> initStage s' = initStage s ->
  initializedRef s' = initializedRef s ->
  sameProgress s0 s -> sameProgress s0 s'.
Proof. unfold sameProgress, tally. intros -> -> ->. trivial. Qed.

Lemma sameHoldings_appendLog (s0 : State) (e : LogEntry) (s : State) :
  holdingsQuiet e = true -> sameHoldings s0 s -> sameHoldings s0 (appendLog e s).
Proof.
  unfold holdingsQuiet. intros Q (A & B & C & D).
  apply andb_prop in Q as [Q1 Q2]. apply Nat.eqb_eq in Q1. apply negb_true_iff in Q2.
  unfold sameHoldings. rewrite tally_appendLog, (alerts_appendLog _ _ Q2). simpl.
  repeat split; try assumption; lia.
Qed.

Lemma sameHoldings_frame (s0 s s' : State) :
  effects s' = effects s -> hasCleanedUpRef s' = hasCleanedUpRef s ->
  localStream s' = localStream s ->
  sameHoldings s0 s -> sameHoldings s0 s'.
Proof. unfold sameHoldings, tally, alerts. intros -> -> ->. trivial. Qed.

(** The invariants of the parts of [initializeCall] between its own steps. *)
Ltac keeps_progress :=
  repeat preserves_step; invariant_leaf sameProgress_appendLog sameProgress_frame.

Ltac keeps_holdings :=
  repeat preserves_step; invariant_leaf sameHoldings_appendLog sameHoldings_frame.

Ltac keeps_init := apply preserves_both; [keeps_progress | keeps_holdings].

(** Compare the tallies and the alerts of two explicit states. *)
Ltac trace_sums :=
  unfold tally, alerts, appendLog, initFailureReport in *; simpl in *;
  rewrite ?map_app, ?list_sum_app, ?filter_app in *; simpl in *;
  rewrite ?app_nil_r, <- ?app_assoc in *; simpl in *;
  first [ assumption | reflexivity | lia | congruence ].

Lemma sameInit_refl (s : State) : sameProgress s s /\ sameHoldings s s.
Proof. unfold sameProgress, sameHoldings. repeat split. Qed.

Lemma initFailed_run (message : string) (s : State) :
  initFailed message s
  = (Normal tt,
     put_initStage Settled
       (appendLog EndCallNotified
          (appendLog (Alerted ("Failed to access camera/microphone: " ++ message))
             (appendLog (Console Error "Error initializing call") s)))).
Proof. reflexivity. Qed.

Lemma initializeCall_media_cases (stream : MediaStream) (s : State) :
  exists s',
    initializeCall_media stream s = (Normal tt, s') /\
    initializedRef s' = initializedRef s /\
    hasCleanedUpRef s' = hasCleanedUpRef s /\
    peerConnectionRef s' = peerConnectionRef s /\
    tally release s' = tally release s /\
    tally mediaRequest s' = (tally mediaRequest s + 1)%nat /\
    tally connectionBuilt s' = tally connectionBuilt s /\
    tally negotiationSent s' = tally negotiationSent s /\
    match fails (effects s) GetUserMedia with
    | Some message =>
        initStage s' = Settled /\
        alerts s' = (alerts s ++ initFailureReport message)%list /\
        localStream s' = localStream s /\
        tally relayRequest s' = tally relayRequest s
    | None =>
        initStage s' = AwaitingTurnConfig stream /\
        alerts s' = alerts s /\
        localStream s' = Some stream /\
        tally relayRequest s' = (tally relayRequest s + 1)%nat
    end.
Proof.
  unfold initializeCall_media.
  destruct (fails (effects s) GetUserMedia) as [message|] eqn:F.
  - rewrite (tryCatch_bind_thrown _ _ _ _ _ _ (call_refused _ _ _ F)).
    rewrite initFailed_run. eexists. split; [reflexivity |].
    repeat split; trace_sums.
  - rewrite (tryCatch_bind_normal _ _ _ _ _ _ (call_ok _ _ F)).
    erewrite tryCatch_bind_normal by reflexivity.
    set (s2 := setLocalStream (Some stream) (appendLog (Called GetUserMedia true) s)).
    destruct (run_keeping
                (fun st => (sameProgress s2 st /\ sameHoldings s2 st) /\
                           peerConnectionRef st = peerConnectionRef s)
                (setupAudioLevelMonitoring LocalSide) s2) as ([] & s3 & E3 & H3).
    { repeat safe_step. }
    { apply preserves_both; [keeps_init |].
      repeat preserves_step; intros; simpl; assumption. }
    { split; [apply sameInit_refl | reflexivity]. }
    rewrite (tryCatch_bind_normal _ _ _ _ _ _ E3).
    destruct (run_keeping
                (fun st => (sameProgress s2 st /\ sameHoldings s2 st) /\
                           peerConnectionRef st = peerConnectionRef s)
                (setupAudioRecording "webm") s3) as ([] & s4 & E4 & H4).
    { repeat safe_step. }
    { apply preserves_both; [keeps_init |].
      repeat preserves_step; intros; simpl; assumption. }
    { exact H3. }
    rewrite (tryCatch_bind_normal _ _ _ _ _ _ E4).
    erewrite tryCatch_bind_normal by reflexivity.
    eexists. split; [reflexivity |].
    destruct H4 as [[(A & B & C & D & E & G) (R & L & U & V)] Hpc].
    unfold s2 in *. repeat split; trace_sums.
Qed.

Lemma safe_resolveRtcConfig (ack : TurnAck) : safe (resolveRtcConfig ack).
Proof.
  unfold resolveRtcConfig. apply safe_bind; [| intros ?; apply safe_ret].
  apply safe_tryCatch. intros ?. repeat safe_step.
Qed.

Lemma initializeCall_connect_cases (stream : MediaStream) (ack : TurnAck) (s : State) :
  exists s',
    initializeCall_connect stream ack s = (Normal tt, s') /\
    initializedRef s' = initializedRef s /\
    hasCleanedUpRef s' = hasCleanedUpRef s /\
    localStream s' = localStream s /\
    tally release s' = tally release s /\
    tally mediaRequest s' = tally mediaRequest s /\
    tally relayRequest s' = tally relayRequest s /\
    tally connectionBuilt s' = (tally connectionBuilt s + 1)%nat /\
    tally negotiationSent s' = tally negotiationSent s /\
    ((initStage s' = AwaitingNegotiation /\ alerts s' = alerts s /\
      exists rtcConfig,
        peerConnectionRef s'
        = Some {| configuration := rtcConfig;
                  remoteDescription := None;
                  localDescription := None;
                  senders := map (fun track => Some (track_id track)) stream |}) \/
     (initStage s' = Settled /\ peerConnectionRef s' = peerConnectionRef s /\
      exists message, alerts s' = (alerts s ++ initFailureReport message)%list)).
Proof.
  unfold initializeCall_connect.
  destruct (run_keeping
              (fun st => (sameProgress s st /\ sameHoldings s st) /\
                         peerConnectionRef st = peerConnectionRef s)
              (resolveRtcConfig ack) s) as (rtcConfig & s1 & E1 & H1).
  { apply safe_resolveRtcConfig. }
  { apply preserves_both; [keeps_init |].
    repeat preserves_step; intros; simpl; assumption. }
  { split; [apply sameInit_refl | reflexivity]. }
  rewrite (tryCatch_bind_normal _ _ _ _ _ _ E1).
  destruct H1 as [[(A & B & C & D & E & G) (R & L & U & V)] Hpc].
  destruct (fails (effects s1) (NewRTCPeerConnection rtcConfig)) as [message|] eqn:F.
  - rewrite (tryCatch_bind_thrown _ _ _ _ _ _ (call_refused _ _ _ F)).
    rewrite initFailed_run. eexists. split; [reflexivity |].
    repeat split; try trace_sums.
    right. repeat split; try trace_sums. exists message. trace_sums.
  - rewrite (tryCatch_bind_normal _ _ _ _ _ _ (call_ok _ _ F)).
    set (s2 := appendLog (Called (NewRTCPeerConnection rtcConfig) true) s1).
    destruct (outcome_keeping
                (fun st => (sameProgress s2 st /\ sameHoldings s2 st) /\
                           peerConnectionRef st = peerConnectionRef s)
                (forEach stream (fun track => call (PcAddTrack (track_id track)))) s2)
      as (c & s3 & E3 & H3).
    { apply preserves_both; [keeps_init |].
      repeat preserves_step; intros; simpl; assumption. }
    { split; [apply sameInit_refl | exact Hpc]. }
    destruct H3 as [[(A3 & B3 & C3 & D3 & E3' & G3) (R3 & L3 & U3 & V3)] Hpc3].
    unfold s2 in *.
    destruct c as [[]|message].
    + rewrite (tryCatch_bind_normal _ _ _ _ _ _ E3).
      erewrite tryCatch_bind_normal by reflexivity.
      eexists. split; [reflexivity |].
      repeat split; try trace_sums.
      left. repeat split; try trace_sums. now exists rtcConfig.
    + rewrite (tryCatch_bind_thrown _ _ _ _ _ _ E3).
      rewrite initFailed_run. eexists. split; [reflexivity |].
      repeat split; try trace_sums.
      right. repeat split; try trace_sums. exists message. trace_sums.
Qed.

Lemma negotiating_prefix (s0 : State) (m : JS unit) :
  preserves (sameProgress s0) m -> preserves (sameHoldings s0) m ->
  preserves (fun st => isSome (peerConnectionRef st) = isSome (peerConnectionRef s0)) m ->
  preserves (negotiating s0) m.
Proof. intros A B C. apply preserves_both; [apply preserves_both |]; assumption. Qed.

Ltac keeps_connection :=
  repeat preserves_step; intros; simpl;
  first [ assumption
        | match goal with
          | H : isSome ?o = _ |- isSome (option_map _ ?o) = _ => now destruct o
          end ].

Lemma initializeCall_negotiate_cases (created : SessionDescription) (s : State) :
  exists s',
    initializeCall_negotiate created s = (Normal tt, s') /\
    initStage s' = Settled /\
    initializedRef s' = initializedRef s /\
    hasCleanedUpRef s' = hasCleanedUpRef s /\
    localStream s' = localStream s /\
    isSome (peerConnectionRef s') = isSome (peerConnectionRef s) /\
    tally release s' = tally release s /\
    tally mediaRequest s' = tally mediaRequest s /\
    tally relayRequest s' = tally relayRequest s /\
    tally connectionBuilt s' = tally connectionBuilt s /\
    (tally negotiationSent s' <= tally negotiationSent s + 1)%nat /\
    (alerts s' = alerts s \/
     exists message, alerts s' = (alerts s ++ initFailureReport message)%list) /\
    (String.eqb (callType callData) "outgoing" = false ->
     String.eqb (callType callData) "incoming" = false \/ offer callData = None ->
     s' = put_initStage Settled s).
Proof.
  unfold initializeCall_negotiate.
  destruct (String.eqb (callType callData) "outgoing") eqn:Out.
  - (* an outgoing call: the offer *)
    assert (Inc : String.eqb (callType callData) "incoming" = false).
    { apply String.eqb_eq in Out. now rewrite Out. }
    rewrite Inc. cbn [when].
    rewrite tryCatch_bind_bind.
    destruct (outcome_keeping (negotiating s) (call PcCreateOffer) s)
      as (c1 & s1 & E1 & H1).
    { apply negotiating_prefix; [keeps_progress | keeps_holdings | keeps_connection]. }
    { split; [apply sameInit_refl | reflexivity]. }
    destruct c1 as [[]|message].
    2:{ rewrite (tryCatch_bind_thrown _ _ _ _ _ _ E1). rewrite initFailed_run.
        destruct H1 as [[(A & B & C & D & E & G) (R & L & U & V)] Hpc].
        eexists. split; [reflexivity |].
        repeat split; try trace_sums; try discriminate.
        right. exists message. trace_sums. }
    rewrite (tryCatch_bind_normal _ _ _ _ _ _ E1). rewrite tryCatch_bind_bind.
    destruct (outcome_keeping (negotiating s) (pc_setLocalDescription created) s1)
      as (c2 & s2 & E2 & H2).
    { apply negotiating_prefix; [keeps_progress | keeps_holdings | keeps_connection]. }
    { exact H1. }
    destruct H2 as [[(A & B & C & D & E & G) (R & L & U & V)] Hpc].
    destruct c2 as [[]|message].
    2:{ rewrite (tryCatch_bind_thrown _ _ _ _ _ _ E2). rewrite initFailed_run.
        eexists. split; [reflexivity |].
        repeat split; try trace_sums; try discriminate.
        right. exists message. trace_sums. }
    rewrite (tryCatch_bind_normal _ _ _ _ _ _ E2).
    erewrite tryCatch_bind_normal by reflexivity.
    assert (Rest : forall st,
               tryCatch
                 (match offer callData with
                  | Some _ => ret tt
                  | None => ret tt
                  end ;; modify (put_initStage Settled)) initFailed st
               = (Normal tt, put_initStage Settled st)).
    { intros st. now destruct (offer callData). }
    rewrite Rest. eexists. split; [reflexivity |].
    repeat split; try trace_sums; try discriminate.
    left. trace_sums.
  - cbn [when]. erewrite tryCatch_bind_normal by reflexivity.
    destruct (offer callData) as [theOffer|] eqn:Off.
    2:{ eexists. split; [reflexivity |].
        repeat split; try trace_sums. now left. }
    destruct (String.eqb (callType callData) "incoming") eqn:Inc.
    2:{ eexists. split; [reflexivity |].
        repeat split; try trace_sums. now left. }
    (* an incoming call that came with an offer: the answer *)
    cbn [when].
    destruct (outcome_keeping (negotiating s)
                (pc_setRemoteDescription theOffer ;;
                 flushPending "Error applying buffered ICE candidate" ;;
                 call PcCreateAnswer ;;
                 pc_setLocalDescription created) s)
      as (c1 & s1 & E1 & H1).
    { apply negotiating_prefix; [keeps_progress | keeps_holdings | keeps_connection]. }
    { split; [apply sameInit_refl | reflexivity]. }
    destruct H1 as [[(A & B & C & D & E & G) (R & L & U & V)] Hpc].
    assert (Shape : forall (h : string -> JS unit) st,
               tryCatch
                 ((pc_setRemoteDescription theOffer ;;
                   flushPending "Error applying buffered ICE candidate" ;;
                   call PcCreateAnswer ;;
                   pc_setLocalDescription created ;;
                   emit "call-answer"
                     [ ("to", FValue (fromUserId callData));
                       ("answer", FDescription created) ]) ;;
                  modify (put_initStage Settled)) h st
               = tryCatch
                   ((pc_setRemoteDescription theOffer ;;
                     flushPending "Error applying buffered ICE candidate" ;;
                     call PcCreateAnswer ;;
                     pc_setLocalDescription created) ;;
                    emit "call-answer"
                      [ ("to", FValue (fromUserId callData));
                        ("answer", FDescription created) ] ;;
                    modify (put_initStage Settled)) h st).
    { intros h st. unfold tryCatch, bind.
      destruct (pc_setRemoteDescription theOffer st) as [[[]|e1] st1]; [| reflexivity].
      destruct (flushPending "Error applying buffered ICE candidate" st1)
        as [[[]|e2] st2]; [| reflexivity].
      destruct (call PcCreateAnswer st2) as [[[]|e3] st3]; [| reflexivity].
      destruct (pc_setLocalDescription created st3) as [[[]|e4] st4]; reflexivity. }
    rewrite Shape.
    destruct c1 as [[]|message].
    2:{ rewrite (tryCatch_bind_thrown _ _ _ _ _ _ E1). rewrite initFailed_run.
        eexists. split; [reflexivity |].
        repeat split; try trace_sums; try discriminate.
        - right. exists message. trace_sums.
        - intros _ [X|X]; discriminate X. }
    rewrite (tryCatch_bind_normal _ _ _ _ _ _ E1).
    eexists. split; [reflexivity |].
    repeat split; try trace_sums; try discriminate.
    + left. trace_sums.
    + intros _ [X|X]; discriminate X.
Qed.

Lemma initializeCall_start_cases (mediaDevices : bool) (s : State) :
  initializeCall_start mediaDevices s
  = (Normal tt,
     if mediaDevices then put_initStage AwaitingMedia s
     else
       put_initStage Settled
         (appendLog EndCallNotified
            (appendLog
               (Alerted ("Failed to access camera/microphone: "
                         ++ "MediaDevices API not available. Please use HTTPS or localhost."))
               (appendLog (Console Error "Error initializing call") s)))).
Proof. now destruct mediaDevices. Qed.

Lemma initializedOnce_same (s s' : State) :
  sameProgress s s' -> initializedOnce s -> initializedOnce s'.
Proof.
  unfold sameProgress, initializedOnce.
  intros (A & B & C & D & E & F). rewrite A, B, C, D, E, F. trivial.
Qed.

Lemma handler_keeps_progress (s0 s : State) (ev : Event) :
  match ev with
  | Mounted _ | MediaSettled _ | TurnConfigSettled _ | NegotiationResumed _ => True
  | _ => preserves (sameProgress s) (handler s0 ev)
  end.
Proof. destruct ev; try exact I; unfold handler; keeps_progress. Qed.

Lemma step_initializedOnce (s : State) (ev : Event) :
  initializedOnce s -> initializedOnce (step s ev).
Proof.
  intros H. unfold step.
  assert (C : forall st, initializedOnce st -> initializedOnce (commit st)).
  { intros st. apply initializedOnce_same. unfold sameProgress. repeat split. }
  apply C.
  assert (Idle : initializedOnce (exec (ret tt) s)) by exact H.
  pose proof (handler_keeps_progress s s ev) as K.
  destruct ev; try (apply (initializedOnce_same s); [apply K; apply sameInit_refl | exact H]);
    clear K; unfold handler.
  - (* the mount effect *)
    unfold mountEffect, exec, bind, get.
    destruct (initializedRef s) eqn:R; [exact H |].
    unfold modify. rewrite initializeCall_start_cases.
    destruct H as ([St|St] & A & B & C' & D); [| simpl in St; congruence].
    rewrite St in *. simpl in *.
    destruct mediaDevices; unfold initializedOnce; simpl;
      (split; [now right |]); repeat split; trace_sums.
  - (* the media *)
    destruct (initStage s) eqn:St; try exact Idle.
    destruct (initializeCall_media_cases stream s)
      as (s' & E & I & _ & _ & _ & M & P & N & Rest).
    unfold exec. rewrite E. simpl.
    destruct H as ([X|X] & A & B & C' & D); [congruence |].
    rewrite St in *. simpl in *.
    unfold initializedOnce.
    destruct (fails (effects s) GetUserMedia); destruct Rest as (G & _ & _ & T);
      rewrite G, I; simpl; (split; [now right |]); repeat split; lia.
  - (* the connection *)
    destruct (initStage s) eqn:St; try exact Idle.
    destruct (initializeCall_connect_cases stream ack s)
      as (s' & E & I & _ & _ & _ & M & T & P & N & Rest).
    unfold exec. rewrite E. simpl.
    destruct H as ([X|X] & A & B & C' & D); [congruence |].
    rewrite St in *. simpl in *.
    unfold initializedOnce.
    destruct Rest as [(G & _)|(G & _)]; rewrite G, I; simpl;
      (split; [now right |]); repeat split; lia.
  - (* the negotiation *)
    destruct (initStage s) eqn:St; try exact Idle.
    destruct (initializeCall_negotiate_cases created s)
      as (s' & E & G & I & _ & _ & _ & _ & M & T & P & N & _).
    unfold exec. rewrite E. simpl.
    destruct H as ([X|X] & A & B & C' & D); [congruence |].
    rewrite St in *. simpl in *.
    unfold initializedOnce. rewrite G, I. simpl.
    (split; [now right |]); repeat split; lia.
Qed.

(** *** The offer/answer exchange *)


























(** X8. The mount guard works: in every run of the component, however
    often the mount effect runs and whatever arrives in between,
    [initializeCall] asks for the media at most once, asks for the relay
    configuration at most once, builds at most one connection and sends at
    most one offer or answer. *)
Theorem initialization_runs_once (evs : list Event) :
  (tally mediaRequest (run initialState evs) <= 1)%nat /\
  (tally relayRequest (run initialState evs) <= 1)%nat /\
  (tally connectionBuilt (run initialState evs) <= 1)%nat /\
  (tally negotiationSent (run initialState evs) <= 1)%nat.
Proof.
  assert (H : forall evs s, initializedOnce s -> initializedOnce (run s evs)).
  { clear evs. induction evs as [|ev evs IH]; intros s H; simpl; [exact H |].
    apply IH, step_initializedOnce, H. }
  assert (H0 : initializedOnce initialState).
  { unfold initializedOnce. simpl. split; [now left |]. repeat split; constructor. }
  destruct (H evs initialState H0) as (_ & A & B & C & D).
  destruct (initStage (run initialState evs)); simpl in *; repeat split; lia.
Qed.

(** X9. A failure anywhere in [initializeCall] is reported in one way: the
    alert "Failed to access camera/microphone: " followed by the message of
    the error, then [onEndCall()]; initialization stops there. Without
    media devices the message is the one of the secure-context check and
    no platform call is made; a rejected [getUserMedia] gives its own
    message and leaves the session without a local stream; a failure while
    the connection is built leaves the session without a connection; a
    failure during the negotiation is reported in the same words. In no
    case does [initializeCall] release anything or run [cleanup]: the
    local stream stays, [hasCleanedUpRef] is not set, no track is stopped
    and nothing is closed. *)
Theorem initialization_failure_is_reported (s : State) :
  (forall mediaDevices,
     let s' := exec (initializeCall_start mediaDevices) s in
     completion (initializeCall_start mediaDevices) s = Normal tt /\
     initStage s' = (if mediaDevices then AwaitingMedia else Settled) /\
     alerts s'
     = (alerts s
        ++ if mediaDevices then []
           else initFailureReport
                  "MediaDevices API not available. Please use HTTPS or localhost.")%list /\
     engineCalls (effects s') = engineCalls (effects s) /\
     hasCleanedUpRef s' = hasCleanedUpRef s) /\
  (forall stream,
     let s' := exec (initializeCall_media stream) s in
     completion (initializeCall_media stream) s = Normal tt /\
     match fails (effects s) GetUserMedia with
     | Some message =>
         initStage s' = Settled /\
         alerts s' = (alerts s ++ initFailureReport message)%list /\
         localStream s' = localStream s
     | None =>
         initStage s' = AwaitingTurnConfig stream /\
         alerts s' = alerts s /\
         localStream s' = Some stream
     end /\
     tally release s' = tally release s /\
     hasCleanedUpRef s' = hasCleanedUpRef s) /\
  (forall stream ack,
     let s' := exec (initializeCall_connect stream ack) s in
     completion (initializeCall_connect stream ack) s = Normal tt /\
     ((initStage s' = AwaitingNegotiation /\ alerts s' = alerts s /\
       peerConnectionRef s' <> None) \/
      (initStage s' = Settled /\ peerConnectionRef s' = peerConnectionRef s /\
       exists message, alerts s' = (alerts s ++ initFailureReport message)%list)) /\
     localStream s' = localStream s /\
     tally release s' = tally release s /\
     hasCleanedUpRef s' = hasCleanedUpRef s) /\
  (forall created,
     let s' := exec (initializeCall_negotiate created) s in
     completion (initializeCall_negotiate created) s = Normal tt /\
     initStage s' = Settled /\
     (alerts s' = alerts s \/
      exists message, alerts s' = (alerts s ++ initFailureReport message)%list) /\
     localStream s' = localStream s /\
     isSome (peerConnectionRef s') = isSome (peerConnectionRef s) /\
     tally release s' = tally release s /\
     hasCleanedUpRef s' = hasCleanedUpRef s).
Proof.
  split; [| split; [| split]].
  - intros mediaDevices. cbv zeta. unfold exec, completion.
    rewrite initializeCall_start_cases. simpl.
    destruct mediaDevices; simpl; repeat split; try trace_sums.
    rewrite !engineCalls_app. simpl. now rewrite !app_nil_r.
  - intros stream. cbv zeta.
    destruct (initializeCall_media_cases stream s)
      as (s' & E & _ & C & _ & R & _ & _ & _ & Rest).
    unfold exec, completion. rewrite E. simpl.
    split; [reflexivity |]. split; [| split; assumption].
    destruct (fails (effects s) GetUserMedia); destruct Rest as (G & A & L & _);
      now repeat split.
  - intros stream ack. cbv zeta.
    destruct (initializeCall_connect_cases stream ack s)
      as (s' & E & _ & C & L & R & _ & _ & _ & _ & Rest).
    unfold exec, completion. rewrite E. simpl.
    split; [reflexivity |]. split; [| now repeat split].
    destruct Rest as [(G & A & cfg & Hpc)|(G & Hpc & message & A)].
    + left. repeat split; try assumption. rewrite Hpc. discriminate.
    + right. repeat split; try assumption. now exists message.
  - intros created. cbv zeta.
    destruct (initializeCall_negotiate_cases created s)
      as (s' & E & G & _ & C & L & Hpc & R & _ & _ & _ & _ & A & _).
    unfold exec, completion. rewrite E. simpl. now repeat split.
Qed.

(** X10. A call that is neither outgoing nor an incoming call with an
    offer is not negotiated: the last part of [initializeCall] calls
    nothing, sends nothing and reports nothing; the session keeps its
    connection and waits. *)
Theorem call_without_offer_is_left_unanswered (created : SessionDescription) (s : State) :
  callType callData <> "outgoing" ->
  callType callData <> "incoming" \/ offer callData = None ->
  initializeCall_negotiate created s = (Normal tt, put_initStage Settled s).
Proof.
  intros Out Inc.
  destruct (initializeCall_negotiate_cases created s)
    as (s' & E & _ & _ & _ & _ & _ & _ & _ & _ & _ & _ & _ & Idle).
  rewrite E. f_equal. apply Idle.
  - now apply String.eqb_neq.
  - destruct Inc as [Inc|Off]; [left; now apply String.eqb_neq | now right].
Qed.

(** *** What is negotiated, and with which configuration *)

(** X24. A description goes to the peer only once the connection has
    taken it. On an outgoing call the last part of [initializeCall] asks
    for the offer, sets it as the local description and then sends it in
    [call-offer]; on an incoming call that came with an offer it sets that
    offer as the remote description, hands over the buffered candidates,
    asks for the answer, sets it as the local description and then sends
    it in [call-answer]. At the first of these calls that fails nothing
    more is called and nothing is sent: the failure is reported to the
    user and to the owner of the call, and the connection keeps the
    descriptions it had taken until then. *)
Theorem description_is_sent_once_it_is_set (created : SessionDescription) (s : State) :
  let s' := exec (initializeCall_negotiate created) s in
  (callType callData = "outgoing" ->
   match fails (effects s) PcCreateOffer with
   | Some message =>
       effects s'
       = (effects s ++ Called PcCreateOffer false :: initFailureTrace message)%list /\
       peerConnectionRef s' = peerConnectionRef s
   | None =>
       match fails (effects s ++ [Called PcCreateOffer true])
               (PcSetLocalDescription created) with
       | Some message =>
           effects s'
           = (effects s
              ++ Called PcCreateOffer true
              :: Called (PcSetLocalDescription created) false
              :: initFailureTrace message)%list /\
           peerConnectionRef s' = peerConnectionRef s
       | None =>
           effects s'
           = (effects s
              ++ [ Called PcCreateOffer true;
                   Called (PcSetLocalDescription created) true;
                   Emitted "call-offer"
                     [ ("to", FValue (targetUserId callData));
                       ("from", FValue (JString (user_username user)));
                       ("fromUserId", FValue (JString (user_id user)));
                       ("offer", FDescription created) ] ])%list /\
           peerConnectionRef s'
           = option_map (withLocalDescription created) (peerConnectionRef s)
       end
   end) /\
  (forall theOffer,
     callType callData = "incoming" -> offer callData = Some theOffer ->
     match fails (effects s) (PcSetRemoteDescription theOffer) with
     | Some message =>
         effects s'
         = (effects s
            ++ Called (PcSetRemoteDescription theOffer) false
            :: initFailureTrace message)%list /\
         peerConnectionRef s' = peerConnectionRef s /\
         pendingRemoteIceCandidatesRef s' = pendingRemoteIceCandidatesRef s
     | None =>
         let flushed :=
           flushTrace "Error applying buffered ICE candidate"
             (pendingRemoteIceCandidatesRef s)
             (effects s ++ [Called (PcSetRemoteDescription theOffer) true]) in
         pendingRemoteIceCandidatesRef s' = [] /\
         match fails flushed PcCreateAnswer with
         | Some message =>
             effects s'
             = (flushed ++ Called PcCreateAnswer false :: initFailureTrace message)%list /\
             peerConnectionRef s'
             = option_map (withRemoteDescription theOffer) (peerConnectionRef s)
         | None =>
             match fails (flushed ++ [Called PcCreateAnswer true])
                     (PcSetLocalDescription created) with
             | Some message =>
                 effects s'
                 = (flushed
                    ++ Called PcCreateAnswer true
                    :: Called (PcSetLocalDescription created) false
                    :: initFailureTrace message)%list /\
                 peerConnectionRef s'
                 = option_map (withRemoteDescription theOffer) (peerConnectionRef s)
             | None =>
                 effects s'
                 = (flushed
                    ++ [ Called PcCreateAnswer true;
                         Called (PcSetLocalDescription created) true;
                         Emitted "call-answer"
                           [ ("to", FValue (fromUserId callData));
                             ("answer", FDescription created) ] ])%list /\
                 peerConnectionRef s'
                 = option_map (withLocalDescription created)
                     (option_map (withRemoteDescription theOffer) (peerConnectionRef s))
             end
         end
     end).
Proof.
  cbv zeta. unfold exec, initializeCall_negotiate, initFailureTrace, initFailureReport.
  split.
  - intros Out. rewrite Out.
    change (String.eqb "outgoing" "outgoing") with true.
    change (String.eqb "outgoing" "incoming") with false.
    assert (Rest : (match offer callData with
                    | Some _ => when false (ret tt)
                    | None => ret tt
                    end) = ret tt) by now destruct (offer callData).
    unfold tryCatch, bind, when, call, pc_setLocalDescription, bind, call.
    destruct (fails (effects s) PcCreateOffer) as [message|] eqn:F1.
    + simpl. now rewrite <- !app_assoc.
    + cbn [effects appendLog put_effects]. 
      destruct (fails (effects s ++ [Called PcCreateOffer true])
                  (PcSetLocalDescription created)) as [message|] eqn:F2.
      * simpl. now rewrite <- !app_assoc.
      * destruct (offer callData); simpl; now rewrite <- !app_assoc.
  - intros theOffer Inc Off. rewrite Inc, Off.
    change (String.eqb "incoming" "outgoing") with false.
    change (String.eqb "incoming" "incoming") with true.
    unfold tryCatch, bind, when, ret, pc_setRemoteDescription, bind, call.
    destruct (fails (effects s) (PcSetRemoteDescription theOffer)) as [message|] eqn:F1.
    + simpl. now rewrite <- !app_assoc.
    + unfold updatePc, modify. rewrite flushPending_run.
      cbn [effects appendLog put_effects put_peerConnectionRef
           put_pendingRemoteIceCandidatesRef pendingRemoteIceCandidatesRef].
      set (flushed := flushTrace _ _ _).
      destruct (fails flushed PcCreateAnswer) as [message|] eqn:F2.
      * simpl. now rewrite <- !app_assoc.
      * unfold pc_setLocalDescription, bind, call.
        cbn [effects appendLog put_effects put_peerConnectionRef
             put_pendingRemoteIceCandidatesRef].
        destruct (fails (flushed ++ [Called PcCreateAnswer true])
                    (PcSetLocalDescription created)) as [message|] eqn:F3.
        -- simpl. now rewrite <- !app_assoc.
        -- simpl. now rewrite <- !app_assoc.
Qed.

(** X25. A configuration that the backend sends in time is used as it is:
    when the reply to [get-turn-config] arrives before the 5000 ms are over
    and carries [iceServers], these alone are the servers of the
    connection. The public STUN servers that the session starts from are
    dropped, and the relay that the environment configures is not added;
    no warning is logged. The transport policy is the one of the reply,
    unless [VITE_ICE_RELAY_ONLY] is "1", which forces "relay". When the
    platform lets the connection be built, it is built with exactly this
    configuration. *)
Theorem backend_configuration_is_used_as_it_is (ms : nat) (reply : TurnConfig)
    (servers : list IceServer) (stream : MediaStream) (s : State) :
  (ms < turnConfigTimeout)%nat ->
  turn_iceServers reply = Some servers ->
  let rtcConfig :=
    {| iceServers := servers;
       iceTransportPolicy :=
         if forceRelayOnly then Some "relay" else turn_iceTransportPolicy reply |} in
  resolveRtcConfig (AckAfter ms (Some reply)) s = (Normal rtcConfig, s) /\
  (connectionCanBeBuilt ->
   exists s',
     initializeCall_connect stream (AckAfter ms (Some reply)) s = (Normal tt, s') /\
     option_map configuration (peerConnectionRef s') = Some rtcConfig /\
     initStage s' = AwaitingNegotiation /\
     alerts s' = alerts s).
Proof.
  intros InTime Servers. cbv zeta.
  assert (R : resolveRtcConfig (AckAfter ms (Some reply)) s
              = (Normal
                   {| iceServers := servers;
                      iceTransportPolicy :=
                        if forceRelayOnly then Some "relay"
                        else turn_iceTransportPolicy reply |}, s)).
  { unfold resolveRtcConfig, awaitTurnConfig. apply Nat.ltb_lt in InTime.
    rewrite InTime. unfold tryCatch, bind, ret. rewrite Servers.
    unfold withRelayPolicy. now destruct forceRelayOnly. }
  split; [exact R |].
  intros Ok.
  destruct (initializeCall_connect_run stream (AckAfter ms (Some reply)) s Ok)
    as (rtcConfig & s1 & s' & E & Es & Hpc & Hst & Ha).
  rewrite R in E. injection E as <- _.
  exists s'. rewrite Hpc. now repeat split.
Qed.

(** *** Which tracks a teardown stops *)

Lemma trackStops_app (l1 l2 : list LogEntry) :
  trackStops (l1 ++ l2) = (trackStops l1 ++ trackStops l2)%list.
Proof.
  induction l1 as [|e l1 IH]; simpl; [reflexivity |].
  destruct e as [op ok| | | | |]; try exact IH.
  destruct op; try exact IH. simpl. now rewrite IH.
Qed.

Lemma stopsAre_appendLog (stopped : list string) (pc : option RTCPeerConnection)
    (e : LogEntry) (s : State) :
  stopsQuiet e = true -> stopsAre stopped pc s -> stopsAre stopped pc (appendLog e s).
Proof.
  intros Q [A B]. split; [| exact B]. unfold appendLog. simpl.
  rewrite trackStops_app, A. destruct e as [op ok| | | | |]; simpl; try apply app_nil_r.
  destruct op; try apply app_nil_r. discriminate Q.
Qed.

Lemma stopsAre_frame (stopped : list string) (pc : option RTCPeerConnection)
    (s s' : State) :
  effects s' = effects s -> peerConnectionRef s' = peerConnectionRef s ->
  stopsAre stopped pc s -> stopsAre stopped pc s'.
Proof. unfold stopsAre. intros -> ->. trivial. Qed.

Ltac keeps_stops :=
  repeat preserves_step; invariant_leaf stopsAre_appendLog stopsAre_frame.

(** Go past the first part [m] of a sequence: it cannot throw and keeps [P]. *)
Lemma exec_pass {B : Type} (P : State -> Prop) (m : JS unit) (k : unit -> JS B)
    (s : State) :
  safe m -> preserves P m -> P s ->
  exists s1, P s1 /\ exec (bind m k) s = exec (k tt) s1.
Proof.
  intros Sm Pm Hs. destruct (run_keeping P m s Sm Pm Hs) as ([] & s1 & E & H1).
  exists s1. split; [exact H1 |]. now apply exec_bind_normal.
Qed.

Lemma bind_bind {A B C : Type} (m : JS A) (f : A -> JS B) (g : B -> JS C) (s : State) :
  bind (bind m f) g s = bind m (fun a => bind (f a) g) s.
Proof.
  unfold bind. destruct (m s) as [[a|e] s1]; [| reflexivity].
  destruct (f a s1) as [[b|e] s2]; reflexivity.
Qed.

Lemma tryIgnore_normal (m : JS unit) (s s' : State) :
  m s = (Normal tt, s') -> tryIgnore m s = (Normal tt, s').
Proof. intros E. unfold tryIgnore, tryCatch. now rewrite E. Qed.

Lemma tryIgnore_call_run (op : Op) (s : State) :
  exists ok, tryIgnore (call op) s = (Normal tt, appendLog (Called op ok) s).
Proof.
  unfold tryIgnore, tryCatch, call.
  destruct (fails (effects s) op); [now exists false | now exists true].
Qed.

(** The loop over the senders stops the track of each sender that has one;
    the loop over the transceivers stops none. *)
Lemma senders_loop_run (senders : list (option string)) :
  forall (i : nat) (s : State),
    exists s',
      forEachFrom i senders
        (fun i sender =>
           tryIgnore (call (SenderReplaceTrack i)) ;;
           match sender with
           | Some trackId => tryIgnore (call (TrackStop trackId))
           | None => ret tt
           end ;;
           tryIgnore (call (PcRemoveTrack i))) s
      = (Normal tt, s') /\
      stopsAre
        (trackStops (effects s)
         ++ flat_map (fun sender => match sender with Some t => [t] | None => [] end) senders)
        (peerConnectionRef s) s'.
Proof.
  induction senders as [|sender rest IH]; intros i s.
  - exists s. split; [reflexivity |]. split; [now rewrite app_nil_r | reflexivity].
  - cbn [forEachFrom flat_map]. cbv beta.
    destruct (tryIgnore_call_run (SenderReplaceTrack i) s) as (ok1 & E1).
    rewrite bind_bind, (bind_normal _ _ _ _ _ E1).
    set (s1 := appendLog (Called (SenderReplaceTrack i) ok1) s).
    assert (Mid : exists s2,
               match sender with
               | Some trackId => tryIgnore (call (TrackStop trackId))
               | None => ret tt
               end s1 = (Normal tt, s2) /\
               stopsAre
                 (trackStops (effects s)
                  ++ match sender with Some t => [t] | None => [] end)
                 (peerConnectionRef s) s2).
    { destruct sender as [trackId|].
      - destruct (tryIgnore_call_run (TrackStop trackId) s1) as (ok2 & E2).
        eexists. split; [exact E2 |]. split; [| reflexivity].
        unfold s1, appendLog. simpl. rewrite !trackStops_app. simpl.
        now rewrite app_nil_r.
      - exists s1. split; [reflexivity |]. split; [| reflexivity].
        unfold s1, appendLog. simpl. rewrite trackStops_app. reflexivity. }
    destruct Mid as (s2 & E2 & [T2 P2]).
    rewrite bind_bind, (bind_normal _ _ _ _ _ E2).
    destruct (tryIgnore_call_run (PcRemoveTrack i) s2) as (ok3 & E3).
    rewrite (bind_normal _ _ _ _ _ E3).
    destruct (IH (S i) (appendLog (Called (PcRemoveTrack i) ok3) s2)) as (s' & E & [T P]).
    exists s'. split; [exact E |]. split.
    + rewrite T. unfold appendLog. simpl. rewrite trackStops_app, T2. simpl.
      now rewrite app_nil_r, <- app_assoc.
    + rewrite P. exact P2.
Qed.

Lemma stream_loop_run (stream : MediaStream) :
  forall s : State,
    exists s',
      forEach stream (fun track => tryIgnore (call (TrackStop (track_id track)))) s
      = (Normal tt, s') /\
      stopsAre (trackStops (effects s) ++ map track_id stream) (peerConnectionRef s) s'.
Proof.
  induction stream as [|track rest IH]; intros s.
  - exists s. split; [reflexivity |]. split; [now rewrite app_nil_r | reflexivity].
  - cbn [forEach map]. cbv beta.
    destruct (tryIgnore_call_run (TrackStop (track_id track)) s) as (ok & E1).
    rewrite (bind_normal _ _ _ _ _ E1).
    destruct (IH (appendLog (Called (TrackStop (track_id track)) ok) s)) as (s' & E & [T P]).
    exists s'. split; [exact E |]. split; [| exact P].
    rewrite T. unfold appendLog. simpl. rewrite trackStops_app. simpl.
    now rewrite <- app_assoc.
Qed.

Lemma releaseResources_stops (closure_localStream : option MediaStream) (s : State) :
  trackStops (effects (exec (releaseResources closure_localStream) s))
  = (trackStops (effects s)
     ++ senderTracks (peerConnectionRef s) ++ streamTracks closure_localStream)%list.
Proof.
  assert (H : stopsAre (trackStops (effects s)) (peerConnectionRef s) s) by now split.
  revert H. generalize (trackStops (effects s)) as stopped.
  generalize (peerConnectionRef s) as pc. intros pc stopped H.
  unfold releaseResources.
  read_state.
  match goal with
  | |- context [exec (bind ?m ?k) s] =>
      destruct (exec_pass (stopsAre stopped pc) m k s
                  ltac:(repeat safe_step) ltac:(keeps_stops) H) as (s1 & H1 & ->)
  end.
  read_state.
  match goal with
  | |- context [exec (bind ?m ?k) s1] =>
      destruct (exec_pass (stopsAre stopped pc) m k s1
                  ltac:(repeat safe_step) ltac:(keeps_stops) H1) as (s2 & H2 & ->)
  end.
  match goal with
  | |- context [exec (bind ?m ?k) s2] =>
      destruct (exec_pass (stopsAre stopped pc) m k s2
                  ltac:(repeat safe_step) ltac:(keeps_stops) H2) as (s3 & H3 & ->)
  end.
  read_state.
  (* the senders and the transceivers *)
  assert (Senders : exists s4,
             stopsAre (stopped ++ senderTracks pc) pc s4 /\
             match peerConnectionRef s3 with
             | Some pc0 =>
                 tryIgnore
                   (forEachFrom 0 (senders pc0)
                      (fun i sender =>
                         tryIgnore (call (SenderReplaceTrack i)) ;;
                         match sender with
                         | Some trackId => tryIgnore (call (TrackStop trackId))
                         | None => ret tt
                         end ;;
                         tryIgnore (call (PcRemoveTrack i))) ;;
                    forEachFrom 0 (senders pc0)
                      (fun i _ =>
                         tryIgnore (call (TransceiverInactive i)) ;;
                         tryIgnore (call (TransceiverStop i))))
             | None => ret tt
             end s3 = (Normal tt, s4)).
  { destruct H3 as [T3 P3]. rewrite P3. destruct pc as [pc0|].
    - destruct (senders_loop_run (senders pc0) 0 s3) as (sa & Ea & Ha).
      rewrite T3, P3 in Ha.
      destruct (run_keeping (stopsAre (stopped ++ senderTracks (Some pc0)) (Some pc0))
                  (forEachFrom 0 (senders pc0)
                     (fun i _ =>
                        tryIgnore (call (TransceiverInactive i)) ;;
                        tryIgnore (call (TransceiverStop i)))) sa)
        as ([] & sb & Eb & Hb);
        [repeat safe_step | keeps_stops | exact Ha |].
      exists sb. split; [exact Hb |].
      apply tryIgnore_normal. now rewrite (bind_normal _ _ _ _ _ Ea).
    - exists s3. split; [| reflexivity]. simpl. rewrite app_nil_r. now split. }
  destruct Senders as (s4 & H4 & E4).
  rewrite (exec_bind_normal _ _ _ _ _ E4).
  (* the tracks of the stream in the closure *)
  assert (Stream : exists s5,
             stopsAre ((stopped ++ senderTracks pc) ++ streamTracks closure_localStream) pc s5 /\
             tryIgnore
               match closure_localStream with
               | Some stream =>
                   forEach stream (fun track => tryIgnore (call (TrackStop (track_id track))))
               | None => ret tt
               end s4 = (Normal tt, s5)).
  { destruct H4 as [T4 P4]. destruct closure_localStream as [stream|].
    - destruct (stream_loop_run stream s4) as (s5 & E5 & H5).
      rewrite T4, P4 in H5. exists s5. split; [exact H5 |].
      now apply tryIgnore_normal.
    - exists s4. split; [| reflexivity]. simpl. rewrite app_nil_r. now split. }
  destruct Stream as (s5 & H5 & E5).
  rewrite (exec_bind_normal _ _ _ _ _ E5).
  match goal with
  | |- trackStops (effects (exec ?m s5)) = _ =>
      assert (K : preserves
                    (stopsAre ((stopped ++ senderTracks pc)
                               ++ streamTracks closure_localStream) pc) m)
        by keeps_stops;
      destruct (K s5 H5) as [T _]
  end.
  rewrite T. now rewrite <- app_assoc.
Qed.

Lemma cleanup_stops (closure_localStream : option MediaStream) (s : State) :
  trackStops (effects (exec (cleanup closure_localStream) s))
  = (trackStops (effects s)
     ++ if hasCleanedUpRef s then []
        else senderTracks (peerConnectionRef s) ++ streamTracks closure_localStream)%list.
Proof.
  destruct (hasCleanedUpRef s) eqn:F.
  - unfold exec. rewrite (cleanup_after_flag _ _ F). simpl. now rewrite app_nil_r.
  - destruct (cleanup_first_run closure_localStream s F) as (s2 & D & _ & E).
    unfold exec at 1. rewrite E.
    change (effects (snd (resetSessionState s2))) with (effects s2).
    rewrite D. apply (releaseResources_stops closure_localStream (put_hasCleanedUpRef true s)).
Qed.

(** C2. [cleanup()] is idempotent and never fails. From every state it
    completes normally. An invocation that finds [hasCleanedUpRef] unset
    performs the teardown: it sets the flag, stops the recorder if it is
    recording, stops the tracks of the senders of the connection and those
    of the stream in its closure, closes the connection and the audio
    contexts that the session holds, and resets the session state. An
    invocation that finds the flag set changes nothing at all. So every
    invocation after the first one, from whichever closure, leaves the
    whole state, the trace of side effects included, as the first one left
    it, and any number of invocations has the effect of the first. A
    trigger (local hang-up, remote hang-up or unmount) is such an
    invocation, preceded by [call-ended] for the hang-up button and
    followed by [onEndCall()] for the two hang-ups; after a first trigger
    any further triggers leave the session state as it is and call nothing
    on the platform: they only add to the trace what the triggers
    themselves send and notify. *)
Theorem cleanup_idempotent (s : State) (first : option MediaStream)
    (later : list (option MediaStream)) :
  completion (cleanup first) s = Normal tt /\
  (hasCleanedUpRef s = false ->
   let s' := exec (cleanup first) s in
   hasCleanedUpRef s' = true /\
   (forall r, mediaRecorderRef s = Some r -> recorder_state r = recording ->
      In (Did "mediaRecorder.stop") (effects s')) /\
   trackStops (effects s')
   = (trackStops (effects s) ++ senderTracks (peerConnectionRef s) ++ streamTracks first)%list /\
   (forall pc, peerConnectionRef s = Some pc ->
      exists ok, In (Called PcClose ok) (effects s')) /\
   (localAudioContextRef s <> None ->
    exists ok, In (Called (AudioContextClose LocalSide) ok) (effects s')) /\
   (remoteAudioContextRef s <> None ->
    exists ok, In (Called (AudioContextClose RemoteSide) ok) (effects s')) /\
   localStream s' = None /\ remoteStream s' = None /\
   peerConnectionRef s' = None /\ remoteMediaStreamRef s' = None /\
   pendingRemoteIceCandidatesRef s' = [] /\
   localAudioContextRef s' = None /\ remoteAudioContextRef s' = None /\
   localAnalyserRef s' = None /\ remoteAnalyserRef s' = None /\
   mediaRecorderRef s' = None /\ audioChunksRef s' = [] /\
   callAccepted s' = false /\ isRecording s' = false /\
   localAudioLevel s' = 0%Z /\ remoteAudioLevel s' = 0%Z) /\
  (hasCleanedUpRef s = true -> cleanup first s = (Normal tt, s)) /\
  (forall again : option MediaStream,
     cleanup again (exec (cleanup first) s) = (Normal tt, exec (cleanup first) s)) /\
  fold_left (fun st closure => exec (cleanup closure) st) later (exec (cleanup first) s)
    = exec (cleanup first) s /\
  (forall trigger : Trigger,
     step s (triggerEvent trigger)
     = commit
         (put_effects
            (effects (exec (cleanup (closureOf trigger s)) (beforeCleanup trigger s))
             ++ afterCleanup trigger)
            (exec (cleanup (closureOf trigger s)) (beforeCleanup trigger s)))) /\
  (forall (trigger : Trigger) (triggers : list Trigger),
     exists log,
       run (step s (triggerEvent trigger)) (map triggerEvent triggers)
       = put_effects log (step s (triggerEvent trigger)) /\
       engineCalls log = engineCalls (effects (step s (triggerEvent trigger)))).
Proof.
  split; [apply cleanup_completes |].
  assert (K : forall again, cleanup again (exec (cleanup first) s)
                            = (Normal tt, exec (cleanup first) s)).
  { intros again. apply cleanup_after_flag, cleanup_sets_flag. }
  split; [| split; [apply cleanup_after_flag |]].
  - intros F. cbv zeta.
    pose proof (cleanup_stops first s) as Stops. rewrite F in Stops.
    destruct (cleanup_first_run first s F) as (s2 & D & F2 & E).
    unfold exec in *. rewrite E in *. cbn [snd] in *.
    change (effects (snd (resetSessionState s2))) with (effects s2) in *.
    split; [exact F2 |]. split; [| split; [exact Stops | split; [| split; [| split]]]].
    + intros r Hr Hst. rewrite D.
      now apply (releaseResources_stops_recorder first _ r).
    + intros pc Hpc. rewrite D.
      now apply (releaseResources_closes_connection first _ pc).
    + intros Held. rewrite D.
      now apply (releaseResources_closes_contexts first (put_hasCleanedUpRef true s)).
    + intros Held. rewrite D.
      now apply (releaseResources_closes_contexts first (put_hasCleanedUpRef true s)).
    + simpl. now repeat split.
  - split; [exact K |]. split; [| split].
    + induction later as [|closure later IH]; simpl; [reflexivity |].
      unfold exec at 2. rewrite K. simpl. exact IH.
    + intros trigger. apply trigger_step.
    + intros trigger triggers. apply triggers_after_cleanup.
      * apply trigger_sets_flag.
      * unfold step. apply commit_commit.
Qed.

(** X11. [cleanup()] stops the tracks of the senders of the connection it
    holds, and then the tracks of the [localStream] that its closure sees.
    The hang-up buttons run it with the current stream. The socket
    listener for [call-ended] and the unmount effect run the closure of the
    first render, in which [localStream] is [null]: a hang-up of the peer
    or an unmount stops the local tracks only through the senders of the
    connection, and stops none when the session holds a stream but no
    connection. *)
Theorem teardown_stops_what_its_closure_sees (s : State) :
  (forall closure_localStream,
     trackStops (effects (exec (cleanup closure_localStream) s))
     = (trackStops (effects s)
        ++ if hasCleanedUpRef s then []
           else senderTracks (peerConnectionRef s)
                ++ streamTracks closure_localStream)%list) /\
  (forall t : Trigger,
     trackStops (effects (step s (triggerEvent t)))
     = (trackStops (effects s)
        ++ if hasCleanedUpRef s then []
           else senderTracks (peerConnectionRef s)
                ++ streamTracks (closureOf t s))%list).
Proof.
  split; [intros c; apply cleanup_stops |].
  intros t. unfold step.
  change (effects (commit (exec (handler s (triggerEvent t)) s)))
    with (effects (exec (handler s (triggerEvent t)) s)).
  destruct t; unfold triggerEvent, handler, closureOf, endCall, handleCallEnded.
  - rewrite (exec_bind_normal (emit "call-ended" [("to", FValue peerId)]) _ s
               (appendLog (Emitted "call-ended" [("to", FValue peerId)]) s) tt eq_refl).
    destruct (safe_run _ (appendLog (Emitted "call-ended" [("to", FValue peerId)]) s)
                (safe_cleanup (localStream s))) as ([] & s1 & E).
    rewrite (exec_bind_normal _ _ _ _ _ E).
    pose proof (cleanup_stops (localStream s)
                  (appendLog (Emitted "call-ended" [("to", FValue peerId)]) s)) as K.
    unfold exec in K. rewrite E in K. simpl in K.
    unfold exec, record, modify, appendLog. simpl.
    rewrite trackStops_app, K, trackStops_app. simpl. now rewrite !app_nil_r.
  - destruct (safe_run _ s (safe_cleanup None)) as ([] & s1 & E).
    rewrite (exec_bind_normal _ _ _ _ _ E).
    pose proof (cleanup_stops None s) as K.
    unfold exec in K. rewrite E in K. simpl in K.
    unfold exec, record, modify, appendLog. simpl.
    rewrite trackStops_app, K. simpl. now rewrite !app_nil_r.
  - apply (cleanup_stops None (put_localVideoRef None (put_remoteVideoRef None s))).
Qed.

(** *** After the teardown *)

Lemma cleanup_keeps_init (closure_localStream : option MediaStream) (stage : InitStage)
    (flag : bool) :
  preserves (fun st => initStage st = stage /\ initializedRef st = flag)
    (cleanup closure_localStream).
Proof. repeat preserves_step; intros; simpl; assumption. Qed.

Lemma cleanup_tears_down (closure_localStream : option MediaStream) (s : State) :
  hasCleanedUpRef s = false -> initStage s = Settled -> initializedRef s = true ->
  exists s1,
    cleanup closure_localStream s = (Normal tt, s1) /\
    hasCleanedUpRef s1 = true /\ initializedRef s1 = true /\ initStage s1 = Settled /\
    localStream s1 = None /\ remoteStream s1 = None /\ callAccepted s1 = false /\
    isRecording s1 = false /\ peerConnectionRef s1 = None /\
    mediaRecorderRef s1 = None /\ localAnalyserRef s1 = None /\
    remoteAnalyserRef s1 = None.
Proof.
  intros F St In.
  destruct (cleanup_first_run closure_localStream s F) as (s2 & _ & F2 & E).
  pose proof (cleanup_keeps_init closure_localStream Settled true s (conj St In)) as [K1 K2].
  unfold exec in K1, K2. rewrite E in *. simpl in *.
  eexists. split; [reflexivity |]. simpl. now repeat split.
Qed.

Lemma trigger_tears_down (t : Trigger) (s : State) :
  hasCleanedUpRef s = false -> initStage s = Settled -> initializedRef s = true ->
  tornDown (step s (triggerEvent t)).
Proof.
  intros F St In. unfold step.
  destruct t; unfold triggerEvent, handler, endCall, handleCallEnded.
  - rewrite (exec_bind_normal (emit "call-ended" [("to", FValue peerId)]) _ s
               (appendLog (Emitted "call-ended" [("to", FValue peerId)]) s) tt eq_refl).
    destruct (cleanup_tears_down (localStream s)
                (appendLog (Emitted "call-ended" [("to", FValue peerId)]) s) F St In)
      as (s1 & E & H).
    rewrite (exec_bind_normal _ _ _ _ _ E).
    destruct H as (A & B & C & D & E' & G & H & I & J & K & L).
    unfold tornDown, commit, exec, record, modify. simpl.
    rewrite D, E', G. simpl. now repeat split.
  - destruct (cleanup_tears_down None s F St In) as (s1 & E & H).
    rewrite (exec_bind_normal _ _ _ _ _ E).
    destruct H as (A & B & C & D & E' & G & H & I & J & K & L).
    unfold tornDown, commit, exec, record, modify. simpl.
    rewrite D, E', G. simpl. now repeat split.
  - destruct (cleanup_tears_down None (put_localVideoRef None (put_remoteVideoRef None s))
                F St In) as (s1 & E & H).
    unfold exec, bind, modify. rewrite E.
    destruct H as (A & B & C & D & E' & G & H & I & J & K & L).
    unfold tornDown, commit. simpl.
    rewrite D, E', G. simpl. now repeat split.
Qed.

Lemma tornDown_step (s : State) (ev : Event) :
  tornDown s -> isRecorderCallback ev = false ->
  tornDown (step s ev) /\
  onlyTold s (step s ev) /\
  engineCalls (effects (step s ev)) = engineCalls (effects s) /\
  (forall event, event <> "call-ended" ->
     emitted event (effects (step s ev)) = emitted event (effects s)).
Proof.
  intros (A & B & C & D & E & F & G & H & I & J & K & L & M) Hev.
  destruct s. simpl in *. subst.
  assert (Quiet : forall (log : list LogEntry) (e : LogEntry),
             match e with Called _ _ | Emitted _ _ => False | _ => True end ->
             engineCalls (log ++ [e]) = engineCalls log /\
             forall event, emitted event (log ++ [e]) = emitted event log).
  { intros log e He. split; [| intros event].
    - rewrite engineCalls_app. destruct e; simpl; try apply app_nil_r; contradiction.
    - rewrite emitted_app. destruct e; simpl; try apply app_nil_r; contradiction. }
  destruct ev; try discriminate Hev; unfold step, exec, handler.
  all: try (simpl; unfold tornDown, onlyTold; simpl; now repeat split).
  - (* an answer *)
    unfold handleCallAnswer, bind, get. simpl.
    destruct (Quiet effects0 (Console Warn "No peer connection or answer data") I) as [Q1 Q2].
    unfold tornDown, onlyTold. simpl. repeat split; try assumption. intros; apply Q2.
  - (* a candidate *)
    unfold handleIceCandidate, bind, get. simpl.
    destruct (Quiet effects0 (Console Warn "No peer connection or candidate data") I)
      as [Q1 Q2].
    unfold tornDown, onlyTold. simpl. repeat split; try assumption. intros; apply Q2.
  - (* a hang-up of the peer *)
    unfold handleCallEnded, cleanup, bind, get, record, modify. simpl.
    destruct (Quiet effects0 EndCallNotified I) as [Q1 Q2].
    unfold tornDown, onlyTold. simpl. repeat split; try assumption. intros; apply Q2.
  - (* a click on a hang-up button *)
    unfold endCall, handleCallEnded, cleanup, emit, bind, get, record, modify. simpl.
    unfold tornDown, onlyTold. cbn -[String.eqb emitted engineCalls]. repeat split.
    + rewrite !engineCalls_app. simpl. now rewrite !app_nil_r.
    + intros event Ne. rewrite !emitted_app. cbn -[String.eqb].
      assert (X : String.eqb "call-ended" event = false).
      { apply String.eqb_neq. congruence. }
      rewrite X. now rewrite !app_nil_r.
  - (* an animation frame *)
    unfold updateAudioLevel, bind, get. destruct side; simpl;
      unfold tornDown, onlyTold; simpl; now repeat split.
Qed.

Lemma onlyTold_trans (s s1 s2 : State) : onlyTold s s1 -> onlyTold s1 s2 -> onlyTold s s2.
Proof. unfold onlyTold. intros -> ->. reflexivity. Qed.

Lemma tornDown_run (evs : list Event) :
  forall s,
    tornDown s -> forallb (fun ev => negb (isRecorderCallback ev)) evs = true ->
    onlyTold s (run s evs) /\
    engineCalls (effects (run s evs)) = engineCalls (effects s) /\
    (forall event, event <> "call-ended" ->
       emitted event (effects (run s evs)) = emitted event (effects s)).
Proof.
  induction evs as [|ev evs IH]; intros s T Hevs; simpl.
  - repeat split. unfold onlyTold. destruct s; reflexivity.
  - simpl in Hevs. apply andb_prop in Hevs as [Hev Hevs].
    apply negb_true_iff in Hev.
    destruct (tornDown_step s ev T Hev) as (T1 & O1 & C1 & S1).
    destruct (IH (step s ev) T1 Hevs) as (O & C & S).
    fold (run (step s ev) evs). split; [| split].
    + exact (onlyTold_trans _ _ _ O1 O).
    + now rewrite C.
    + intros event Ne. now rewrite (S event Ne), (S1 event Ne).
Qed.

(** X12. Once a call whose initialization has settled is torn down -- by a
    hang-up button, a hang-up of the peer or the unmount -- the session is
    inert. Whatever happens afterwards (messages, callbacks of the
    connection, clicks, animation frames, a second mount; the callbacks of
    the recorder apart), it calls nothing on the platform, it changes no
    state cell and no reference except the selected audio format, and it
    sends nothing but [call-ended] when a hang-up button is clicked again. *)
Theorem torn_down_session_is_inert (s : State) (t : Trigger) (evs : list Event) :
  hasCleanedUpRef s = false -> initStage s = Settled -> initializedRef s = true ->
  forallb (fun ev => negb (isRecorderCallback ev)) evs = true ->
  onlyTold (step s (triggerEvent t)) (run (step s (triggerEvent t)) evs) /\
  engineCalls (effects (run (step s (triggerEvent t)) evs))
  = engineCalls (effects (step s (triggerEvent t))) /\
  (forall event, event <> "call-ended" ->
     emitted event (effects (run (step s (triggerEvent t)) evs))
     = emitted event (effects (step s (triggerEvent t)))).
Proof.
  intros F St In Hevs.
  apply tornDown_run; [| exact Hevs]. now apply trigger_tears_down.
Qed.

(** *** A teardown that comes before the media *)

(** A tally that looks at the platform calls only is determined by them. *)
Lemma tally_of_calls (w : LogEntry -> nat) (l1 l2 : list LogEntry) :
  (forall e, w e = match e with Called op _ => w (Called op true) | _ => 0%nat end) ->
  engineCalls l1 = engineCalls l2 ->
  list_sum (map w l1) = list_sum (map w l2).
Proof.
  intros Hw.
  assert (K : forall l,
             list_sum (map w l)
             = list_sum (map (fun op => w (Called op true)) (engineCalls l))).
  { induction l as [|e l IH]; simpl; [reflexivity |].
    rewrite (Hw e). destruct e; simpl; rewrite IH; reflexivity. }
  intros E. now rewrite (K l1), (K l2), E.
Qed.

(** X13. [initializeCall] does not look at [hasCleanedUpRef]. If [cleanup]
    has run while it was waiting for the media -- an unmount or a hang-up
    before [getUserMedia] settles, or the second mount for which the mount
    guard is written -- it goes on when the media arrive: it installs the
    stream and builds the connection. No hang-up and no unmount that
    follows releases them: [cleanup] returns at its guard, so the session
    keeps the stream and the connection, no track is stopped and nothing
    is closed. *)
Theorem initialization_outlives_teardown (s : State) (stream : MediaStream)
    (ack : TurnAck) (triggers : list Trigger) :
  hasCleanedUpRef s = true -> initStage s = AwaitingMedia ->
  fails (effects s) GetUserMedia = None -> connectionCanBeBuilt ->
  let s' := run s (MediaSettled stream :: TurnConfigSettled ack
                     :: map triggerEvent triggers) in
  tally mediaRequest s' = (tally mediaRequest s + 1)%nat /\
  tally connectionBuilt s' = (tally connectionBuilt s + 1)%nat /\
  localStream s' = Some stream /\
  peerConnectionRef s' <> None /\
  tally release s' = tally release s.
Proof.
  intros F St Gum Ok. cbv zeta. cbn [run fold_left].
  (* the media arrive *)
  assert (S1 : exists s1,
             step s (MediaSettled stream) = commit s1 /\
             hasCleanedUpRef s1 = true /\ initStage s1 = AwaitingTurnConfig stream /\
             localStream s1 = Some stream /\
             tally mediaRequest s1 = (tally mediaRequest s + 1)%nat /\
             tally connectionBuilt s1 = tally connectionBuilt s /\
             tally release s1 = tally release s).
  { destruct (initializeCall_media_cases stream s)
      as (s1 & E & _ & C & _ & R & M & P & _ & Rest).
    rewrite Gum in Rest. destruct Rest as (G & _ & L & _).
    exists s1. unfold step, handler, exec. rewrite St, E. simpl.
    repeat split; congruence. }
  destruct S1 as (s1 & -> & F1 & St1 & L1 & M1 & P1 & R1).
  (* the connection is built *)
  assert (S2 : exists s2,
             step (commit s1) (TurnConfigSettled ack) = commit s2 /\
             hasCleanedUpRef s2 = true /\ localStream s2 = Some stream /\
             peerConnectionRef s2 <> None /\
             tally mediaRequest s2 = (tally mediaRequest s + 1)%nat /\
             tally connectionBuilt s2 = (tally connectionBuilt s + 1)%nat /\
             tally release s2 = tally release s).
  { destruct (initializeCall_connect_run stream ack (commit s1) Ok)
      as (rtcConfig & sa & s2 & _ & E & Hpc & _ & _).
    destruct (initializeCall_connect_cases stream ack (commit s1))
      as (s2' & E' & _ & C & L & R & M & _ & P & _ & _).
    rewrite E in E'. injection E' as <-.
    exists s2. unfold step, handler, exec.
    change (initStage (commit s1)) with (initStage s1). rewrite St1, E. simpl.
    split; [reflexivity |].
    change (tally release (commit s1)) with (tally release s1) in R.
    change (tally mediaRequest (commit s1)) with (tally mediaRequest s1) in M.
    change (tally connectionBuilt (commit s1)) with (tally connectionBuilt s1) in P.
    change (hasCleanedUpRef (commit s1)) with (hasCleanedUpRef s1) in C.
    change (localStream (commit s1)) with (localStream s1) in L.
    repeat split; congruence. }
  destruct S2 as (s2 & -> & F2 & L2 & Pc2 & M2 & P2 & R2).
  (* whatever tears the call down afterwards *)
  destruct (triggers_after_cleanup triggers (commit s2) F2 (commit_commit s2))
    as (log & E & Calls).
  fold (run (commit s2) (map triggerEvent triggers)). rewrite E.
  assert (T : forall w,
             (forall e, w e = match e with Called op _ => w (Called op true) | _ => 0%nat end) ->
             tally w (put_effects log (commit s2)) = tally w s2).
  { intros w Hw. unfold tally. simpl. now apply tally_of_calls. }
  rewrite !T by (intros [op ok| | | | |]; try reflexivity; destruct op; reflexivity).
  now repeat split.
Qed.

End Session.

(** *** Concrete calls *)

Lemma neverFails_builds : connectionCanBeBuilt neverFails.
Proof. intros log op. destruct op; exact I || reflexivity. Qed.



(** The component does not refuse a second answer itself. On a platform
    that accepts whatever it is handed, two answers arrive on an outgoing
    call: [setRemoteDescription] is called for both and the second
    replaces the first as remote description; and an answer that arrives
    before the offer has been created is applied as well. *)
Lemma second_answer_on_lenient_engine :
  engineCalls
    (effects
       (run demoOutgoing demoUser demoEnv demoSupported neverFails initialState
          (demoSetup ++ [ CallAnswerReceived (Some demoAnswer);
                          CallAnswerReceived (Some laterAnswer) ])))
  = [ GetUserMedia; NewAudioMonitor LocalSide; NewMediaRecorder "audio/webm";
      NewRTCPeerConnection {| iceServers := defaultIceServers; iceTransportPolicy := None |};
      PcAddTrack "mic"; PcAddTrack "cam";
      PcCreateOffer; PcSetLocalDescription demoOffer;
      PcSetRemoteDescription demoAnswer; PcSetRemoteDescription laterAnswer ] /\
  option_map remoteDescription
    (peerConnectionRef
       (run demoOutgoing demoUser demoEnv demoSupported neverFails initialState
          (demoSetup ++ [ CallAnswerReceived (Some demoAnswer);
                          CallAnswerReceived (Some laterAnswer) ])))
  = Some (Some laterAnswer) /\
  option_map (fun pc => (localDescription pc, remoteDescription pc))
    (peerConnectionRef
       (run demoOutgoing demoUser demoEnv demoSupported neverFails initialState
          (demoConnect ++ [CallAnswerReceived (Some demoAnswer)])))
  = Some (None, Some demoAnswer).
Proof. repeat split; vm_compute; reflexivity. Qed.

(** On a platform that follows the offer/answer exchange the second
    answer is handed to the connection all the same; it is the platform
    that refuses it, and the first answer stays. *)
Lemma second_answer_on_strict_engine :
  engineCalls
    (effects
       (run demoOutgoing demoUser demoEnv demoSupported strictEngine initialState
          (demoSetup ++ [ CallAnswerReceived (Some demoAnswer);
                          CallAnswerReceived (Some laterAnswer) ])))
  = [ GetUserMedia; NewAudioMonitor LocalSide; NewMediaRecorder "audio/webm";
      NewRTCPeerConnection {| iceServers := defaultIceServers; iceTransportPolicy := None |};
      PcAddTrack "mic"; PcAddTrack "cam";
      PcCreateOffer; PcSetLocalDescription demoOffer;
      PcSetRemoteDescription demoAnswer; PcSetRemoteDescription laterAnswer ] /\
  In (Called (PcSetRemoteDescription laterAnswer) false)
    (effects
       (run demoOutgoing demoUser demoEnv demoSupported strictEngine initialState
          (demoSetup ++ [ CallAnswerReceived (Some demoAnswer);
                          CallAnswerReceived (Some laterAnswer) ]))) /\
  option_map remoteDescription
    (peerConnectionRef
       (run demoOutgoing demoUser demoEnv demoSupported strictEngine initialState
          (demoSetup ++ [ CallAnswerReceived (Some demoAnswer);
                          CallAnswerReceived (Some laterAnswer) ])))
  = Some (Some demoAnswer).
Proof.
  split; [vm_compute; reflexivity |]. split; [| vm_compute; reflexivity].
  vm_compute. tauto.
Qed.



Lemma answer_always_submitted_witness :
  peerConnectionRef
    (exec (handleCallAnswer neverFails (Some laterAnswer))
       (run demoOutgoing demoUser demoEnv demoSupported neverFails initialState
          (demoSetup ++ [CallAnswerReceived (Some demoAnswer)])))
  = Some {| configuration := {| iceServers := defaultIceServers; iceTransportPolicy := None |};
            remoteDescription := Some laterAnswer;
            localDescription := Some demoOffer;
            senders := [Some "mic"; Some "cam"] |}.
Proof.
  pose proof (answer_always_submitted neverFails
                (run demoOutgoing demoUser demoEnv demoSupported neverFails initialState
                   (demoSetup ++ [CallAnswerReceived (Some demoAnswer)]))
                laterAnswer) as [[H _] _].
  exact H.
Defined.

(** C4 fails as stated: the chunks carry no sequence index. Two chunks of
    one recording are sent as the same object of four fields, so nothing in
    them tells the first from the second. *)
Lemma audio_chunks_carry_no_index :
  emitted "audio-chunk"
    (effects
       (run demoOutgoing demoUser demoEnv demoSupported neverFails initialState
          (demoSetup ++ [ RecordClicked;
                          DataAvailable demoBlob 17; DataAvailable demoBlob 18 ])))
  = [ [ ("conversationId", FValue (JString "c42"));
        ("audioData", FValue (JString "AAAA"));
        ("userId", FValue (JString "u1"));
        ("format", FValue (JString "webm")) ];
      [ ("conversationId", FValue (JString "c42"));
        ("audioData", FValue (JString "AAAA"));
        ("userId", FValue (JString "u1"));
        ("format", FValue (JString "webm")) ] ] /\
  ~ hasFurtherField
      [ ("conversationId", FValue (JString "c42"));
        ("audioData", FValue (JString "AAAA"));
        ("userId", FValue (JString "u1"));
        ("format", FValue (JString "webm")) ].
Proof.
  split; [vm_compute; reflexivity |].
  intros (name & Hin & Hout). exact (Hout Hin).
Qed.

Lemma audio_chunk_has_four_fields_witness :
  (0 < blob_size demoBlob)%nat /\
  emitted "audio-chunk"
    (effects
       (exec (ondataavailable demoOutgoing demoUser neverFails "webm" demoBlob 17)
          initialState))
  = [ [ ("conversationId", FValue (JString "c42"));
        ("audioData", FValue (JString "AAAA"));
        ("userId", FValue (JString "u1"));
        ("format", FValue (JString "webm")) ] ].
Proof.
  split; [simpl; lia |].
  destruct (audio_chunk_has_four_fields
              demoOutgoing demoUser demoEnv demoSupported neverFails) as [_ W].
  assert (P : (0 < blob_size demoBlob)%nat) by (simpl; lia).
  exact (W "webm" demoBlob 17%N initialState P eq_refl).
Defined.

Lemma relay_config_falls_back_witness :
  timedOut NoAck /\
  exists s',
    initializeCall_connect demoTurnEnv neverFails demoStream NoAck
      initialState = (Normal tt, s') /\
    option_map (fun pc => iceServers (configuration pc)) (peerConnectionRef s')
    = Some [ stunServer "stun:stun.l.google.com:19302";
             stunServer "stun:stun1.l.google.com:19302";
             stunServer "stun:stun2.l.google.com:19302";
             turnServer "turn:turn.example.org:3478?transport=udp" "s3cret";
             turnServer "turn:turn.example.org:3478?transport=tcp" "s3cret" ] /\
    alerts s' = [].
Proof.
  split; [exact I |].
  destruct (relay_config_falls_back demoTurnEnv neverFails
              NoAck demoStream initialState (or_introl I))
    as [(rtcConfig & _ & Setup & Late & _ & _) _].
  destruct (Setup neverFails_builds) as (s' & E & Hpc & _ & A).
  exists s'. split; [exact E |]. split; [| exact A].
  rewrite Hpc. simpl. rewrite (Late I). reflexivity.
Defined.

Lemma cleanup_idempotent_witness :
  hasCleanedUpRef
    (run demoOutgoing demoUser demoEnv demoSupported neverFails initialState
       (demoSetup ++ [ CallAnswerReceived (Some demoAnswer);
                       TrackArrived remoteVideoTrack; RecordClicked ])) = false /\
  hasCleanedUpRef
    (exec (cleanup neverFails (Some demoStream))
       (run demoOutgoing demoUser demoEnv demoSupported neverFails initialState
          (demoSetup ++ [ CallAnswerReceived (Some demoAnswer);
                          TrackArrived remoteVideoTrack; RecordClicked ]))) = true /\
  In (Did "mediaRecorder.stop")
    (effects
       (exec (cleanup neverFails (Some demoStream))
          (run demoOutgoing demoUser demoEnv demoSupported neverFails initialState
             (demoSetup ++ [ CallAnswerReceived (Some demoAnswer);
                             TrackArrived remoteVideoTrack; RecordClicked ])))) /\
  trackStops
    (effects
       (exec (cleanup neverFails (Some demoStream))
          (run demoOutgoing demoUser demoEnv demoSupported neverFails initialState
             (demoSetup ++ [ CallAnswerReceived (Some demoAnswer);
                             TrackArrived remoteVideoTrack; RecordClicked ]))))
  = ["mic"; "cam"; "mic"; "cam"] /\
  peerConnectionRef
    (exec (cleanup neverFails (Some demoStream))
       (run demoOutgoing demoUser demoEnv demoSupported neverFails initialState
          (demoSetup ++ [ CallAnswerReceived (Some demoAnswer);
                          TrackArrived remoteVideoTrack; RecordClicked ]))) = None.
Proof.
  split; [reflexivity |].
  destruct (cleanup_idempotent demoOutgoing demoUser demoEnv demoSupported neverFails
              (run demoOutgoing demoUser demoEnv demoSupported neverFails initialState
                 (demoSetup ++ [ CallAnswerReceived (Some demoAnswer);
                                 TrackArrived remoteVideoTrack; RecordClicked ]))
              (Some demoStream) []) as (_ & First & _).
  destruct (First eq_refl) as (F & Rec & Stops & _ & _ & _ & _ & _ & Pc & _).
  split; [exact F |]. split; [| split; [exact Stops | exact Pc]].
  exact (Rec {| recorder_state := recording; recorder_mimeType := "audio/webm" |}
           eq_refl eq_refl).
Defined.

Lemma cleanup_resets_session_state_witness :
  hasCleanedUpRef
    (run demoOutgoing demoUser demoEnv demoSupported neverFails initialState
       (demoSetup ++ [ CallAnswerReceived (Some demoAnswer);
                       TrackArrived remoteVideoTrack; RecordClicked ])) = false /\
  callAccepted
    (run demoOutgoing demoUser demoEnv demoSupported neverFails initialState
       (demoSetup ++ [ CallAnswerReceived (Some demoAnswer);
                       TrackArrived remoteVideoTrack; RecordClicked ])) = true /\
  callAccepted
    (exec (cleanup neverFails None)
       (run demoOutgoing demoUser demoEnv demoSupported neverFails initialState
          (demoSetup ++ [ CallAnswerReceived (Some demoAnswer);
                          TrackArrived remoteVideoTrack; RecordClicked ]))) = false /\
  peerConnectionRef
    (exec (cleanup neverFails None)
       (run demoOutgoing demoUser demoEnv demoSupported neverFails initialState
          (demoSetup ++ [ CallAnswerReceived (Some demoAnswer);
                          TrackArrived remoteVideoTrack; RecordClicked ]))) = None.
Proof.
  split; [reflexivity |]. split; [reflexivity |].
  destruct (cleanup_resets_session_state neverFails
              (run demoOutgoing demoUser demoEnv demoSupported neverFails initialState
                 (demoSetup ++ [ CallAnswerReceived (Some demoAnswer);
                                 TrackArrived remoteVideoTrack; RecordClicked ]))
              None eq_refl) as (_ & _ & P & _ & _ & A & _).
  split; [exact A | exact P].
Defined.

Lemma audio_data_is_the_body_of_the_url_witness :
  noSeparator "," "data:audio/webm;base64" = true /\
  fieldOf "audioData"
    (audioChunkPayload demoOutgoing demoUser "webm" (blob_dataURL demoBlob) 17)
  = Some (FValue (JString "AAAA")).
Proof.
  split; [reflexivity |].
  destruct (audio_data_is_the_body_of_the_url demoOutgoing demoUser "webm" 17)
    as (A & _ & _).
  destruct (A "data:audio/webm;base64" "AAAA" eq_refl) as [E _]. exact E.
Defined.

Lemma chunk_conversation_id_witness :
  truthy (conversationId demoAnonymous) = false /\
  fieldOf "conversationId"
    (audioChunkPayload demoAnonymous demoUser "webm" (blob_dataURL demoBlob) 17)
  = Some (FValue (JString "call_u1_17")).
Proof.
  split; [reflexivity |].
  destruct (chunk_conversation_id demoAnonymous demoUser "webm"
              (blob_dataURL demoBlob) (blob_dataURL demoBlob) 17 18) as [_ B].
  destruct (B eq_refl) as [E _]. exact E.
Defined.

Lemma chunks_are_kept_witness :
  blob_size emptyBlob = 0%nat /\
  exec (ondataavailable demoOutgoing demoUser neverFails "webm" emptyBlob 17)
    initialState = initialState.
Proof.
  split; [reflexivity |].
  destruct (chunks_are_kept demoOutgoing demoUser neverFails "webm" initialState)
    as (_ & Z & _).
  exact (Z emptyBlob 17%N eq_refl).
Defined.

Lemma call_without_offer_is_left_unanswered_witness :
  callType demoIncomingNoOffer <> "outgoing" /\
  offer demoIncomingNoOffer = None /\
  initializeCall_negotiate demoIncomingNoOffer demoUser neverFails demoAnswer initialState
  = (Normal tt, put_initStage Settled initialState).
Proof.
  assert (N : callType demoIncomingNoOffer <> "outgoing") by discriminate.
  split; [exact N |]. split; [reflexivity |].
  exact (call_without_offer_is_left_unanswered demoIncomingNoOffer demoUser neverFails
           demoAnswer initialState N (or_intror eq_refl)).
Defined.

Lemma torn_down_session_is_inert_witness :
  initStage
    (run demoOutgoing demoUser demoEnv demoSupported neverFails initialState demoSetup)
  = Settled /\
  engineCalls
    (effects
       (run demoOutgoing demoUser demoEnv demoSupported neverFails
          (step demoOutgoing demoUser demoEnv demoSupported neverFails
             (run demoOutgoing demoUser demoEnv demoSupported neverFails initialState
                demoSetup)
             (triggerEvent RemoteHangup))
          [ IceCandidateReceived (Some candidate1); TrackArrived remoteVideoTrack;
            Mounted true; RecordClicked; EndCallClicked ]))
  = engineCalls
      (effects
         (step demoOutgoing demoUser demoEnv demoSupported neverFails
            (run demoOutgoing demoUser demoEnv demoSupported neverFails initialState
               demoSetup)
            (triggerEvent RemoteHangup))).
Proof.
  split; [reflexivity |].
  destruct (torn_down_session_is_inert demoOutgoing demoUser demoEnv demoSupported
              neverFails
              (run demoOutgoing demoUser demoEnv demoSupported neverFails initialState
                 demoSetup)
              RemoteHangup
              [ IceCandidateReceived (Some candidate1); TrackArrived remoteVideoTrack;
                Mounted true; RecordClicked; EndCallClicked ]
              eq_refl eq_refl eq_refl eq_refl) as (_ & E & _).
  exact E.
Defined.

Lemma initialization_outlives_teardown_witness :
  hasCleanedUpRef
    (run demoOutgoing demoUser demoEnv demoSupported neverFails initialState
       [Mounted true; Unmounted]) = true /\
  initStage
    (run demoOutgoing demoUser demoEnv demoSupported neverFails initialState
       [Mounted true; Unmounted]) = AwaitingMedia /\
  peerConnectionRef
    (run demoOutgoing demoUser demoEnv demoSupported neverFails
       (run demoOutgoing demoUser demoEnv demoSupported neverFails initialState
          [Mounted true; Unmounted])
       (MediaSettled demoStream :: TurnConfigSettled (AckAfter 20 None)
          :: map triggerEvent [LocalHangup; ComponentUnmount])) <> None /\
  tally release
    (run demoOutgoing demoUser demoEnv demoSupported neverFails
       (run demoOutgoing demoUser demoEnv demoSupported neverFails initialState
          [Mounted true; Unmounted])
       (MediaSettled demoStream :: TurnConfigSettled (AckAfter 20 None)
          :: map triggerEvent [LocalHangup; ComponentUnmount]))
  = 0%nat.
Proof.
  split; [reflexivity |]. split; [reflexivity |].
  destruct (initialization_outlives_teardown demoOutgoing demoUser demoEnv demoSupported
              neverFails
              (run demoOutgoing demoUser demoEnv demoSupported neverFails initialState
                 [Mounted true; Unmounted])
              demoStream (AckAfter 20 None) [LocalHangup; ComponentUnmount]
              eq_refl eq_refl eq_refl neverFails_builds) as (_ & _ & _ & P & R).
  split; [exact P | exact R].
Defined.

Lemma description_is_sent_once_it_is_set_witness :
  callType demoOutgoing = "outgoing" /\
  effects (exec (initializeCall_negotiate demoOutgoing demoUser neverFails demoOffer)
             initialState)
  = [ Called PcCreateOffer true;
      Called (PcSetLocalDescription demoOffer) true;
      Emitted "call-offer"
        [ ("to", FValue (JString "u2")); ("from", FValue (JString "alice"));
          ("fromUserId", FValue (JString "u1")); ("offer", FDescription demoOffer) ] ] /\
  callType demoIncoming = "incoming" /\
  offer demoIncoming = Some demoOffer /\
  effects (exec (initializeCall_negotiate demoIncoming demoUser neverFails demoAnswer)
             initialState)
  = [ Called (PcSetRemoteDescription demoOffer) true;
      Called PcCreateAnswer true;
      Called (PcSetLocalDescription demoAnswer) true;
      Emitted "call-answer"
        [ ("to", FValue (JString "u2")); ("answer", FDescription demoAnswer) ] ].
Proof.
  split; [reflexivity |]. split.
  - exact (proj1 (proj1 (description_is_sent_once_it_is_set demoOutgoing demoUser
                           neverFails demoOffer initialState) eq_refl)).
  - split; [reflexivity |]. split; [reflexivity |].
    destruct (proj2 (description_is_sent_once_it_is_set demoIncoming demoUser neverFails
                       demoAnswer initialState) demoOffer eq_refl eq_refl)
      as (_ & H & _).
    exact H.
Defined.

Lemma backend_configuration_is_used_as_it_is_witness :
  (100 < turnConfigTimeout)%nat /\
  turn_iceServers demoTurnReply
  = Some [ {| urls := ["turn:relay.example.net:3478"]; username := Some "call";
              credential := Some "k3y"; credentialType := None |} ] /\
  resolveRtcConfig demoTurnEnv (AckAfter 100 (Some demoTurnReply)) initialState
  = (Normal
       {| iceServers :=
            [ {| urls := ["turn:relay.example.net:3478"]; username := Some "call";
                 credential := Some "k3y"; credentialType := None |} ];
          iceTransportPolicy := None |},
     initialState).
Proof.
  assert (InTime : (100 < turnConfigTimeout)%nat) by (unfold turnConfigTimeout; lia).
  split; [exact InTime |]. split; [reflexivity |].
  exact (proj1 (backend_configuration_is_used_as_it_is demoTurnEnv neverFails 100
                  demoTurnReply _ demoStream initialState InTime eq_refl)).
Defined.

End VideoCall.

(** ** The alert policy: proofs *)

Module FraudDetectionFacts.
Import Js FraudDetection.

Lemma strictEq_string (v : JsValue) (s : string) :
  strictEq v (JString s) = true <-> v = JString s.
Proof.
  destruct v as [| |b|x|t]; simpl; split; intros H; try discriminate.
  - apply String.eqb_eq in H. now subst.
  - injection H as ->. apply String.eqb_refl.
Qed.

Lemma flagged_dec_text (fraudScore : JsValue) :
  flagged fraudScore (JString "text") <-> strictEq fraudScore (JNumber 2) = true.
Proof.
  unfold flagged; split.
  - intros [[_ H]|[H _]]; [exact H | discriminate H].
  - intros H; left; split; [reflexivity | exact H].
Qed.

Lemma flagged_dec_audio (fraudScore : JsValue) :
  flagged fraudScore (JString "audio") <-> strictEq fraudScore (JNumber 1) = true.
Proof.
  unfold flagged; split.
  - intros [[H _]|[_ H]]; [discriminate H | exact H].
  - intros H; right; split; [reflexivity | exact H].
Qed.

Lemma flagged_other (fraudScore type : JsValue) :
  strictEq type (JString "text") = false ->
  strictEq type (JString "audio") = false ->
  ~ flagged fraudScore type.
Proof.
  intros Ht Ha [[E _]|[E _]]; subst type; simpl in *; discriminate.
Qed.

(** C10. For every fraud score and analysis type, [calculateAlertSeverity]
    returns "high" exactly when (type is "text" and the score is [=== 2]) or
    (type is "audio" and the score is [=== 1]), and "low" otherwise; hence the
    score 1 is "high" for audio and "low" for text; [generateAlertMessage]
    reports a finding on exactly the same condition. *)
Theorem alert_policy_partition (fraudScore type : JsValue) :
  (calculateAlertSeverity fraudScore type = "high" <-> flagged fraudScore type) /\
  (calculateAlertSeverity fraudScore type = "low" <-> ~ flagged fraudScore type) /\
  calculateAlertSeverity (JNumber 1) (JString "audio") = "high" /\
  calculateAlertSeverity (JNumber 1) (JString "text") = "low" /\
  (reportsFinding (generateAlertMessage fraudScore type) = true
     <-> flagged fraudScore type).
Proof.
  assert (Hcase :
    (flagged fraudScore type /\
       calculateAlertSeverity fraudScore type = "high" /\
       reportsFinding (generateAlertMessage fraudScore type) = true) \/
    (~ flagged fraudScore type /\
       calculateAlertSeverity fraudScore type = "low" /\
       reportsFinding (generateAlertMessage fraudScore type) = false)).
  { unfold calculateAlertSeverity, generateAlertMessage.
    destruct (strictEq type (JString "text")) eqn:Ht.
    - apply strictEq_string in Ht; subst type.
      destruct (strictEq fraudScore (JNumber 2)) eqn:Hs.
      + left. split; [now apply flagged_dec_text | split; reflexivity].
      + right. split; [| split; reflexivity].
        rewrite flagged_dec_text. congruence.
    - destruct (strictEq type (JString "audio")) eqn:Ha.
      + apply strictEq_string in Ha; subst type.
        destruct (strictEq fraudScore (JNumber 1)) eqn:Hs.
        * left. split; [now apply flagged_dec_audio | split; reflexivity].
        * right. split; [| split; reflexivity].
          rewrite flagged_dec_audio. congruence.
      + right. split; [now apply flagged_other | split; reflexivity]. }
  repeat split; try reflexivity;
    destruct Hcase as [(F & Hs & Hm)|(F & Hs & Hm)]; intros; try tauto;
    try (rewrite Hs in *; discriminate); try (rewrite Hm in *; discriminate).
Qed.

End FraudDetectionFacts.

(** ** The fraud detection service: proofs *)

Module FraudServiceFacts.
Import Js FraudDetection FraudService.

Lemma yields_ret {A : Type} (a : A) (P : A -> Prop) : P a -> yields (ret a) P.
Proof. intros H w b w' E. injection E as <- _. exact H. Qed.

Lemma yields_throw {A : Type} (reason : Thrown) (P : A -> Prop) :
  yields (throw reason) P.
Proof. intros w a w' E. discriminate E. Qed.

Lemma yields_any {A : Type} (m : Svc A) : yields m (fun _ => True).
Proof. intros w a w' _. exact I. Qed.

Lemma yields_bind {A B : Type} (m : Svc A) (k : A -> Svc B) (Q : A -> Prop)
    (P : B -> Prop) :
  yields m Q -> (forall a, Q a -> yields (k a) P) -> yields (bind m k) P.
Proof.
  intros Hm Hk w b w' E. unfold bind in E.
  destruct (m w) as [[a|e] w1] eqn:Em; [| discriminate E].
  exact (Hk a (Hm _ _ _ Em) _ _ _ E).
Qed.

Lemma yields_tryCatch {A : Type} (m : Svc A) (h : Thrown -> Svc A) (P : A -> Prop) :
  yields m P -> (forall e, yields (h e) P) -> yields (tryCatch m h) P.
Proof.
  intros Hm Hh w a w' E. unfold tryCatch in E.
  destruct (m w) as [[b|e] w1] eqn:Em.
  - injection E as <- _. exact (Hm _ _ _ Em).
  - exact (Hh e _ _ _ E).
Qed.

(** [catch (error) { ... error.message ...; throw error }] resolves to
    nothing, and rejects with an error that has a message. *)
Lemma rethrow_yields {A : Type} (error : Thrown) (P : A -> Prop) :
  yields (messageOf error ;; throw error) P.
Proof. eapply yields_bind; [apply yields_any | intros _ _; apply yields_throw]. Qed.

Lemma rejectsWith_ret {A : Type} (a : A) (R : Thrown -> Prop) : rejectsWith (ret a) R.
Proof. intros w e w' E. discriminate E. Qed.

Lemma rejectsWith_throw {A : Type} (reason : Thrown) (R : Thrown -> Prop) :
  R reason -> rejectsWith (@throw A reason) R.
Proof. intros H w e w' E. injection E as <- _. exact H. Qed.

Lemma rejectsWith_bind {A B : Type} (m : Svc A) (k : A -> Svc B) (R : Thrown -> Prop) :
  rejectsWith m R -> (forall a, rejectsWith (k a) R) -> rejectsWith (bind m k) R.
Proof.
  intros Hm Hk w e w' E. unfold bind in E.
  destruct (m w) as [[a|e0] w1] eqn:Em.
  - exact (Hk a _ _ _ E).
  - injection E as <- _. exact (Hm _ _ _ Em).
Qed.

Lemma rejectsWith_tryCatch {A : Type} (m : Svc A) (h : Thrown -> Svc A)
    (Q R : Thrown -> Prop) :
  rejectsWith m Q -> (forall e, Q e -> rejectsWith (h e) R) ->
  rejectsWith (tryCatch m h) R.
Proof.
  intros Hm Hh w e w' E. unfold tryCatch in E.
  destruct (m w) as [[a|e0] w1] eqn:Em; [discriminate E |].
  exact (Hh e0 (Hm _ _ _ Em) _ _ _ E).
Qed.

Lemma rejectsWith_when (b : bool) (m : Svc unit) (R : Thrown -> Prop) :
  rejectsWith m R -> rejectsWith (when b m) R.
Proof. destruct b; [trivial | intros _; apply rejectsWith_ret]. Qed.

Lemma rejectsWith_ask {A : Type} (question : Asked) (answer : list Asked -> Settled A) :
  (forall log, givesReason (answer log)) -> rejectsWith (ask question answer) hasMessage.
Proof.
  intros H w e w' E. unfold ask in E. specialize (H (journal w)).
  destruct (answer (journal w)) as [a|e0]; [discriminate E |].
  injection E as <- _. now destruct e0.
Qed.

(** [catch (error) { ... error.message ...; throw error }]: what is thrown
    on has a message, and reading the message of [null] or [undefined]
    throws an error that has one. *)
Lemma rethrow_rejects {A : Type} (error : Thrown) :
  rejectsWith (messageOf error ;; @throw A error) hasMessage.
Proof. intros w e w' E. destruct error; cbv in E; injection E as <- _; exact I. Qed.

Section Analyses.

Variable this : Service.
Variable deps : Collaborators.

Lemma storeFraudAnalysis_stub (analysisData : AnalysisData) :
  storeFraudResults this = false ->
  storeFraudAnalysis this deps analysisData
  = ret (stubDoc (data_fraudScore analysisData)).
Proof. intros H. unfold storeFraudAnalysis. now rewrite H. Qed.

Lemma triggerFraudAlert_yields (doc : AnalysisDoc) (type : string) :
  yields (triggerFraudAlert deps doc type) (alertOf doc type).
Proof.
  unfold triggerFraudAlert. apply yields_tryCatch; [| intros e; apply rethrow_yields].
  eapply yields_bind; [apply yields_any | intros _ _].
  eapply yields_bind; [apply yields_any | intros now _].
  eapply yields_bind; [apply yields_any | intros timestamp _].
  apply yields_ret. unfold alertOf. simpl. repeat split. now exists now.
Qed.

Lemma alertFor_yields (doc : AnalysisDoc) (type : string) :
  yields (alertFor this deps doc type)
    (fun alertResult =>
       (alertResult <> None
        <-> doc_shouldTriggerAlert doc = true /\ enableRealTimeAlerts this = true) /\
       forall alertData, alertResult = Some alertData -> alertOf doc type alertData).
Proof.
  unfold alertFor.
  destruct (doc_shouldTriggerAlert doc && enableRealTimeAlerts this) eqn:C.
  - eapply yields_bind; [apply triggerFraudAlert_yields | intros alertData H].
    apply yields_ret. apply andb_prop in C. split.
    + split; [intros _; exact C | discriminate].
    + intros a E. injection E as <-. exact H.
  - apply yields_ret. split.
    + split; [congruence |]. intros [A B]. rewrite A, B in C. discriminate C.
    + discriminate.
Qed.

Lemma storeFraudAnalysis_yields (analysisData : AnalysisData) :
  yields (storeFraudAnalysis this deps analysisData)
    (fun doc =>
       storeFraudResults this = false -> doc = stubDoc (data_fraudScore analysisData)).
Proof.
  intros w doc w' E H. rewrite (storeFraudAnalysis_stub _ H) in E.
  now injection E as <- _.
Qed.

(** The end of both analyses: the alert, then the result. *)
Lemma conclusion_yields (doc : AnalysisDoc) (type : string) (fraudScore : float)
    (confidence processingTime : JsValue) (chunkIndex : option JsValue) :
  (storeFraudResults this = false -> doc = stubDoc fraudScore) ->
  yields
    (alertResult <- alertFor this deps doc type ;;
     ret (Analysed (doc_id doc) fraudScore confidence (doc_shouldTriggerAlert doc)
            alertResult processingTime chunkIndex))
    (alertReported this type).
Proof.
  intros Stub.
  eapply yields_bind; [apply alertFor_yields | intros alertResult [Iff Built]].
  apply yields_ret. exists doc.
  split; [reflexivity |]. split; [reflexivity |]. split; [exact Stub |].
  split; [exact Iff | exact Built].
Qed.

(** What an analysis resolves to: a success as [alertReported] has it, or
    a failure with the default score. *)
Lemma analyzeText_yields (conversationId : string) (messages : option (list ChatMessage))
    (context : AnalysisContext) (w : World) :
  match result (analyzeText this deps conversationId messages context) w with
  | Resolved (Analysed analysisId fraudScore confidence alertTriggered alertData
                processingTime chunkIndex) =>
      alertReported this "text"
        (Analysed analysisId fraudScore confidence alertTriggered alertData
           processingTime chunkIndex)
  | Resolved (Failed _ fraudScore confidence) => fraudScore = 1%float /\ confidence = 0%float
  | Rejected _ => True
  end.
Proof.
  unfold result, analyzeText, tryCatch.
  match goal with
  | |- context [match ?body w with _ => _ end] =>
      assert (Y : yields body (alertReported this "text"));
      [| destruct (body w) as [[r|e] w'] eqn:E]
  end.
  - eapply yields_bind; [apply yields_any | intros msgs _].
    eapply yields_bind; [apply yields_any | intros reply _].
    eapply yields_bind; [apply yields_any | intros _ _].
    eapply yields_bind; [apply yields_any | intros lastMessage _].
    eapply yields_bind; [apply storeFraudAnalysis_yields | intros doc Stub].
    cbv zeta. apply conclusion_yields. exact Stub.
  - simpl. specialize (Y _ _ _ E). destruct r; [exact Y | contradiction].
  - destruct e; simpl; trivial. now split.
Qed.

Lemma analyzeAudioChunk_yields (audioBuffer format : string) (metadata : AudioRequest)
    (w : World) :
  match result (analyzeAudioChunk this deps audioBuffer format metadata) w with
  | Resolved (Analysed analysisId fraudScore confidence alertTriggered alertData
                processingTime chunkIndex) =>
      alertReported this "audio"
        (Analysed analysisId fraudScore confidence alertTriggered alertData
           processingTime chunkIndex) /\
      chunkIndex = Some (orDefault (request_chunkIndex metadata) (JNumber 0))
  | Resolved (Failed _ fraudScore confidence) => fraudScore = 0%float /\ confidence = 0%float
  | Rejected _ => True
  end.
Proof.
  unfold result, analyzeAudioChunk, tryCatch.
  match goal with
  | |- context [match ?body w with _ => _ end] =>
      assert (Y : yields body
                    (fun r =>
                       alertReported this "audio" r /\
                       match r with
                       | Analysed _ _ _ _ _ _ chunkIndex =>
                           chunkIndex
                           = Some (orDefault (request_chunkIndex metadata) (JNumber 0))
                       | Failed _ _ _ => False
                       end));
      [| destruct (body w) as [[r|e] w'] eqn:E]
  end.
  - eapply yields_bind; [apply yields_any | intros validation _].
    eapply yields_bind; [apply yields_any | intros _ _].
    eapply yields_bind; [apply yields_any | intros processingResult _].
    eapply yields_bind; [apply yields_any | intros _ _].
    eapply yields_bind; [apply yields_any | intros reply _].
    eapply yields_bind; [apply yields_any | intros _ _].
    eapply yields_bind; [apply storeFraudAnalysis_yields | intros doc Stub].
    cbv zeta.
    intros w0 r w1 E. split.
    + exact (conclusion_yields doc "audio" _ _ _ _ Stub _ _ _ E).
    + unfold bind in E. destruct (alertFor this deps doc "audio" w0) as [[a|e] w2];
        [| discriminate E].
      now injection E as <- _.
  - simpl. specialize (Y _ _ _ E). destruct r; [exact Y | destruct Y; contradiction].
  - destruct e; simpl; trivial. now split.
Qed.

(** *** When an analysis rejects *)

Lemma storeFraudAnalysis_rejects (analysisData : AnalysisData) :
  rejectsWith (storeFraudAnalysis this deps analysisData) hasMessage.
Proof.
  unfold storeFraudAnalysis. destruct (negb (storeFraudResults this));
    [apply rejectsWith_ret |].
  apply (rejectsWith_tryCatch _ _ (fun _ => True)).
  - intros w e w' _. exact I.
  - intros e _. apply rethrow_rejects.
Qed.

Lemma triggerFraudAlert_rejects (doc : AnalysisDoc) (type : string) :
  rejectsWith (triggerFraudAlert deps doc type) hasMessage.
Proof.
  unfold triggerFraudAlert. apply (rejectsWith_tryCatch _ _ (fun _ => True)).
  - intros w e w' _. exact I.
  - intros e _. apply rethrow_rejects.
Qed.

Lemma alertFor_rejects (doc : AnalysisDoc) (type : string) :
  rejectsWith (alertFor this deps doc type) hasMessage.
Proof.
  unfold alertFor. destruct (doc_shouldTriggerAlert doc && enableRealTimeAlerts this);
    [| apply rejectsWith_ret].
  apply rejectsWith_bind; [apply triggerFraudAlert_rejects | intros a; apply rejectsWith_ret].
Qed.

(** The [catch] of an analysis: an error that has a message gives a
    failure. *)
Lemma failure_resolves (fraudScore : float) (e : Thrown) :
  hasMessage e ->
  rejectsWith (message <- messageOf e ;; ret (Failed message fraudScore 0%float))
    (fun _ => False).
Proof. intros H w e' w' E. destruct e; [contradiction | contradiction | discriminate E]. Qed.

Lemma analyzeText_rejects (conversationId : string) (messages : option (list ChatMessage))
    (context : AnalysisContext) :
  (forall log msgs ctx, givesReason (vllm_analyzeText deps log msgs ctx)) ->
  rejectsWith (analyzeText this deps conversationId messages context) (fun _ => False).
Proof.
  intros Model. unfold analyzeText.
  apply (rejectsWith_tryCatch _ _ hasMessage); [| apply failure_resolves].
  apply rejectsWith_bind.
  { destruct messages as [[|m ms]|];
      first [apply rejectsWith_ret | apply rejectsWith_throw; exact I]. }
  intros msgs. apply rejectsWith_bind; [apply rejectsWith_ask; intros log; apply Model |].
  intros reply. apply rejectsWith_bind.
  { apply rejectsWith_when, rejectsWith_throw. exact I. }
  intros _. apply rejectsWith_bind.
  { destruct (content (last msgs {| content := None |}));
      [apply rejectsWith_ret | apply rejectsWith_throw; exact I]. }
  intros lastMessage. apply rejectsWith_bind; [apply storeFraudAnalysis_rejects |].
  intros doc. cbv zeta.
  apply rejectsWith_bind; [apply alertFor_rejects | intros a; apply rejectsWith_ret].
Qed.

Lemma analyzeAudioChunk_rejects (audioBuffer format : string) (metadata : AudioRequest) :
  (forall log b f, givesReason (validateAudioInput deps log b f)) ->
  (forall log b f, givesReason (processAudioChunk deps log b f)) ->
  (forall log b md, givesReason (vllm_analyzeAudio deps log b md)) ->
  rejectsWith (analyzeAudioChunk this deps audioBuffer format metadata) (fun _ => False).
Proof.
  intros Validator Processor Model. unfold analyzeAudioChunk.
  apply (rejectsWith_tryCatch _ _ hasMessage); [| apply failure_resolves].
  apply rejectsWith_bind; [apply rejectsWith_ask; intros log; apply Validator |].
  intros validation. apply rejectsWith_bind.
  { apply rejectsWith_when, rejectsWith_throw. exact I. }
  intros _. apply rejectsWith_bind; [apply rejectsWith_ask; intros log; apply Processor |].
  intros processing. apply rejectsWith_bind.
  { apply rejectsWith_when, rejectsWith_throw. exact I. }
  intros _. apply rejectsWith_bind; [apply rejectsWith_ask; intros log; apply Model |].
  intros reply. apply rejectsWith_bind.
  { apply rejectsWith_when, rejectsWith_throw. exact I. }
  intros _. apply rejectsWith_bind; [apply storeFraudAnalysis_rejects |].
  intros doc. cbv zeta.
  apply rejectsWith_bind; [apply alertFor_rejects | intros a; apply rejectsWith_ret].
Qed.

(** X14. An analysis resolves, to a success or to a failure with the
    default score, unless a collaborator rejects with nothing. The [catch]
    of [analyzeText] and of [analyzeAudioChunk] reads [error.message]: when
    the model client (or, for audio, the validator or the processor)
    throws or rejects with [null] or [undefined], that read throws and the
    analysis itself rejects, with the [TypeError] of the read. When they
    do not, both analyses always resolve, whatever else happens: a failure
    while storing or alerting has got a message by the time it reaches the
    [catch] of the analysis. A failure carries the default score 1 for
    text and 0 for audio, with confidence 0, and the alert policy finds
    nothing in either. *)
Theorem analyses_resolve_unless_rejected_with_nothing (conversationId : string)
    (messages : option (list ChatMessage)) (context : AnalysisContext)
    (audioBuffer format : string) (metadata : AudioRequest) (w : World) :
  ((forall log msgs ctx, givesReason (vllm_analyzeText deps log msgs ctx)) ->
   match result (analyzeText this deps conversationId messages context) w with
   | Resolved (Analysed _ _ _ _ _ _ _) => True
   | Resolved (Failed _ fraudScore confidence) =>
       fraudScore = 1%float /\ confidence = 0%float /\
       calculateAlertSeverity (JNumber fraudScore) (JString "text") = "low" /\
       generateAlertMessage (JNumber fraudScore) (JString "text") = "Normal conversation"
   | Rejected _ => False
   end) /\
  ((forall log b f, givesReason (validateAudioInput deps log b f)) ->
   (forall log b f, givesReason (processAudioChunk deps log b f)) ->
   (forall log b md, givesReason (vllm_analyzeAudio deps log b md)) ->
   match result (analyzeAudioChunk this deps audioBuffer format metadata) w with
   | Resolved (Analysed _ _ _ _ _ _ _) => True
   | Resolved (Failed _ fraudScore confidence) =>
       fraudScore = 0%float /\ confidence = 0%float /\
       calculateAlertSeverity (JNumber fraudScore) (JString "audio") = "low" /\
       generateAlertMessage (JNumber fraudScore) (JString "audio") = "Normal audio"
   | Rejected _ => False
   end) /\
  (forall m ms reason,
     reason = ThrownNull \/ reason = ThrownUndefined ->
     vllm_analyzeText deps (journal w) (m :: ms) context = Rejected reason ->
     analyzeText this deps conversationId (Some (m :: ms)) context w
     = (Rejected (anError (cannotRead reason)),
        put_journal (journal w ++ [TextModel (m :: ms) context]) w)) /\
  (forall reason,
     reason = ThrownNull \/ reason = ThrownUndefined ->
     validateAudioInput deps (journal w) audioBuffer format = Rejected reason ->
     analyzeAudioChunk this deps audioBuffer format metadata w
     = (Rejected (anError (cannotRead reason)),
        put_journal (journal w ++ [ValidateAudio audioBuffer format]) w)).
Proof.
  split; [| split; [| split]].
  - intros Model.
    pose proof (analyzeText_yields conversationId messages context w) as H.
    pose proof (analyzeText_rejects conversationId messages context Model w) as R.
    unfold result in *.
    destruct (analyzeText this deps conversationId messages context w) as [[[]|e] w'];
      simpl in *; [exact I | | exact (R e w' eq_refl)].
    destruct H as [-> ->]. now repeat split.
  - intros Validator Processor Model.
    pose proof (analyzeAudioChunk_yields audioBuffer format metadata w) as H.
    pose proof (analyzeAudioChunk_rejects audioBuffer format metadata
                  Validator Processor Model w) as R.
    unfold result in *.
    destruct (analyzeAudioChunk this deps audioBuffer format metadata w) as [[[]|e] w'];
      simpl in *; [exact I | | exact (R e w' eq_refl)].
    destruct H as [-> ->]. now repeat split.
  - intros m ms reason Nothing Model.
    unfold analyzeText, tryCatch, bind, ask. cbn [ret]. rewrite Model.
    destruct Nothing as [-> | ->]; reflexivity.
  - intros reason Nothing Validator.
    unfold analyzeAudioChunk, tryCatch, bind, ask. rewrite Validator.
    destruct Nothing as [-> | ->]; reflexivity.
Qed.

(** X15. The result of a successful analysis is built from the document
    that the store returned for it. Its [analysisId] is the [_id] of that
    document, and [alertTriggered] is what the document's
    [shouldTriggerAlert()] returned, whether or not alerts are enabled; an
    alert is attached exactly when the document asked for one and
    real-time alerts are enabled. The alert copies the id, conversation,
    user, score and confidence of the document and carries the type of
    the analysis; its severity and message are those of the alert policy
    for the score of the document. An audio result also carries
    [chunkIndex], which is [metadata.chunkIndex || 0]. *)
Theorem alert_is_attached_when_enabled (w : World) (doc : AnalysisDoc) :
  storeFraudResults this = true ->
  (forall reason, doc_triggerAlert doc <> Some (Some reason)) ->
  (forall (conversationId : string) (m : ChatMessage) (ms : list ChatMessage)
          (context : AnalysisContext) (reply : ModelReply) (text : Text),
     vllm_analyzeText deps (journal w) (m :: ms) context = Resolved reply ->
     reply_success reply = true ->
     content (last (m :: ms) {| content := None |}) = Some text ->
     save deps (journal w ++ [TextModel (m :: ms) context])
       {| data_conversationId := JString conversationId;
          data_analysisType := "text";
          data_userId := context_userId context;
          data_fraudScore := reply_fraudScore reply;
          data_confidence := reply_confidence reply;
          data_inputData := TextInput (length (m :: ms)) (substringTo 100 text) context;
          data_modelResponse := reply_rawResponse reply;
          data_processingTime := reply_processingTime reply;
          data_audioChunkIndex := None;
          data_audioFormat := None |}
     = Resolved doc ->
     exists alertData,
       result (analyzeText this deps conversationId (Some (m :: ms)) context) w
       = Resolved (Analysed (doc_id doc) (reply_fraudScore reply) (reply_confidence reply)
                     (doc_shouldTriggerAlert doc) alertData
                     (reply_processingTime reply) None) /\
       (alertData <> None
        <-> doc_shouldTriggerAlert doc = true /\ enableRealTimeAlerts this = true) /\
       (forall a, alertData = Some a -> alertOf doc "text" a)) /\
  (forall (audioBuffer format : string) (metadata : AudioRequest)
          (validation : Validation) (processing : Processing) (reply : ModelReply),
     validateAudioInput deps (journal w) audioBuffer format = Resolved validation ->
     valid validation = true ->
     processAudioChunk deps (journal w ++ [ValidateAudio audioBuffer format])
       audioBuffer format = Resolved processing ->
     processing_success processing = true ->
     vllm_analyzeAudio deps
       ((journal w ++ [ValidateAudio audioBuffer format])
        ++ [ProcessAudio audioBuffer format])
       (processing_audioBuffer processing) (processing_metadata processing)
     = Resolved reply ->
     reply_success reply = true ->
     save deps
       (((journal w ++ [ValidateAudio audioBuffer format])
         ++ [ProcessAudio audioBuffer format])
        ++ [AudioModel (processing_audioBuffer processing) (processing_metadata processing)])
       {| data_conversationId := request_conversationId metadata;
          data_analysisType := "audio";
          data_userId := request_userId metadata;
          data_fraudScore := reply_fraudScore reply;
          data_confidence := reply_confidence reply;
          data_inputData :=
            AudioInput (spread [("originalFormat", JString format)]
                          (processing_metadata processing));
          data_modelResponse := reply_rawResponse reply;
          data_processingTime := reply_processingTime reply;
          data_audioChunkIndex :=
            Some (orDefault (request_chunkIndex metadata) (JNumber 0));
          data_audioFormat := Some format |}
     = Resolved doc ->
     exists alertData,
       result (analyzeAudioChunk this deps audioBuffer format metadata) w
       = Resolved (Analysed (doc_id doc) (reply_fraudScore reply) (reply_confidence reply)
                     (doc_shouldTriggerAlert doc) alertData
                     (reply_processingTime reply)
                     (Some (orDefault (request_chunkIndex metadata) (JNumber 0)))) /\
       (alertData <> None
        <-> doc_shouldTriggerAlert doc = true /\ enableRealTimeAlerts this = true) /\
       (forall a, alertData = Some a -> alertOf doc "audio" a)).
Proof.
  intros On Marks.
  (* the alert of the stored document, from any point on *)
  assert (Alert : forall (type : string) (w0 : World),
             exists alertData w1,
               alertFor this deps doc type w0 = (Resolved alertData, w1) /\
               (alertData <> None
                <-> doc_shouldTriggerAlert doc = true /\ enableRealTimeAlerts this = true) /\
               (forall a, alertData = Some a -> alertOf doc type a)).
  { intros type w0.
    pose proof (alertFor_yields doc type w0) as Y.
    assert (N : forall e w1, alertFor this deps doc type w0 <> (Rejected e, w1)).
    { unfold alertFor.
      destruct (doc_shouldTriggerAlert doc && enableRealTimeAlerts this);
        [| discriminate].
      unfold bind, triggerFraudAlert, tryCatch, bind, ask.
      destruct (doc_triggerAlert doc) as [[reason|]|] eqn:T;
        [now destruct (Marks reason) | discriminate | discriminate]. }
    destruct (alertFor this deps doc type w0) as [[alertData|e] w1] eqn:E;
      [| now destruct (N e w1)].
    exists alertData, w1. split; [reflexivity |]. exact (Y alertData w1 eq_refl). }
  split.
  - intros conversationId m ms context reply text Model Ok Last Saved.
    unfold result, analyzeText, tryCatch, bind, ask, when. cbn [ret].
    rewrite Model, Ok. cbn [negb]. unfold ret. rewrite Last.
    unfold storeFraudAnalysis. rewrite On. cbn [negb].
    unfold tryCatch, ask. cbn [journal put_journal]. rewrite Saved.
    match goal with
    | |- context [alertFor this deps doc "text" ?w0] =>
        destruct (Alert "text" w0) as (alertData & w1 & E & Iff & Built)
    end.
    rewrite E. exists alertData.
    split; [reflexivity | split; [exact Iff | exact Built]].
  - intros audioBuffer format metadata validation processing reply
           Valid Good Processed Fine Model Ok Saved.
    unfold result, analyzeAudioChunk, tryCatch, bind, ask, when.
    rewrite Valid, Good. cbn [negb ret journal put_journal]. unfold ret.
    cbn [journal put_journal]. rewrite Processed, Fine.
    cbn [negb journal put_journal]. rewrite Model, Ok. cbn [negb].
    unfold storeFraudAnalysis. rewrite On. cbn [negb].
    unfold tryCatch, ask. cbn [journal put_journal]. rewrite Saved.
    match goal with
    | |- context [alertFor this deps doc "audio" ?w0] =>
        destruct (Alert "audio" w0) as (alertData & w1 & E & Iff & Built)
    end.
    rewrite E. exists alertData.
    split; [reflexivity | split; [exact Iff | exact Built]].
Qed.

Lemma stub_alert (type : string) (analysisId : JsValue) (fraudScore : float)
    (confidence : JsValue) (alertTriggered : bool) (alertData : option AlertData)
    (processingTime : JsValue) (chunkIndex : option JsValue) :
  storeFraudResults this = false -> type = "text" \/ type = "audio" ->
  alertReported this type
    (Analysed analysisId fraudScore confidence alertTriggered alertData processingTime
       chunkIndex) ->
  analysisId = JString "temp-id" /\
  alertTriggered = PrimFloat.ltb 1 fraudScore /\
  match alertData with
  | Some a =>
      alert_severity a = "low" /\ reportsFinding (alert_message a) = false /\
      alert_fraudScore a = JUndefined /\ alert_conversationId a = JUndefined /\
      alert_userId a = JUndefined
  | None => True
  end.
Proof.
  intros Off Ty (doc & Hid & Htrig & Stub & _ & Built).
  specialize (Stub Off). subst doc. simpl in *.
  split; [exact Hid |]. split; [exact Htrig |].
  destruct alertData as [a|]; [| exact I].
  destruct (Built a eq_refl) as (_ & C & U & F & _ & _ & S & M & _).
  simpl in *. rewrite S, M.
  destruct Ty as [-> | ->]; now repeat split.
Qed.

(** X16. With result storage disabled the analysis is not stored and its
    id is "temp-id"; an alert is asked for exactly when the score is
    greater than 1. The alert, if alerts are enabled, is built from the
    stand-in document, which has no score, no conversation and no user:
    whatever the score of the analysis, its severity is low and its
    message reports nothing. *)
Theorem alerts_without_storage_report_nothing (conversationId : string)
    (messages : option (list ChatMessage)) (context : AnalysisContext)
    (audioBuffer format : string) (metadata : AudioRequest) (w : World) :
  storeFraudResults this = false ->
  match result (analyzeText this deps conversationId messages context) w with
  | Resolved (Analysed analysisId fraudScore _ alertTriggered alertData _ _) =>
      analysisId = JString "temp-id" /\
      alertTriggered = PrimFloat.ltb 1 fraudScore /\
      match alertData with
      | Some a =>
          alert_severity a = "low" /\ reportsFinding (alert_message a) = false /\
          alert_fraudScore a = JUndefined /\ alert_conversationId a = JUndefined /\
          alert_userId a = JUndefined
      | None => True
      end
  | _ => True
  end /\
  match result (analyzeAudioChunk this deps audioBuffer format metadata) w with
  | Resolved (Analysed analysisId fraudScore _ alertTriggered alertData _ _) =>
      analysisId = JString "temp-id" /\
      alertTriggered = PrimFloat.ltb 1 fraudScore /\
      match alertData with
      | Some a =>
          alert_severity a = "low" /\ reportsFinding (alert_message a) = false /\
          alert_fraudScore a = JUndefined /\ alert_conversationId a = JUndefined /\
          alert_userId a = JUndefined
      | None => True
      end
  | _ => True
  end.
Proof.
  intros Off. split.
  - pose proof (analyzeText_yields conversationId messages context w) as H.
    destruct (result (analyzeText this deps conversationId messages context) w)
      as [[]|e]; try exact I.
    apply (stub_alert "text" _ _ _ _ _ _ _ Off (or_introl eq_refl) H).
  - pose proof (analyzeAudioChunk_yields audioBuffer format metadata w) as H.
    destruct (result (analyzeAudioChunk this deps audioBuffer format metadata) w)
      as [[]|e]; try exact I.
    destruct H as [H _].
    apply (stub_alert "audio" _ _ _ _ _ _ _ Off (or_intror eq_refl) H).
Qed.

(** X17. [analyzeText] asks nobody when it is given no messages: it fails
    with "No messages provided for analysis" for [null] and for the empty
    array alike. When the last message has no [content], the analysis
    fails too, but only after the model has been asked, and nothing is
    stored. *)
Theorem text_analysis_needs_messages (conversationId : string)
    (context : AnalysisContext) (w : World) :
  analyzeText this deps conversationId None context w
  = (Resolved (Failed (JString "No messages provided for analysis") 1 0), w) /\
  analyzeText this deps conversationId (Some []) context w
  = (Resolved (Failed (JString "No messages provided for analysis") 1 0), w) /\
  (forall (m : ChatMessage) (ms : list ChatMessage) (reply : ModelReply),
     content (last (m :: ms) {| content := None |}) = None ->
     vllm_analyzeText deps (journal w) (m :: ms) context = Resolved reply ->
     reply_success reply = true ->
     exists error : string,
       analyzeText this deps conversationId (Some (m :: ms)) context w
       = (Resolved (Failed (JString error) 1 0),
          put_journal (journal w ++ [TextModel (m :: ms) context]) w)).
Proof.
  split; [reflexivity |]. split; [reflexivity |].
  intros m ms reply Last Model Ok.
  eexists. unfold analyzeText, tryCatch, bind, ask, when. cbn [ret].
  rewrite Model, Ok. cbn [negb]. unfold ret. rewrite Last. reflexivity.
Qed.

(** X18. [analyzeAudioChunk] stops at the first step that fails. Audio that
    does not validate is neither processed nor analysed: the analysis
    fails with "Audio validation failed: " and the errors joined by ", ".
    Audio that cannot be processed is not sent to the model, and the
    analysis fails with the error of the processor, or with "Audio
    processing failed" when it gives none. In both cases nothing is stored. *)
Theorem audio_analysis_stops_at_first_failure (audioBuffer format : string)
    (metadata : AudioRequest) (w : World) :
  (forall validation,
     validateAudioInput deps (journal w) audioBuffer format = Resolved validation ->
     valid validation = false ->
     analyzeAudioChunk this deps audioBuffer format metadata w
     = (Resolved
          (Failed
             (JString
                ("Audio validation failed: " ++ String.concat ", " (errors validation)))
             0 0),
        put_journal (journal w ++ [ValidateAudio audioBuffer format]) w)) /\
  (forall validation processing,
     validateAudioInput deps (journal w) audioBuffer format = Resolved validation ->
     valid validation = true ->
     processAudioChunk deps (journal w ++ [ValidateAudio audioBuffer format])
       audioBuffer format = Resolved processing ->
     processing_success processing = false ->
     analyzeAudioChunk this deps audioBuffer format metadata w
     = (Resolved
          (Failed
             (JString (orElse (processing_error processing) "Audio processing failed"))
             0 0),
        put_journal
          ((journal w ++ [ValidateAudio audioBuffer format])
           ++ [ProcessAudio audioBuffer format]) w)).
Proof.
  split.
  - intros validation V Bad.
    unfold analyzeAudioChunk, tryCatch, bind, ask, when. rewrite V, Bad. reflexivity.
  - intros validation processing V Good P Bad.
    unfold analyzeAudioChunk, tryCatch, bind, ask, when. rewrite V, Good.
    cbn [negb ret journal put_journal]. unfold ret. cbn [journal put_journal].
    rewrite P, Bad. reflexivity.
Qed.

(** X19. When the document has been stored and marking its alert fails,
    the analysis is reported as failed, with the message of that failure
    and the default score 1, although the model found what it found and
    the document is in the store. *)
Theorem failed_alert_fails_the_analysis (conversationId : string)
    (m : ChatMessage) (ms : list ChatMessage) (context : AnalysisContext) (w : World)
    (reply : ModelReply) (text : Text) (doc : AnalysisDoc) (message : JsValue) :
  storeFraudResults this = true -> enableRealTimeAlerts this = true ->
  vllm_analyzeText deps (journal w) (m :: ms) context = Resolved reply ->
  reply_success reply = true ->
  content (last (m :: ms) {| content := None |}) = Some text ->
  let data :=
    {| data_conversationId := JString conversationId;
       data_analysisType := "text";
       data_userId := context_userId context;
       data_fraudScore := reply_fraudScore reply;
       data_confidence := reply_confidence reply;
       data_inputData := TextInput (length (m :: ms)) (substringTo 100 text) context;
       data_modelResponse := reply_rawResponse reply;
       data_processingTime := reply_processingTime reply;
       data_audioChunkIndex := None;
       data_audioFormat := None |} in
  save deps (journal w ++ [TextModel (m :: ms) context]) data = Resolved doc ->
  doc_shouldTriggerAlert doc = true ->
  doc_triggerAlert doc = Some (Some (ThrownValue message)) ->
  analyzeText this deps conversationId (Some (m :: ms)) context w
  = (Resolved (Failed message 1 0),
     put_journal
       (((journal w ++ [TextModel (m :: ms) context]) ++ [Save data]) ++ [MarkAlert doc])
       w).
Proof.
  intros On Alerts Model Ok Last data Saved Should Mark.
  unfold analyzeText, tryCatch, bind, ask, when. cbn [ret].
  rewrite Model, Ok. cbn [negb]. unfold ret. rewrite Last.
  unfold storeFraudAnalysis. rewrite On. cbn [negb].
  unfold tryCatch, ask. cbn [journal put_journal]. fold data. rewrite Saved.
  unfold alertFor. rewrite Should, Alerts. cbn [andb].
  unfold bind, triggerFraudAlert, tryCatch, bind, ask. rewrite Mark. reflexivity.
Qed.

(** *** Debouncing *)

Lemma mapGet_mapSet_same (key : string) (v : nat) (m : list (string * nat)) :
  mapGet key (mapSet key v m) = Some v.
Proof.
  induction m as [|[k v'] m IH]; simpl.
  - now rewrite String.eqb_refl.
  - destruct (String.eqb k key) eqn:E; simpl; rewrite E; [reflexivity | exact IH].
Qed.

Lemma mapGet_mapSet_other (key other : string) (v : nat) (m : list (string * nat)) :
  other <> key -> mapGet other (mapSet key v m) = mapGet other m.
Proof.
  intros N. induction m as [|[k v'] m IH]; simpl.
  - apply String.eqb_neq in N. rewrite String.eqb_sym. now rewrite N.
  - destruct (String.eqb k key) eqn:E; simpl.
    + apply String.eqb_eq in E. subst k.
      assert (X : String.eqb key other = false)
        by (apply String.eqb_neq; congruence).
      now rewrite X.
    + now rewrite IH.
Qed.

Lemma mapGet_mapDelete_same (key : string) (m : list (string * nat)) :
  mapGet key (mapDelete key m) = None.
Proof.
  induction m as [|[k v] m IH]; simpl; [reflexivity |].
  destruct (String.eqb k key) eqn:E; simpl; [exact IH |]. now rewrite E.
Qed.

(** Clearing a timer leaves the ids of the others distinct. *)
Lemma cleared_ids_distinct (id : nat) (pending : list Timer) :
  NoDup (map timer_id pending) ->
  NoDup (map timer_id (filter (fun t => negb (Nat.eqb (timer_id t) id)) pending)).
Proof.
  intros Nd. induction pending as [|t rest IH]; [exact Nd |].
  inversion Nd as [|? ? Fresh Rest]; subst. cbn [filter].
  destruct (negb (Nat.eqb (timer_id t) id)); [| exact (IH Rest)].
  cbn [map]. constructor; [| exact (IH Rest)].
  intros Hin. apply Fresh. apply in_map_iff in Hin as (t' & E & Hin).
  apply filter_In in Hin as [Hin _]. apply in_map_iff. now exists t'.
Qed.

(** The timers left once the one that the [Map] holds for a conversation
    has been cleared. *)
Lemma analyzeTextWithDebounce_run (job : Job) (w : World) :
  analyzeTextWithDebounce this job w
  = (Resolved tt,
     put_debounceTimeouts
       (mapSet (job_conversationId job) (nextTimerId w) (debounceTimeouts w))
       (put_nextTimerId (S (nextTimerId w))
          (put_timers
             (match mapGet (job_conversationId job) (debounceTimeouts w) with
              | Some id => filter (fun t => negb (Nat.eqb (timer_id t) id)) (timers w)
              | None => timers w
              end
              ++ [{| timer_id := nextTimerId w; timer_delay := debounceDelay this;
                     timer_job := job |}]) w))).
Proof.
  unfold analyzeTextWithDebounce, bind, get.
  destruct (mapGet (job_conversationId job) (debounceTimeouts w)); reflexivity.
Qed.

Lemma schedule_registered (job : Job) (w : World) :
  registered w ->
  let w' := after (analyzeTextWithDebounce this job) w in
  registered w' /\
  pendingFor (job_conversationId job) w'
  = [{| timer_id := nextTimerId w; timer_delay := debounceDelay this; timer_job := job |}] /\
  (forall c, c <> job_conversationId job -> pendingFor c w' = pendingFor c w).
Proof.
  intros (Nd & Pend & Own). cbv zeta. unfold after.
  rewrite analyzeTextWithDebounce_run. cbn [snd].
  set (conv := job_conversationId job).
  set (cleared := match mapGet conv (debounceTimeouts w) with
                  | Some id => filter (fun t => negb (Nat.eqb (timer_id t) id)) (timers w)
                  | None => timers w
                  end).
  set (new := {| timer_id := nextTimerId w; timer_delay := debounceDelay this;
                 timer_job := job |}).
  assert (Sub : forall t, In t cleared -> In t (timers w)).
  { intros t. unfold cleared. destruct (mapGet conv (debounceTimeouts w)); [| trivial].
    intros H. now apply filter_In in H. }
  assert (Gone : forall t, In t cleared -> job_conversationId (timer_job t) <> conv).
  { intros t Hin E. destruct (Pend t (Sub t Hin)) as [_ G]. rewrite E in G.
    unfold cleared in Hin. rewrite G in Hin.
    apply filter_In in Hin as [_ Hin]. now rewrite Nat.eqb_refl in Hin. }
  assert (Kept : forall t, In t (timers w) ->
                           job_conversationId (timer_job t) <> conv -> In t cleared).
  { intros t Hin Ne. unfold cleared.
    destruct (mapGet conv (debounceTimeouts w)) as [id|] eqn:G; [| exact Hin].
    apply filter_In. split; [exact Hin |].
    apply negb_true_iff, Nat.eqb_neq. intros E.
    destruct (Own conv id G) as [_ O]. exact (Ne (O t Hin E)). }
  assert (NdC : NoDup (map timer_id cleared)).
  { unfold cleared. destruct (mapGet conv (debounceTimeouts w)); [| exact Nd].
    now apply cleared_ids_distinct. }
  split; [| split].
  - (* the invariant *)
    unfold registered. cbn [timers debounceTimeouts nextTimerId put_debounceTimeouts
                            put_nextTimerId put_timers].
    split; [| split].
    + rewrite map_app. simpl. apply NoDup_app; [exact NdC | |].
      * repeat constructor. simpl. tauto.
      * intros id Hin [<-|[]]. apply in_map_iff in Hin as (t & E & Ht).
        destruct (Pend t (Sub t Ht)) as [L _]. simpl in E. lia.
    + intros t Hin. apply in_app_or in Hin as [Hin|[<-|[]]].
      * destruct (Pend t (Sub t Hin)) as [L G]. split; [lia |].
        rewrite mapGet_mapSet_other by (apply Gone, Hin). exact G.
      * simpl. split; [lia |]. apply mapGet_mapSet_same.
    + intros c id G.
      destruct (String.eqb_spec c conv) as [->|Ne].
      * rewrite mapGet_mapSet_same in G. injection G as <-. split; [lia |].
        intros t Hin E. apply in_app_or in Hin as [Hin|[<-|[]]]; [| reflexivity].
        destruct (Pend t (Sub t Hin)) as [L _]. lia.
      * rewrite mapGet_mapSet_other in G by exact Ne.
        destruct (Own c id G) as [L O]. split; [lia |].
        intros t Hin E. apply in_app_or in Hin as [Hin|[<-|[]]].
        -- exact (O t (Sub t Hin) E).
        -- simpl in E. lia.
  - (* the timers of the conversation *)
    unfold pendingFor. cbn [timers put_debounceTimeouts put_nextTimerId put_timers].
    rewrite filter_app. simpl. fold conv. rewrite String.eqb_refl.
    assert (E : filter
                  (fun t => String.eqb (job_conversationId (timer_job t)) conv) cleared
                = []).
    { clear - Gone. induction cleared as [|t l IH]; simpl; [reflexivity |].
      assert (X : String.eqb (job_conversationId (timer_job t)) conv = false).
      { apply String.eqb_neq, Gone. now left. }
      rewrite X. apply IH. intros t' H. apply Gone. now right. }
    now rewrite E.
  - (* the timers of the other conversations *)
    intros c Ne. unfold pendingFor.
    cbn [timers put_debounceTimeouts put_nextTimerId put_timers].
    rewrite filter_app. simpl. fold conv.
    assert (X : String.eqb conv c = false) by (apply String.eqb_neq; congruence).
    rewrite X, app_nil_r.
    unfold cleared. destruct (mapGet conv (debounceTimeouts w)) as [id|] eqn:G;
      [| reflexivity].
    destruct (Own conv id G) as [_ O].
    clear - O Ne. induction (timers w) as [|t l IH]; simpl; [reflexivity |].
    destruct (Nat.eqb (timer_id t) id) eqn:E; simpl.
    + apply Nat.eqb_eq in E.
      assert (Y : String.eqb (job_conversationId (timer_job t)) c = false).
      { apply String.eqb_neq. rewrite (O t (or_introl eq_refl) E). congruence. }
      rewrite Y. apply IH. intros t' H. apply O. now right.
    + destruct (String.eqb (job_conversationId (timer_job t)) c);
        [f_equal |]; apply IH; intros t' H; apply O; now right.
Qed.

Lemma lastJobFor_cons (c : string) (job : Job) (calls : list Job) :
  lastJobFor c (job :: calls)
  = match lastJobFor c calls with
    | Some later => Some later
    | None => if String.eqb (job_conversationId job) c then Some job else None
    end.
Proof.
  unfold lastJobFor. simpl.
  induction (rev calls) as [|j l IH]; simpl; [reflexivity |].
  destruct (String.eqb (job_conversationId j) c); [reflexivity | exact IH].
Qed.

Lemma registered_one_pending (c : string) (w : World) :
  registered w -> length (pendingFor c w) <= 1.
Proof.
  intros (Nd & Pend & _). unfold pendingFor.
  assert (Same : forall t, In t (timers w) ->
                   String.eqb (job_conversationId (timer_job t)) c = true ->
                   mapGet c (debounceTimeouts w) = Some (timer_id t)).
  { intros t Hin E. apply String.eqb_eq in E. subst c. apply Pend, Hin. }
  clear Pend. revert Nd Same. induction (timers w) as [|t l IH]; intros Nd Same; simpl.
  - lia.
  - inversion Nd as [|? ? Ht Hl]; subst.
    destruct (String.eqb (job_conversationId (timer_job t)) c) eqn:E.
    + assert (Z : filter (fun t0 => String.eqb (job_conversationId (timer_job t0)) c) l
                  = []).
      { destruct (filter _ l) as [|t' l'] eqn:F; [reflexivity |].
        assert (Hin : In t' (filter
                               (fun t0 => String.eqb (job_conversationId (timer_job t0)) c)
                               l)) by (rewrite F; now left).
        apply filter_In in Hin as [Hin E'].
        pose proof (Same t (or_introl eq_refl) E) as G1.
        pose proof (Same t' (or_intror Hin) E') as G2.
        rewrite G1 in G2. injection G2 as G2.
        exfalso. apply Ht. rewrite G2. now apply in_map. }
      rewrite Z. simpl. lia.
    + apply IH; [exact Hl |]. intros t' Hin. apply Same. now right.
Qed.

(** X20. Debouncing: starting from a service whose pending timers are those
    its [Map] holds, after any burst of calls of [analyzeTextWithDebounce]
    during which no timer fires, each conversation of the burst has
    exactly one pending timer, set for the configured delay, and it is the
    one of the last call for that conversation, with that call's messages,
    context and callback; the earlier ones were cleared. The timers of
    the other conversations are untouched. *)
Theorem only_the_last_call_of_a_burst_is_pending (calls : list Job) (w : World) :
  registered w ->
  let w' := fold_left (fun w job => after (analyzeTextWithDebounce this job) w) calls w in
  registered w' /\
  forall c,
    (length (pendingFor c w') <= 1)%nat /\
    match lastJobFor c calls with
    | Some job =>
        exists id,
          pendingFor c w'
          = [{| timer_id := id; timer_delay := debounceDelay this; timer_job := job |}]
    | None => pendingFor c w' = pendingFor c w
    end.
Proof.
  assert (Main : forall calls w,
             registered w ->
             let w' := fold_left (fun w job => after (analyzeTextWithDebounce this job) w)
                         calls w in
             registered w' /\
             forall c,
               match lastJobFor c calls with
               | Some job =>
                   exists id,
                     pendingFor c w'
                     = [{| timer_id := id; timer_delay := debounceDelay this;
                           timer_job := job |}]
               | None => pendingFor c w' = pendingFor c w
               end).
  { clear calls w. induction calls as [|job calls IH]; intros w R; cbv zeta.
    - split; [exact R |]. intros c. reflexivity.
    - cbn [fold_left].
      destruct (schedule_registered job w R) as (R1 & New & Others).
      destruct (IH _ R1) as (R' & Last). cbv zeta in Last.
      split; [exact R' |]. intros c. rewrite lastJobFor_cons. specialize (Last c).
      destruct (lastJobFor c calls) as [later|]; [exact Last |].
      rewrite Last.
      destruct (String.eqb_spec (job_conversationId job) c) as [<-|Ne].
      + eexists. exact New.
      + apply Others. congruence. }
  intros R. destruct (Main calls w R) as [R' Last]. cbv zeta in *.
  split; [exact R' |]. intros c. split; [| apply Last].
  now apply registered_one_pending.
Qed.

Lemma clearDebounceTimeout_run (c : string) (w : World) :
  clearDebounceTimeout c w
  = (Resolved tt,
     match mapGet c (debounceTimeouts w) with
     | Some id =>
         put_debounceTimeouts (mapDelete c (debounceTimeouts w))
           (put_timers (filter (fun t => negb (Nat.eqb (timer_id t) id)) (timers w)) w)
     | None => w
     end).
Proof.
  unfold clearDebounceTimeout, bind, get.
  destruct (mapGet c (debounceTimeouts w)); reflexivity.
Qed.

Lemma forEach_clearTimeout (entries : list (string * nat)) :
  forall w,
    exists left,
      forEach entries (fun entry => clearTimeout (snd entry)) w
      = (Resolved tt, put_timers left w) /\
      forall t, In t left <-> In t (timers w) /\ ~ In (timer_id t) (map snd entries).
Proof.
  induction entries as [|[k id] entries IH]; intros w; simpl.
  - exists (timers w). split; [now destruct w |]. intros t. tauto.
  - destruct (IH (put_timers (filter (fun t => negb (Nat.eqb (timer_id t) id)) (timers w)) w))
      as (left & E & H).
    assert (C : clearTimeout id w
                = (Resolved tt,
                   put_timers (filter (fun t => negb (Nat.eqb (timer_id t) id)) (timers w)) w))
      by reflexivity.
    exists left. split; [unfold bind at 1; rewrite C, E; reflexivity |].
    intros t. rewrite H. simpl. rewrite filter_In, negb_true_iff, Nat.eqb_neq.
    intuition congruence.
Qed.

Lemma mapGet_In (c : string) (id : nat) (m : list (string * nat)) :
  mapGet c m = Some id -> In id (map snd m).
Proof.
  induction m as [|[k v] m IH]; simpl; [discriminate |].
  destruct (String.eqb k c); [intros H; injection H as ->; now left |].
  intros H. right. exact (IH H).
Qed.

(** X21. [clearDebounceTimeout] on a conversation that has no entry in the
    [Map] changes nothing. When the pending timers are those the [Map]
    holds, clearing a conversation leaves it without a pending timer and
    without an entry, and leaves the timers of the other conversations as
    they were; [clearAllDebounceTimeouts] leaves no pending timer and an
    empty [Map], so that no debounced analysis will run. *)
Theorem clearing_cancels_the_pending_analyses (c : string) (w : World) :
  (mapGet c (debounceTimeouts w) = None ->
   clearDebounceTimeout c w = (Resolved tt, w)) /\
  (registered w ->
   let w' := after (clearDebounceTimeout c) w in
   pendingFor c w' = [] /\
   mapGet c (debounceTimeouts w') = None /\
   (forall other, other <> c -> pendingFor other w' = pendingFor other w)) /\
  (registered w ->
   let w' := after clearAllDebounceTimeouts w in
   timers w' = [] /\ debounceTimeouts w' = []).
Proof.
  split; [| split].
  - intros G. rewrite clearDebounceTimeout_run. now rewrite G.
  - intros (Nd & Pend & Own). cbv zeta. unfold after.
    rewrite clearDebounceTimeout_run. cbn [snd].
    destruct (mapGet c (debounceTimeouts w)) as [id|] eqn:G.
    + cbn [debounceTimeouts timers put_debounceTimeouts put_timers]. unfold pendingFor.
      cbn [timers put_debounceTimeouts put_timers].
      split; [| split; [apply mapGet_mapDelete_same |]].
      * destruct (filter _ (filter _ (timers w))) as [|t l] eqn:F; [reflexivity |].
        assert (Hin : In t (filter
                              (fun t => String.eqb (job_conversationId (timer_job t)) c)
                              (filter (fun t => negb (Nat.eqb (timer_id t) id)) (timers w))))
          by (rewrite F; now left).
        apply filter_In in Hin as [Hin E]. apply filter_In in Hin as [Hin N].
        apply String.eqb_eq in E. destruct (Pend t Hin) as [_ G'].
        rewrite E, G in G'. injection G' as ->. now rewrite Nat.eqb_refl in N.
      * intros other Ne. destruct (Own c id G) as [_ O].
        clear - O Ne. induction (timers w) as [|t l IH]; simpl; [reflexivity |].
        destruct (Nat.eqb (timer_id t) id) eqn:E; simpl.
        -- apply Nat.eqb_eq in E.
           assert (Y : String.eqb (job_conversationId (timer_job t)) other = false).
           { apply String.eqb_neq. rewrite (O t (or_introl eq_refl) E). congruence. }
           rewrite Y. apply IH. intros t' H. apply O. now right.
        -- destruct (String.eqb (job_conversationId (timer_job t)) other);
             [f_equal |]; apply IH; intros t' H; apply O; now right.
    + split; [| split; [exact G | reflexivity]].
      unfold pendingFor.
      destruct (filter _ (timers w)) as [|t l] eqn:F; [reflexivity |].
      assert (Hin : In t (filter
                            (fun t => String.eqb (job_conversationId (timer_job t)) c)
                            (timers w))) by (rewrite F; now left).
      apply filter_In in Hin as [Hin E]. apply String.eqb_eq in E.
      destruct (Pend t Hin) as [_ G']. rewrite E, G in G'. discriminate G'.
  - intros (Nd & Pend & Own). cbv zeta.
    unfold after, clearAllDebounceTimeouts, bind, get.
    destruct (forEach_clearTimeout (debounceTimeouts w) w) as (left & E & H).
    rewrite E. cbn. split; [| reflexivity].
    destruct left as [|t l]; [reflexivity |]. exfalso.
    destruct (proj1 (H t) (or_introl eq_refl)) as [Hin Out].
    destruct (Pend t Hin) as [_ G]. exact (Out (mapGet_In _ _ _ G)).
Qed.

(** *** The debounced job *)

Lemma onlyAsks_ret {A : Type} (a : A) : onlyAsks (ret a).
Proof. intros w. exists (journal w). now destruct w. Qed.

Lemma onlyAsks_throw {A : Type} (reason : Thrown) : onlyAsks (@throw A reason).
Proof. intros w. exists (journal w). now destruct w. Qed.

Lemma onlyAsks_messageOf (error : Thrown) : onlyAsks (messageOf error).
Proof. intros w. exists (journal w). now destruct error, w. Qed.

Lemma onlyAsks_ask {A : Type} (question : Asked) (answer : list Asked -> Settled A) :
  onlyAsks (ask question answer).
Proof. intros w. now exists (journal w ++ [question])%list. Qed.

Lemma onlyAsks_bind {A B : Type} (m : Svc A) (k : A -> Svc B) :
  onlyAsks m -> (forall a, onlyAsks (k a)) -> onlyAsks (bind m k).
Proof.
  intros Hm Hk w. destruct (Hm w) as [log E]. unfold after, bind in *.
  destruct (m w) as [[a|e] w1]; simpl in E; subst w1.
  - destruct (Hk a (put_journal log w)) as [log' E']. unfold after in E'.
    exists log'. now rewrite E'.
  - now exists log.
Qed.

Lemma onlyAsks_tryCatch {A : Type} (m : Svc A) (h : Thrown -> Svc A) :
  onlyAsks m -> (forall e, onlyAsks (h e)) -> onlyAsks (tryCatch m h).
Proof.
  intros Hm Hh w. destruct (Hm w) as [log E]. unfold after, tryCatch in *.
  destruct (m w) as [[a|e] w1]; simpl in E; subst w1.
  - now exists log.
  - destruct (Hh e (put_journal log w)) as [log' E']. unfold after in E'.
    exists log'. now rewrite E'.
Qed.

Lemma onlyAsks_when (b : bool) (m : Svc unit) : onlyAsks m -> onlyAsks (when b m).
Proof. destruct b; [trivial | intros _; apply onlyAsks_ret]. Qed.

Ltac only_asks :=
  repeat match goal with
         | |- onlyAsks (bind _ _) => apply onlyAsks_bind; [| intros ?]
         | |- onlyAsks (tryCatch _ _) => apply onlyAsks_tryCatch; [| intros ?]
         | |- onlyAsks (when _ _) => apply onlyAsks_when
         | |- onlyAsks (ret _) => apply onlyAsks_ret
         | |- onlyAsks (throw _) => apply onlyAsks_throw
         | |- onlyAsks (throwError _) => apply onlyAsks_throw
         | |- onlyAsks (messageOf _) => apply onlyAsks_messageOf
         | |- onlyAsks (ask _ _) => apply onlyAsks_ask
         | |- onlyAsks (match ?x with _ => _ end) => destruct x
         | |- onlyAsks (if ?b then _ else _) => destruct b
         | |- onlyAsks _ =>
             progress unfold storeFraudAnalysis, alertFor, triggerFraudAlert
         end.

Lemma analyzeText_onlyAsks (conversationId : string)
    (messages : option (list ChatMessage)) (context : AnalysisContext) :
  onlyAsks (analyzeText this deps conversationId messages context).
Proof. unfold analyzeText. only_asks. Qed.

(** What the event loop holds once a timer has fired: its job, with the
    result of its analysis, which is one when the model client does not
    reject with nothing. *)
Lemma timerFires_run (t : Timer) (w : World) :
  (forall log msgs ctx, givesReason (vllm_analyzeText deps log msgs ctx)) ->
  NoDup (map timer_id (timers w)) -> In t (timers w) ->
  exists r log,
    timerFires this deps (timer_id t) w
    = (Resolved tt,
       put_settling (settling w ++ [(timer_job t, Resolved r)])
         (put_journal log
            (put_timers
               (filter (fun t' => negb (Nat.eqb (timer_id t') (timer_id t))) (timers w))
               w))).
Proof.
  intros Model Nd Hin. unfold timerFires. unfold bind at 1. unfold get at 1.
  assert (F : find (fun t' => Nat.eqb (timer_id t') (timer_id t)) (timers w) = Some t).
  { revert Nd Hin. induction (timers w) as [|x l IH]; intros Nd Hin; [contradiction |].
    simpl in *. inversion Nd as [|? ? Hx Hl]; subst.
    destruct Hin as [->|Hin]; [now rewrite Nat.eqb_refl |].
    destruct (Nat.eqb (timer_id x) (timer_id t)) eqn:E; [| now apply IH].
    apply Nat.eqb_eq in E. exfalso. apply Hx. rewrite E. now apply in_map. }
  rewrite F. unfold bind, clearTimeout, modify.
  set (w1 := put_timers _ w).
  pose proof (analyzeText_rejects (job_conversationId (timer_job t))
                (job_messages (timer_job t)) (job_context (timer_job t)) Model w1) as Y.
  destruct (analyzeText_onlyAsks (job_conversationId (timer_job t))
              (job_messages (timer_job t)) (job_context (timer_job t)) w1) as [log E].
  unfold after in E.
  destruct (analyzeText this deps (job_conversationId (timer_job t))
              (job_messages (timer_job t)) (job_context (timer_job t)) w1)
    as [[r|e] w2]; simpl in *; [| now destruct (Y e w2)].
  subst w2. now exists r, log.
Qed.

(** X22. The job of a timer calls its callback with the result of the
    analysis and then removes the entry of its conversation from the
    [Map]. When the callback throws, the error branch of the job is
    reached: the callback is called a second time, with
    [{ success: false, error }] and the message of what it threw, and the
    entry of the conversation stays in the [Map]. When the callback threw
    [null] or [undefined], reading the message throws: there is no second
    call, the entry stays, and the job rejects with the [TypeError] of the
    read. When the analysis itself rejected, the callback is called once,
    with [{ success: false, error }], and the entry stays as well; without
    a callback nothing is read and nothing is called. No case touches the
    timers. *)
Theorem throwing_callback_is_called_again (job : Job) (r : AnalysisResult) (w : World) :
  let w' := after (jobContinues deps job (Resolved r)) w in
  timers w' = timers w /\
  match job_callback job with
  | None =>
      journal w' = journal w /\
      debounceTimeouts w' = mapDelete (job_conversationId job) (debounceTimeouts w)
  | Some c =>
      match callbackThrows deps (journal w) c (WithResult r) with
      | None =>
          journal w' = (journal w ++ [Callback c (WithResult r)])%list /\
          debounceTimeouts w' = mapDelete (job_conversationId job) (debounceTimeouts w)
      | Some (ThrownValue message) =>
          journal w'
          = (journal w ++ [Callback c (WithResult r); Callback c (WithError message)])%list /\
          debounceTimeouts w' = debounceTimeouts w
      | Some reason =>
          journal w' = (journal w ++ [Callback c (WithResult r)])%list /\
          debounceTimeouts w' = debounceTimeouts w /\
          result (jobContinues deps job (Resolved r)) w
          = Rejected (anError (cannotRead reason))
      end
  end /\
  forall reason,
    let failed := after (jobContinues deps job (Rejected reason)) w in
    timers failed = timers w /\
    debounceTimeouts failed = debounceTimeouts w /\
    match job_callback job, reason with
    | Some c, ThrownValue message =>
        journal failed = (journal w ++ [Callback c (WithError message)])%list
    | _, _ => journal failed = journal w
    end.
Proof.
  cbv zeta. split; [| split].
  - unfold after, jobContinues, tryCatch, bind, callBack.
    destruct (job_callback job) as [c|]; [| reflexivity].
    unfold ask. cbn [journal put_journal fst snd].
    destruct (callbackThrows deps (journal w) c (WithResult r)) as [[| |message]|];
      reflexivity.
  - unfold result, after, jobContinues, tryCatch, bind, callBack.
    destruct (job_callback job) as [c|]; [| now split].
    unfold ask. cbn [journal put_journal fst snd].
    destruct (callbackThrows deps (journal w) c (WithResult r)) as [[| |message]|];
      [now repeat split | now repeat split | | now split].
    cbn [messageOf ret]. cbn [journal put_journal].
    destruct (callbackThrows deps _ c (WithError message)); simpl;
      now rewrite <- app_assoc.
  - intros reason. unfold after, jobContinues, tryCatch, bind, callBack.
    destruct (job_callback job) as [c|]; [| now repeat split].
    destruct reason as [| |message]; [now repeat split | now repeat split |].
    cbn [messageOf ret]. unfold ask.
    now destruct (callbackThrows deps (journal w) c (WithError message)).
Qed.

(** X23. A call that arrives while the analysis of its conversation is
    running loses its entry in the [Map]. Let the timer of a conversation
    fire; while its analysis runs, let [analyzeTextWithDebounce] be called
    for the same conversation; then let the first job go on. The first
    job removes the entry of the conversation, which by then is the one of
    the new timer: the new timer stays pending, but the [Map] does not
    know it any more, and [clearDebounceTimeout] for the conversation
    changes nothing. This is for an analysis that settles with a result,
    as every analysis does when the model client does not reject with
    [null] or [undefined], and for a callback that does not throw. *)
Theorem late_call_cannot_be_cancelled (t : Timer) (next : Job) (w : World) :
  registered w -> In t (timers w) -> settling w = [] ->
  job_conversationId next = job_conversationId (timer_job t) ->
  (forall log msgs ctx, givesReason (vllm_analyzeText deps log msgs ctx)) ->
  (forall c log arg, job_callback (timer_job t) = Some c ->
                     callbackThrows deps log c arg = None) ->
  let w1 := after (timerFires this deps (timer_id t)) w in
  let w2 := after (analyzeTextWithDebounce this next) w1 in
  let w3 := after (analysisSettles deps) w2 in
  pendingFor (job_conversationId next) w3
  = [{| timer_id := nextTimerId w; timer_delay := debounceDelay this; timer_job := next |}] /\
  mapGet (job_conversationId next) (debounceTimeouts w3) = None /\
  clearDebounceTimeout (job_conversationId next) w3 = (Resolved tt, w3).
Proof.
  intros R Hin Empty Same Model Quiet. cbv zeta.
  pose proof R as (Nd & Pend & Own).
  destruct (timerFires_run t w Model Nd Hin) as (r & log & E1).
  rewrite Empty in E1. cbn [app] in E1.
  assert (A1 : after (timerFires this deps (timer_id t)) w
               = put_settling [(timer_job t, Resolved r)]
                   (put_journal log
                      (put_timers
                         (filter (fun t' => negb (Nat.eqb (timer_id t') (timer_id t)))
                            (timers w)) w)))
    by (unfold after; now rewrite E1).
  rewrite A1. clear A1 E1.
  set (w1 := put_settling _ _).
  (* the world after the timer has fired still has its timers in the Map *)
  assert (R1 : registered w1).
  { unfold registered, w1.
    cbn [timers debounceTimeouts nextTimerId put_settling put_journal put_timers].
    split; [now apply cleared_ids_distinct |]. split.
    - intros t' H. apply filter_In in H as [H _]. apply Pend, H.
    - intros c id G. destruct (Own c id G) as [L O]. split; [exact L |].
      intros t' H. apply filter_In in H as [H _]. now apply O. }
  destruct (schedule_registered next w1 R1) as (_ & New & _).
  set (w2 := after (analyzeTextWithDebounce this next) w1) in *.
  assert (S2 : settling w2 = [(timer_job t, Resolved r)]).
  { unfold w2, after. now rewrite analyzeTextWithDebounce_run. }
  assert (T2 : forall v log', timers (put_debounceTimeouts v (put_journal log' (put_settling [] w2)))
                          = timers w2) by reflexivity.
  (* the first job goes on *)
  assert (E3 : exists log3,
             after (analysisSettles deps) w2
             = put_debounceTimeouts
                 (mapDelete (job_conversationId next) (debounceTimeouts w2))
                 (put_journal log3 (put_settling [] w2))).
  { unfold after, analysisSettles, bind, get. rewrite S2.
    unfold modify. cbn [fst snd].
    unfold jobContinues, tryCatch, bind, callBack.
    destruct (job_callback (timer_job t)) as [c|] eqn:Cb.
    - unfold ask. cbn [journal put_journal].
      rewrite (Quiet c _ _ eq_refl). cbn [fst snd]. unfold modify. cbn [snd].
      rewrite <- Same. eexists. reflexivity.
    - unfold ret, modify. cbn [snd]. rewrite <- Same.
      exists (journal w2). reflexivity. }
  destruct E3 as (log3 & E3). rewrite E3.
  split; [| split].
  - unfold pendingFor in *. rewrite T2. exact New.
  - cbn [debounceTimeouts put_debounceTimeouts]. apply mapGet_mapDelete_same.
  - rewrite clearDebounceTimeout_run.
    cbn [debounceTimeouts put_debounceTimeouts]. now rewrite mapGet_mapDelete_same.
Qed.

End Analyses.

(** *** A concrete service *)

Lemma registered_emptyWorld : registered emptyWorld.
Proof.
  split; [constructor |]. split.
  - intros t [].
  - intros c id G. discriminate G.
Qed.

Lemma analyses_resolve_unless_rejected_with_nothing_witness :
  (forall log msgs ctx, givesReason (vllm_analyzeText demoDeps log msgs ctx)) /\
  (exists r,
     result (analyzeText storingService demoDeps "c42" (Some demoMessages) demoContext)
       emptyWorld
     = Resolved r) /\
  (exists r,
     result (analyzeAudioChunk storingService demoDeps "AAAA" "webm" demoRequest) emptyWorld
     = Resolved r) /\
  analyzeText storingService silentDeps "c42" (Some demoMessages) demoContext emptyWorld
  = (Rejected (anError "Cannot read properties of null (reading 'message')"),
     put_journal [TextModel demoMessages demoContext] emptyWorld) /\
  analyzeAudioChunk storingService silentDeps "AAAA" "webm" demoRequest emptyWorld
  = (Rejected (anError "Cannot read properties of undefined (reading 'message')"),
     put_journal [ValidateAudio "AAAA" "webm"] emptyWorld).
Proof.
  assert (Gives : forall (A : Type) (a : A), givesReason (Resolved a))
    by (intros A a; exact I).
  split; [intros log msgs ctx; apply Gives |].
  destruct (analyses_resolve_unless_rejected_with_nothing storingService demoDeps "c42"
              (Some demoMessages) demoContext "AAAA" "webm" demoRequest emptyWorld)
    as (T & A & _ & _).
  specialize (T (fun _ _ _ => I)). specialize (A (fun _ _ _ => I) (fun _ _ _ => I)
                                                 (fun _ _ _ => I)).
  destruct (analyses_resolve_unless_rejected_with_nothing storingService silentDeps "c42"
              (Some demoMessages) demoContext "AAAA" "webm" demoRequest emptyWorld)
    as (_ & _ & N & U).
  split; [| split; [| split]].
  - destruct (result (analyzeText storingService demoDeps "c42" (Some demoMessages)
                        demoContext) emptyWorld) as [r|e]; [now exists r | contradiction].
  - destruct (result (analyzeAudioChunk storingService demoDeps "AAAA" "webm" demoRequest)
                emptyWorld) as [r|e]; [now exists r | contradiction].
  - exact (N {| content := Some (textOf "hello") |}
             [{| content := Some (textOf "send me your card number") |}]
             ThrownNull (or_introl eq_refl) eq_refl).
  - exact (U ThrownUndefined (or_intror eq_refl) eq_refl).
Defined.

Lemma alert_is_attached_when_enabled_witness :
  storeFraudResults storingService = true /\
  (forall reason, doc_triggerAlert markedDoc <> Some (Some reason)) /\
  (exists a,
     result (analyzeText storingService markingDeps "c42" (Some demoMessages) demoContext)
       emptyWorld
     = Resolved (Analysed (JString "a2") 2 (JNumber 0.5) true (Some a) (JNumber 12) None) /\
     alert_analysisId a = JString "a2" /\ alert_severity a = "high") /\
  (exists a,
     result (analyzeAudioChunk storingService markingDeps "AAAA" "webm" demoRequest)
       emptyWorld
     = Resolved (Analysed (JString "a2") 2 (JNumber 0.5) true (Some a) (JNumber 12)
                   (Some (JNumber 0))) /\
     alert_analysisId a = JString "a2" /\ alert_type a = "audio").
Proof.
  assert (Marks : forall reason, doc_triggerAlert markedDoc <> Some (Some reason))
    by (intros reason; discriminate).
  split; [reflexivity |]. split; [exact Marks |].
  destruct (alert_is_attached_when_enabled storingService markingDeps emptyWorld markedDoc
              eq_refl Marks) as [T A].
  split.
  - destruct (T "c42" {| content := Some (textOf "hello") |}
                [{| content := Some (textOf "send me your card number") |}]
                demoContext scamReply (textOf "send me your card number")
                eq_refl eq_refl eq_refl eq_refl) as (alertData & E & Iff & Built).
    destruct alertData as [a|]; [| now destruct (proj2 Iff (conj eq_refl eq_refl))].
    exists a. split; [exact E |].
    destruct (Built a eq_refl) as (Id & _ & _ & _ & _ & _ & Sev & _).
    split; [exact Id | exact Sev].
  - destruct (A "AAAA" "webm" demoRequest {| valid := true; errors := [] |}
                {| processing_success := true; processing_error := None;
                   processing_audioBuffer := "AAAA"; processing_metadata := [] |}
                scamReply eq_refl eq_refl eq_refl eq_refl eq_refl eq_refl eq_refl)
      as (alertData & E & Iff & Built).
    destruct alertData as [a|]; [| now destruct (proj2 Iff (conj eq_refl eq_refl))].
    exists a. split; [exact E |].
    destruct (Built a eq_refl) as (Id & _ & _ & _ & _ & Ty & _).
    split; [exact Id | exact Ty].
Defined.

Lemma alerts_without_storage_report_nothing_witness :
  storeFraudResults demoService = false /\
  match result (analyzeText demoService demoDeps "c42" (Some demoMessages) demoContext)
          emptyWorld with
  | Resolved (Analysed analysisId fraudScore _ alertTriggered alertData _ _) =>
      analysisId = JString "temp-id" /\
      alertTriggered = PrimFloat.ltb 1 fraudScore /\
      match alertData with
      | Some a =>
          alert_severity a = "low" /\ reportsFinding (alert_message a) = false /\
          alert_fraudScore a = JUndefined /\ alert_conversationId a = JUndefined /\
          alert_userId a = JUndefined
      | None => True
      end
  | _ => True
  end.
Proof.
  split; [reflexivity |].
  exact (proj1 (alerts_without_storage_report_nothing demoService demoDeps "c42"
                  (Some demoMessages) demoContext "" "webm" demoRequest emptyWorld
                  eq_refl)).
Defined.

Lemma text_analysis_needs_messages_witness :
  content (last brokenMessages {| content := None |}) = None /\
  exists error : string,
    analyzeText demoService demoDeps "c42" (Some brokenMessages) demoContext emptyWorld
    = (Resolved (Failed (JString error) 1 0),
       put_journal [TextModel brokenMessages demoContext] emptyWorld).
Proof.
  split; [reflexivity |].
  destruct (text_analysis_needs_messages demoService demoDeps "c42" demoContext emptyWorld)
    as (_ & _ & H).
  exact (H {| content := Some (textOf "hello") |} [{| content := None |}] scamReply
           eq_refl eq_refl eq_refl).
Defined.

Lemma audio_analysis_stops_at_first_failure_witness :
  analyzeAudioChunk demoService demoDeps "AAAA" "webm" demoRequest emptyWorld
  = (Resolved
       (Failed (JString "Audio validation failed: empty buffer, unknown format") 0 0),
     put_journal [ValidateAudio "AAAA" "webm"] emptyWorld).
Proof.
  destruct (audio_analysis_stops_at_first_failure demoService demoDeps "AAAA" "webm"
              demoRequest emptyWorld) as [H _].
  exact (H {| valid := false; errors := ["empty buffer"; "unknown format"] |}
           eq_refl eq_refl).
Defined.

Lemma failed_alert_fails_the_analysis_witness :
  storeFraudResults storingService = true /\
  result (analyzeText storingService demoDeps "c42" (Some demoMessages) demoContext)
    emptyWorld
  = Resolved (Failed (JString "write conflict") 1 0) /\
  filter isSave
    (journal
       (after (analyzeText storingService demoDeps "c42" (Some demoMessages) demoContext)
          emptyWorld))
  <> [].
Proof.
  split; [reflexivity |].
  pose proof (failed_alert_fails_the_analysis storingService demoDeps "c42"
                {| content := Some (textOf "hello") |}
                [{| content := Some (textOf "send me your card number") |}]
                demoContext emptyWorld scamReply (textOf "send me your card number")
                savedDoc (JString "write conflict") eq_refl eq_refl eq_refl eq_refl eq_refl eq_refl eq_refl
                eq_refl) as E.
  unfold result, after. fold demoMessages in E. rewrite E. simpl.
  split; [reflexivity | discriminate].
Defined.

Lemma only_the_last_call_of_a_burst_is_pending_witness :
  registered emptyWorld /\
  exists id,
    pendingFor "c42"
      (fold_left (fun w job => after (analyzeTextWithDebounce demoService job) w)
         [demoJob; laterJob] emptyWorld)
    = [{| timer_id := id; timer_delay := 3000; timer_job := laterJob |}].
Proof.
  split; [exact registered_emptyWorld |].
  destruct (only_the_last_call_of_a_burst_is_pending demoService [demoJob; laterJob]
              emptyWorld registered_emptyWorld) as [_ H].
  exact (proj2 (H "c42")).
Defined.

Lemma registered_busyWorld : registered busyWorld.
Proof.
  apply (schedule_registered demoService otherJob).
  apply (schedule_registered demoService demoJob).
  exact registered_emptyWorld.
Qed.

Lemma clearing_cancels_the_pending_analyses_witness :
  registered busyWorld /\
  timers busyWorld
  = [ {| timer_id := 0; timer_delay := 3000; timer_job := demoJob |};
      {| timer_id := 1; timer_delay := 3000; timer_job := otherJob |} ] /\
  debounceTimeouts busyWorld = [("c42", 0%nat); ("c43", 1%nat)] /\
  pendingFor "c42" (after (clearDebounceTimeout "c42") busyWorld) = [] /\
  mapGet "c42" (debounceTimeouts (after (clearDebounceTimeout "c42") busyWorld)) = None /\
  pendingFor "c43" (after (clearDebounceTimeout "c42") busyWorld)
  = [ {| timer_id := 1; timer_delay := 3000; timer_job := otherJob |} ] /\
  timers (after clearAllDebounceTimeouts busyWorld) = [] /\
  debounceTimeouts (after clearAllDebounceTimeouts busyWorld) = [] /\
  clearDebounceTimeout "c44" busyWorld = (Resolved tt, busyWorld).
Proof.
  split; [exact registered_busyWorld |].
  split; [reflexivity |]. split; [reflexivity |].
  destruct (clearing_cancels_the_pending_analyses "c42" busyWorld) as (_ & B & C).
  destruct (B registered_busyWorld) as (P & G & O).
  destruct (C registered_busyWorld) as (T & M).
  destruct (clearing_cancels_the_pending_analyses "c44" busyWorld) as (A & _ & _).
  split; [exact P |]. split; [exact G |].
  split; [exact (O "c43" ltac:(discriminate)) |].
  split; [exact T |]. split; [exact M |].
  exact (A eq_refl).
Defined.

Lemma late_call_cannot_be_cancelled_witness :
  timers (after (analyzeTextWithDebounce demoService laterJob) emptyWorld)
  = [{| timer_id := 0; timer_delay := 3000; timer_job := laterJob |}] /\
  mapGet "c42"
    (debounceTimeouts
       (after (analysisSettles demoDeps)
          (after (analyzeTextWithDebounce demoService demoJob)
             (after (timerFires demoService demoDeps 0)
                (after (analyzeTextWithDebounce demoService laterJob) emptyWorld)))))
  = None /\
  pendingFor "c42"
    (after (analysisSettles demoDeps)
       (after (analyzeTextWithDebounce demoService demoJob)
          (after (timerFires demoService demoDeps 0)
             (after (analyzeTextWithDebounce demoService laterJob) emptyWorld))))
  = [{| timer_id := 1; timer_delay := 3000; timer_job := demoJob |}].
Proof.
  split; [reflexivity |].
  assert (R : registered (after (analyzeTextWithDebounce demoService laterJob) emptyWorld))
    by apply (schedule_registered demoService laterJob emptyWorld registered_emptyWorld).
  assert (Q : forall c log arg,
             job_callback laterJob = Some c -> callbackThrows demoDeps log c arg = None).
  { intros c log arg H. injection H as <-. reflexivity. }
  destruct (late_call_cannot_be_cancelled demoService demoDeps
              {| timer_id := 0; timer_delay := 3000; timer_job := laterJob |} demoJob
              (after (analyzeTextWithDebounce demoService laterJob) emptyWorld)
              R (or_introl eq_refl) eq_refl eq_refl (fun _ _ _ => I) Q) as (P & G & _).
  split; [exact G | exact P].
Defined.

End FraudServiceFacts.
